(** * Keymaster: a shallow embedding of the key-management core

    The development follows the C++ sources function by function.

    - Fixed-width integers are [Z] with their ranges and conversions written
      out ([to_int32] for the cast [(int)key_size], shifts and [Z.lor] for the
      composite version word).
    - Byte strings are [list byte].
    - Calls into OpenSSL (random bytes, key generation, curve lookup, HMAC) and
      the wall clock are inputs of the model: each module takes a record of
      backend answers, so that every theorem quantifies over all behaviours of
      the library.  Pointers that the code tests against [NULL] are [option]s.
    - The operation table is a [list] indexed with stdpp's lookup and insert;
      dereferencing the [operation] pointer of an empty slot is the explicit
      outcome [NullDeref]. *)

From Stdlib Require Import ZArith Bool Lia.
From Stdlib Require Import Strings.Byte.
From stdpp Require Import base option list numbers.

Local Open Scope Z_scope.

(** ** Shared definitions (keymaster_defs.h, keymaster_tags.h) *)

Module Defs.

(** The error codes the modelled functions return. *)
Inductive keymaster_error_t : Type :=
| KM_ERROR_OK
| KM_ERROR_UNSUPPORTED_PURPOSE
| KM_ERROR_UNSUPPORTED_ALGORITHM
| KM_ERROR_UNSUPPORTED_KEY_SIZE
| KM_ERROR_UNSUPPORTED_MAC_LENGTH
| KM_ERROR_UNSUPPORTED_DIGEST
| KM_ERROR_UNSUPPORTED_TAG
| KM_ERROR_UNSUPPORTED_EC_FIELD
| KM_ERROR_INVALID_INPUT_LENGTH
| KM_ERROR_INVALID_OPERATION_HANDLE
| KM_ERROR_INVALID_TAG
| KM_ERROR_INVALID_DSA_PARAMS
| KM_ERROR_INVALID_KEY_BLOB
| KM_ERROR_IMPORT_PARAMETER_MISMATCH
| KM_ERROR_VERIFICATION_FAILED
| KM_ERROR_TOO_MANY_OPERATIONS
| KM_ERROR_MEMORY_ALLOCATION_FAILED
| KM_ERROR_UNIMPLEMENTED
| KM_ERROR_UNKNOWN_ERROR.

#[export] Instance keymaster_error_eq_dec : EqDecision keymaster_error_t.
Proof. solve_decision. Defined.

#[export] Instance byte_eq_dec : EqDecision byte := Byte.byte_eq_dec.

Definition is_ok (e : keymaster_error_t) : bool :=
  match e with KM_ERROR_OK => true | _ => false end.

(** The range of a [uint8_t], and the conversion of a [uint32_t] to [int]
    that [(int)key_size] performs on the two's complement targets. *)
Definition is_uint8 (z : Z) : Prop := 0 <= z < 2 ^ 8.
Definition to_int32 (z : Z) : Z := if z <? 2 ^ 31 then z else z - 2 ^ 32.

(** The enumerations of keymaster_defs.h that the modelled code switches on.
    The header belongs to libhardware; each enumeration gets a last
    constructor that stands for every value the code does not name. *)
Inductive keymaster_algorithm_t : Type :=
| KM_ALGORITHM_RSA | KM_ALGORITHM_DSA | KM_ALGORITHM_ECDSA
| KM_ALGORITHM_AES | KM_ALGORITHM_HMAC
| KM_ALGORITHM_other (raw : Z).

Inductive keymaster_purpose_t : Type :=
| KM_PURPOSE_ENCRYPT | KM_PURPOSE_DECRYPT | KM_PURPOSE_SIGN | KM_PURPOSE_VERIFY
| KM_PURPOSE_other (raw : Z).

Inductive keymaster_digest_t : Type :=
| KM_DIGEST_NONE | KM_DIGEST_MD5 | KM_DIGEST_SHA1 | KM_DIGEST_SHA_2_224
| KM_DIGEST_SHA_2_256 | KM_DIGEST_SHA_2_384 | KM_DIGEST_SHA_2_512
| KM_DIGEST_other (raw : Z).

Inductive keymaster_key_origin_t : Type :=
| KM_ORIGIN_HARDWARE | KM_ORIGIN_SOFTWARE | KM_ORIGIN_IMPORTED
| KM_ORIGIN_other (raw : Z).

#[export] Instance keymaster_algorithm_eq_dec : EqDecision keymaster_algorithm_t.
Proof. solve_decision. Defined.
#[export] Instance keymaster_purpose_eq_dec : EqDecision keymaster_purpose_t.
Proof. solve_decision. Defined.
#[export] Instance keymaster_digest_eq_dec : EqDecision keymaster_digest_t.
Proof. solve_decision. Defined.
#[export] Instance keymaster_key_origin_eq_dec : EqDecision keymaster_key_origin_t.
Proof. solve_decision. Defined.

(** The value type a tag carries (the top four bits of the 32-bit tag). *)
Inductive keymaster_tag_type_t : Type :=
| KM_INVALID | KM_ENUM | KM_ENUM_REP | KM_INT | KM_INT_REP
| KM_LONG | KM_DATE | KM_BOOL | KM_BIGNUM | KM_BYTES.

#[export] Instance keymaster_tag_type_eq_dec : EqDecision keymaster_tag_type_t.
Proof. solve_decision. Defined.

(** The tags the modelled code names; [KM_TAG_other] is any other tag. *)
Inductive keymaster_tag_t : Type :=
| KM_TAG_PURPOSE | KM_TAG_ALGORITHM | KM_TAG_KEY_SIZE | KM_TAG_BLOCK_MODE
| KM_TAG_DIGEST | KM_TAG_MAC_LENGTH | KM_TAG_PADDING | KM_TAG_CHUNK_LENGTH
| KM_TAG_RSA_PUBLIC_EXPONENT
| KM_TAG_DSA_GENERATOR | KM_TAG_DSA_P | KM_TAG_DSA_Q
| KM_TAG_USER_ID | KM_TAG_USER_AUTH_ID | KM_TAG_AUTH_TIMEOUT
| KM_TAG_APPLICATION_ID | KM_TAG_APPLICATION_DATA
| KM_TAG_CREATION_DATETIME | KM_TAG_ORIGIN
| KM_TAG_ROLLBACK_RESISTANT | KM_TAG_ROOT_OF_TRUST
| KM_TAG_other (type : keymaster_tag_type_t) (id : Z).

#[export] Instance keymaster_tag_eq_dec : EqDecision keymaster_tag_t.
Proof. solve_decision. Defined.

Definition keymaster_tag_get_type (t : keymaster_tag_t) : keymaster_tag_type_t :=
  match t with
  | KM_TAG_PURPOSE => KM_ENUM_REP
  | KM_TAG_ALGORITHM | KM_TAG_BLOCK_MODE | KM_TAG_DIGEST | KM_TAG_PADDING
  | KM_TAG_ORIGIN => KM_ENUM
  | KM_TAG_KEY_SIZE | KM_TAG_MAC_LENGTH | KM_TAG_CHUNK_LENGTH
  | KM_TAG_USER_AUTH_ID | KM_TAG_AUTH_TIMEOUT => KM_INT
  | KM_TAG_USER_ID => KM_INT_REP
  | KM_TAG_RSA_PUBLIC_EXPONENT => KM_LONG
  | KM_TAG_DSA_GENERATOR | KM_TAG_DSA_P | KM_TAG_DSA_Q => KM_BIGNUM
  | KM_TAG_APPLICATION_ID | KM_TAG_APPLICATION_DATA | KM_TAG_ROOT_OF_TRUST => KM_BYTES
  | KM_TAG_CREATION_DATETIME => KM_DATE
  | KM_TAG_ROLLBACK_RESISTANT => KM_BOOL
  | KM_TAG_other type _ => type
  end.

(** keymaster_tags.h: a [TypedTag] or [TypedEnumTag] fixes the C++ type of
    the value read from the [keymaster_key_param_t] union. *)
Definition value_t (t : keymaster_tag_t) : Type :=
  match t with
  | KM_TAG_PURPOSE => keymaster_purpose_t
  | KM_TAG_ALGORITHM => keymaster_algorithm_t
  | KM_TAG_DIGEST => keymaster_digest_t
  | KM_TAG_ORIGIN => keymaster_key_origin_t
  | _ =>
    match keymaster_tag_get_type t with
    | KM_INVALID => unit
    | KM_ENUM | KM_ENUM_REP | KM_INT | KM_INT_REP | KM_LONG | KM_DATE => Z
    | KM_BOOL => bool
    | KM_BIGNUM | KM_BYTES => list byte
    end
  end.

(** [keymaster_key_param_t], built by the [Authorization(tag, value)]
    overloads. *)
Record keymaster_key_param_t : Type := Authorization {
  tag : keymaster_tag_t;
  value : value_t tag
}.

(** Modelled from the spec: [AuthorizationSet] (authorization_set.cpp is not
    among the sources) is "an ordered, duplicate-preserving sequence of
    authorizations"; [push_back] appends, [GetTagValue] reads the first
    occurrence of a tag, [Clear] empties the set.  A set built this way is
    valid, so [is_valid] answers [OK]. *)
Definition AuthorizationSet : Type := list keymaster_key_param_t.

Inductive AuthorizationSet_Error : Type :=
| AuthorizationSet_OK | ALLOCATION_FAILURE | MALFORMED_DATA.

Definition push_back (set : AuthorizationSet) (p : keymaster_key_param_t)
  : AuthorizationSet := set ++ [p].

Definition is_valid (set : AuthorizationSet) : AuthorizationSet_Error :=
  AuthorizationSet_OK.

Fixpoint GetTagValue (t : keymaster_tag_t) (set : AuthorizationSet)
  : option (value_t t) :=
  match set with
  | [] => None
  | p :: rest =>
    match decide (tag p = t) with
    | left e => Some (eq_rect (tag p) value_t (value p) t e)
    | right _ => GetTagValue t rest
    end
  end.

(** [contains(set, tag)] of the tests: some entry carries the tag. *)
Definition contains_tag (t : keymaster_tag_t) (set : AuthorizationSet) : bool :=
  existsb (fun p => bool_decide (tag p = t)) set.

(** Fallible functions that hand back a pointer and set [*error]: the result
    is either the error code or the object. *)
Definition result (A : Type) : Type := (keymaster_error_t + A)%type.

Notation "x <- c ;; k" := (match c with inl err => inl err | inr x => k end)
  (at level 100, c at next level, right associativity).

End Defs.
Export Defs.

(** ** google_keymaster_messages.h: message versions *)

Module Messages.

Definition MAX_MESSAGE_VERSION : Z := 1.

(** [inline int32_t MessageVersion(uint8_t major_ver, uint8_t minor_ver,
    uint8_t subminor_ver)].  The three arguments are [uint8_t]; they are
    promoted to [int] before the shifts, so nothing wraps. *)
Definition MessageVersion (major_ver minor_ver subminor_ver : Z) : Z :=
  let composite_ver :=
    Z.lor (Z.lor (Z.shiftl major_ver 16) (Z.shiftl minor_ver 8)) subminor_ver in
  if composite_ver =? 0x000 then 0
  else if composite_ver =? 0x100 then 1
  else -1.

(** google_keymaster.cpp: the version [GetVersion] reports. *)
Definition MAJOR_VER : Z := 1.
Definition MINOR_VER : Z := 0.
Definition SUBMINOR_VER : Z := 0.

End Messages.

(** ** rsa_key.cpp (and the identical text in asymmetric_key.cpp): RSA import *)

Module RsaKey.

(** What the code reads of an OpenSSL [RSA] object: modulus and public
    exponent.  [EVP_PKEY_get1_RSA] answers [NULL] for a key of another type. *)
Record RSA : Type := { rsa_n : Z; rsa_e : Z }.

Inductive EVP_PKEY : Type :=
| EVP_PKEY_of_RSA (rsa : RSA)
| EVP_PKEY_not_RSA.

Definition EVP_PKEY_get1_RSA (pkey : EVP_PKEY) : option RSA :=
  match pkey with
  | EVP_PKEY_of_RSA rsa => Some rsa
  | EVP_PKEY_not_RSA => None
  end.

Definition BN_num_bits (a : Z) : Z := if a <=? 0 then 0 else Z.log2 a + 1.

(** [RSA_size]: the modulus size in bytes. *)
Definition RSA_size (rsa : RSA) : Z := (BN_num_bits (rsa_n rsa) + 7) / 8.

(** The bignum word: [BN_BITS2] is the width of [BN_ULONG] on the target,
    [BN_set_word_ok] whether [BN_set_word] could store the word. *)
Record OpenSSL : Type := {
  BN_BITS2 : Z;
  BN_set_word_ok : bool
}.

Definition BN_MASK2 (ssl : OpenSSL) : Z := 2 ^ BN_BITS2 ssl - 1.

(** [BN_set_word(bn, w)] takes a [BN_ULONG]. *)
Definition BN_set_word (ssl : OpenSSL) (w : Z) : Z := w mod 2 ^ BN_BITS2 ssl.

(** [BN_get_word]: the value, or all bits set when it does not fit a word. *)
Definition BN_get_word (ssl : OpenSSL) (a : Z) : Z :=
  if a <=? BN_MASK2 ssl then a else BN_MASK2 ssl.

Record RsaKey : Type := {
  rsa_key_ : RSA;
  authorizations : AuthorizationSet
}.

(** [RsaKey::ImportKey(key_description, pkey, logger, error)] *)
Definition ImportKey (ssl : OpenSSL) (key_description : AuthorizationSet)
    (pkey : EVP_PKEY) : result RsaKey :=
  match EVP_PKEY_get1_RSA pkey with
  | None => inl KM_ERROR_UNKNOWN_ERROR
  | Some rsa_key =>
    let authorizations := key_description in
    authorizations <-
      match GetTagValue KM_TAG_RSA_PUBLIC_EXPONENT authorizations with
      | Some public_exponent =>
        (* public_exponent specified, make sure it matches the key *)
        if negb (BN_set_word_ok ssl) then inl KM_ERROR_UNKNOWN_ERROR
        else if negb (BN_set_word ssl public_exponent =? rsa_e rsa_key)
        then inl KM_ERROR_IMPORT_PARAMETER_MISMATCH
        else inr authorizations
      | None =>
        (* public_exponent not specified, use the one from the key. *)
        let public_exponent := BN_get_word ssl (rsa_e rsa_key) in
        if public_exponent =? 0xffffffff
        then inl KM_ERROR_IMPORT_PARAMETER_MISMATCH
        else inr (push_back authorizations
                    (Authorization KM_TAG_RSA_PUBLIC_EXPONENT public_exponent))
      end ;;
    authorizations <-
      match GetTagValue KM_TAG_KEY_SIZE authorizations with
      | Some key_size =>
        (* key_size specified, make sure it matches the key. *)
        if negb (RSA_size rsa_key =? to_int32 key_size)
        then inl KM_ERROR_IMPORT_PARAMETER_MISMATCH
        else inr authorizations
      | None =>
        let key_size := RSA_size rsa_key * 8 in
        inr (push_back authorizations (Authorization KM_TAG_KEY_SIZE key_size))
      end ;;
    authorizations <-
      match GetTagValue KM_TAG_ALGORITHM authorizations with
      | Some algorithm =>
        if negb (bool_decide (algorithm = KM_ALGORITHM_RSA))
        then inl KM_ERROR_IMPORT_PARAMETER_MISMATCH
        else inr authorizations
      | None =>
        inr (push_back authorizations (Authorization KM_TAG_ALGORITHM KM_ALGORITHM_RSA))
      end ;;
    inr {| rsa_key_ := rsa_key; authorizations := authorizations |}
  end.

(** A 1024-bit modulus and the usual exponent, as in rsa_privkey_pk8.der of
    the tests (only the size of the modulus and the exponent are read). *)
Definition rsa_1024 : RSA := {| rsa_n := 2 ^ 1023 + 1; rsa_e := 65537 |}.

End RsaKey.

(** ** OpenSSL elliptic-curve objects, as far as key generation reads them *)

Module Ec.

Inductive NID : Type :=
| NID_X9_62_prime192v1 | NID_secp224r1 | NID_X9_62_prime256v1
| NID_secp384r1 | NID_secp521r1.

#[export] Instance NID_eq_dec : EqDecision NID.
Proof. solve_decision. Defined.

Record EC_GROUP : Type := { curve_name : NID }.

Record EC_KEY : Type := { ec_group : EC_GROUP; ec_priv_key : Z }.

(** Answers of the library during one [GenerateKey] call. *)
Record OpenSSL : Type := {
  EC_KEY_new_ok : bool;
  EVP_PKEY_new_ok : bool;
  EC_GROUP_new_ok : NID -> bool;
  EC_KEY_set_group : EC_GROUP -> Z;
  EC_KEY_generate_key : EC_GROUP -> Z * Z;   (* return value, private key *)
  EC_KEY_check_key : EC_KEY -> Z;
  new_EcdsaKey_ok : bool
}.

Definition EC_GROUP_new_by_curve_name (ssl : OpenSSL) (nid : NID) : option EC_GROUP :=
  if EC_GROUP_new_ok ssl nid then Some {| curve_name := nid |} else None.

(** The library finds memory for the two objects [GenerateKey] allocates
    first. *)
Definition allocates (ssl : OpenSSL) : Prop :=
  EC_KEY_new_ok ssl = true /\ EVP_PKEY_new_ok ssl = true.

(** The library carries out every step of a key generation. *)
Definition succeeds (ssl : OpenSSL) : Prop :=
  allocates ssl /\
  (forall nid, EC_GROUP_new_ok ssl nid = true) /\
  (forall group, EC_KEY_set_group ssl group = 1) /\
  (forall group, fst (EC_KEY_generate_key ssl group) = 1) /\
  (forall key, 0 <= EC_KEY_check_key ssl key) /\
  new_EcdsaKey_ok ssl = true.

(** A library that succeeds, with a fixed private key. *)
Definition ideal : OpenSSL := {|
  EC_KEY_new_ok := true;
  EVP_PKEY_new_ok := true;
  EC_GROUP_new_ok := fun _ => true;
  EC_KEY_set_group := fun _ => 1;
  EC_KEY_generate_key := fun _ => (1, 7);
  EC_KEY_check_key := fun _ => 1;
  new_EcdsaKey_ok := true
|}.

Record EcdsaKey : Type := {
  ecdsa_key_ : EC_KEY;
  authorizations : AuthorizationSet
}.

End Ec.

(** ** ecdsa_key.cpp: [EcdsaKeyFactory] *)

Module EcdsaKeyFactory.
Import Ec.

Definition ECDSA_DEFAULT_KEY_SIZE : Z := 224.

(** [EcdsaKeyFactory::choose_group(size_t key_size_bits)] *)
Definition choose_group (ssl : OpenSSL) (key_size_bits : Z) : option EC_GROUP :=
  if key_size_bits =? 224 then EC_GROUP_new_by_curve_name ssl NID_secp224r1
  else if key_size_bits =? 256 then EC_GROUP_new_by_curve_name ssl NID_X9_62_prime256v1
  else if key_size_bits =? 384 then EC_GROUP_new_by_curve_name ssl NID_secp384r1
  else if key_size_bits =? 521 then EC_GROUP_new_by_curve_name ssl NID_secp521r1
  else None.

(** [EcdsaKeyFactory::get_group_size] *)
Definition get_group_size (group : EC_GROUP) : result Z :=
  match curve_name group with
  | NID_secp224r1 => inr 224
  | NID_X9_62_prime256v1 => inr 256
  | NID_secp384r1 => inr 384
  | NID_secp521r1 => inr 521
  | _ => inl KM_ERROR_UNSUPPORTED_EC_FIELD
  end.

(** [EcdsaKeyFactory::GenerateKey(key_description, logger, error)] *)
Definition GenerateKey (ssl : OpenSSL) (key_description : AuthorizationSet)
  : result EcdsaKey :=
  let authorizations := key_description in
  let '(key_size, authorizations) :=
    match GetTagValue KM_TAG_KEY_SIZE authorizations with
    | Some key_size => (key_size, authorizations)
    | None =>
      (ECDSA_DEFAULT_KEY_SIZE,
       push_back authorizations (Authorization KM_TAG_KEY_SIZE ECDSA_DEFAULT_KEY_SIZE))
    end in
  if negb (EC_KEY_new_ok ssl) || negb (EVP_PKEY_new_ok ssl)
  then inl KM_ERROR_MEMORY_ALLOCATION_FAILED
  else
    match choose_group ssl key_size with
    | None =>
      (* Technically, could also have been a memory allocation problem. *)
      inl KM_ERROR_UNSUPPORTED_KEY_SIZE
    | Some group =>
      let '(generated, priv_key) := EC_KEY_generate_key ssl group in
      let ecdsa_key := {| ec_group := group; ec_priv_key := priv_key |} in
      if negb (EC_KEY_set_group ssl group =? 1)
         || negb (generated =? 1)
         || (EC_KEY_check_key ssl ecdsa_key <? 0)
      then inl KM_ERROR_UNKNOWN_ERROR
      else if new_EcdsaKey_ok ssl
      then inr {| ecdsa_key_ := ecdsa_key; authorizations := authorizations |}
      else inl KM_ERROR_MEMORY_ALLOCATION_FAILED
    end.

(** [EcdsaKeyFactory::ImportKey(key_description, key_format, key_data,
    key_data_length, logger, error)].  [ExtractEvpKey] is the PKCS#8 parser of
    the base class (not among the sources); the [option] it hands back is
    what [EVP_PKEY_get1_EC_KEY] finds in the parsed key. *)
Definition ImportKey (ExtractEvpKey : Z -> list byte -> result (option EC_KEY))
    (key_description : AuthorizationSet) (key_format : Z) (key_data : list byte)
  : result EcdsaKey :=
  pkey <- ExtractEvpKey key_format key_data ;;
  match pkey with
  | None => inl KM_ERROR_UNKNOWN_ERROR
  | Some ecdsa_key =>
    extracted_key_size_bits <- get_group_size (ec_group ecdsa_key) ;;
    let authorizations := key_description in
    authorizations <-
      match GetTagValue KM_TAG_KEY_SIZE authorizations with
      | Some key_size_bits =>
        (* key_size_bits specified, make sure it matches the key. *)
        if negb (key_size_bits =? extracted_key_size_bits)
        then inl KM_ERROR_IMPORT_PARAMETER_MISMATCH
        else inr authorizations
      | None =>
        (* key_size_bits not specified, add it. *)
        inr (push_back authorizations
               (Authorization KM_TAG_KEY_SIZE extracted_key_size_bits))
      end ;;
    authorizations <-
      match GetTagValue KM_TAG_ALGORITHM authorizations with
      | Some algorithm =>
        if negb (bool_decide (algorithm = KM_ALGORITHM_ECDSA))
        then inl KM_ERROR_IMPORT_PARAMETER_MISMATCH
        else inr authorizations
      | None =>
        inr (push_back authorizations
               (Authorization KM_TAG_ALGORITHM KM_ALGORITHM_ECDSA))
      end ;;
    inr {| ecdsa_key_ := ecdsa_key; authorizations := authorizations |}
  end.

End EcdsaKeyFactory.

(** ** asymmetric_key.cpp: the older [EcdsaKey::GenerateKey] *)

Module EcdsaKey.
Import Ec.

Definition ECDSA_DEFAULT_KEY_SIZE : Z := 192.

(** [EcdsaKey::choose_group(size_t key_size_bits)] *)
Definition choose_group (ssl : OpenSSL) (key_size_bits : Z) : option EC_GROUP :=
  if key_size_bits =? 192 then EC_GROUP_new_by_curve_name ssl NID_X9_62_prime192v1
  else if key_size_bits =? 224 then EC_GROUP_new_by_curve_name ssl NID_secp224r1
  else if key_size_bits =? 256 then EC_GROUP_new_by_curve_name ssl NID_X9_62_prime256v1
  else if key_size_bits =? 384 then EC_GROUP_new_by_curve_name ssl NID_secp384r1
  else if key_size_bits =? 521 then EC_GROUP_new_by_curve_name ssl NID_secp521r1
  else None.

(** [EcdsaKey::GenerateKey(key_description, logger, error)] *)
Definition GenerateKey (ssl : OpenSSL) (key_description : AuthorizationSet)
  : result EcdsaKey :=
  let authorizations := key_description in
  let '(key_size, authorizations) :=
    match GetTagValue KM_TAG_KEY_SIZE authorizations with
    | Some key_size => (key_size, authorizations)
    | None =>
      (ECDSA_DEFAULT_KEY_SIZE,
       push_back authorizations (Authorization KM_TAG_KEY_SIZE ECDSA_DEFAULT_KEY_SIZE))
    end in
  if negb (EC_KEY_new_ok ssl) || negb (EVP_PKEY_new_ok ssl)
  then inl KM_ERROR_MEMORY_ALLOCATION_FAILED
  else
    match choose_group ssl key_size with
    | None => inl KM_ERROR_UNSUPPORTED_KEY_SIZE
    | Some group =>
      let '(generated, priv_key) := EC_KEY_generate_key ssl group in
      let ecdsa_key := {| ec_group := group; ec_priv_key := priv_key |} in
      if negb (EC_KEY_set_group ssl group =? 1)
         || negb (generated =? 1)
         || (EC_KEY_check_key ssl ecdsa_key <? 0)
      then inl KM_ERROR_UNKNOWN_ERROR
      else if new_EcdsaKey_ok ssl
      then inr {| ecdsa_key_ := ecdsa_key; authorizations := authorizations |}
      else inl KM_ERROR_MEMORY_ALLOCATION_FAILED
    end.

End EcdsaKey.

(** ** asymmetric_key.cpp: [DsaKey::GenerateKey] *)

Module DsaKey.

Definition DSA_DEFAULT_KEY_SIZE : Z := 2048.

Definition BIGNUM : Type := Z.

(** The domain parameters of a [DSA] object, and the key pair. *)
Record DSA_params : Type := { dsa_g : BIGNUM; dsa_p : BIGNUM; dsa_q : BIGNUM }.

Record DSA : Type := {
  params : DSA_params;
  priv_key : BIGNUM;
  pub_key : BIGNUM
}.

(** [BN_bin2bn] reads a big-endian magnitude. *)
Definition be_to_Z (data : list byte) : Z :=
  fold_left (fun acc b => acc * 256 + Z.of_N (Byte.to_N b)) data 0.

(** Answers of the library during one [GenerateKey] call.
    [convert_bn_to_blob] is the helper of openssl_utils.h, which is not among
    the sources; it is taken as given. *)
Record OpenSSL : Type := {
  DSA_new_ok : bool;
  EVP_PKEY_new_ok : bool;
  DSA_generate_parameters_ex : Z -> option DSA_params;
  BN_bin2bn_ok : list byte -> bool;
  DSA_generate_key : DSA_params -> option (BIGNUM * BIGNUM);
  convert_bn_to_blob : BIGNUM -> list byte;
  new_DsaKey_ok : bool
}.

Definition BN_bin2bn (ssl : OpenSSL) (data : list byte) : option BIGNUM :=
  if BN_bin2bn_ok ssl data then Some (be_to_Z data) else None.

(** A [keymaster_blob_t] whose [data] pointer may be [NULL]. *)
Definition keymaster_blob_t : Type := option (list byte).

(** [GetDsaParamData(auths, tag, blob)]: [blob->data = NULL] when the tag is
    not in the set. *)
Definition GetDsaParamData (auths : AuthorizationSet) (t : keymaster_tag_t)
    (as_bytes : value_t t -> list byte) : keymaster_blob_t :=
  match GetTagValue t auths with
  | Some data => Some (as_bytes data)
  | None => None
  end.

(** [SetDsaParamData(auths, tag, number)]: store the parameter in [auths]. *)
Definition SetDsaParamData (ssl : OpenSSL) (auths : AuthorizationSet)
    (t : keymaster_tag_t) (of_bytes : list byte -> value_t t) (number : BIGNUM)
  : AuthorizationSet :=
  let blob := convert_bn_to_blob ssl number in
  push_back auths (Authorization t (of_bytes blob)).

Definition is_NULL (blob : keymaster_blob_t) : bool :=
  match blob with None => true | Some _ => false end.

Record DsaKey : Type := {
  dsa_key_ : DSA;
  authorizations : AuthorizationSet
}.

(** [DsaKey::GenerateKey(key_description, logger, error)] *)
Definition GenerateKey (ssl : OpenSSL) (key_description : AuthorizationSet)
  : result DsaKey :=
  let authorizations := key_description in
  let g_blob := GetDsaParamData authorizations KM_TAG_DSA_GENERATOR id in
  let p_blob := GetDsaParamData authorizations KM_TAG_DSA_P id in
  let q_blob := GetDsaParamData authorizations KM_TAG_DSA_Q id in
  let '(key_size, authorizations) :=
    match GetTagValue KM_TAG_KEY_SIZE authorizations with
    | Some key_size => (key_size, authorizations)
    | None =>
      (DSA_DEFAULT_KEY_SIZE,
       push_back authorizations (Authorization KM_TAG_KEY_SIZE DSA_DEFAULT_KEY_SIZE))
    end in
  if negb (DSA_new_ok ssl) || negb (EVP_PKEY_new_ok ssl)
  then inl KM_ERROR_MEMORY_ALLOCATION_FAILED
  else
    (* If anything goes wrong in the next section, it's a param problem. *)
    chosen <-
      (if is_NULL g_blob && is_NULL p_blob && is_NULL q_blob then
         match DSA_generate_parameters_ex ssl key_size with
         | None => inl KM_ERROR_INVALID_DSA_PARAMS
         | Some generated =>
           let authorizations :=
             SetDsaParamData ssl authorizations KM_TAG_DSA_GENERATOR id (dsa_g generated) in
           let authorizations :=
             SetDsaParamData ssl authorizations KM_TAG_DSA_P id (dsa_p generated) in
           let authorizations :=
             SetDsaParamData ssl authorizations KM_TAG_DSA_Q id (dsa_q generated) in
           inr (generated, authorizations)
         end
       else if is_NULL g_blob || is_NULL p_blob || is_NULL q_blob then
         (* Some DSA parameters provided.  Provide all or none *)
         inl KM_ERROR_INVALID_DSA_PARAMS
       else
         (* All params provided. Use them. *)
         match g_blob ≫= BN_bin2bn ssl, p_blob ≫= BN_bin2bn ssl,
               q_blob ≫= BN_bin2bn ssl with
         | Some g, Some p, Some q =>
           inr ({| dsa_g := g; dsa_p := p; dsa_q := q |}, authorizations)
         | _, _, _ => inl KM_ERROR_INVALID_DSA_PARAMS
         end) ;;
    let '(dsa_params, authorizations) := chosen in
    match DSA_generate_key ssl dsa_params with
    | None => inl KM_ERROR_UNKNOWN_ERROR
    | Some (priv, pub) =>
      if new_DsaKey_ok ssl
      then inr {| dsa_key_ := {| params := dsa_params; priv_key := priv; pub_key := pub |};
                  authorizations := authorizations |}
      else inl KM_ERROR_MEMORY_ALLOCATION_FAILED
    end.

(** A library for concrete runs: every call succeeds, the generated domain
    is (g, p, q) = (4, 23, 11), the key pair is (3, 18), and a number below
    256 is encoded as one byte. *)
Definition ideal : OpenSSL := {|
  DSA_new_ok := true;
  EVP_PKEY_new_ok := true;
  DSA_generate_parameters_ex := fun _ => Some {| dsa_g := 4; dsa_p := 23; dsa_q := 11 |};
  BN_bin2bn_ok := fun _ => true;
  DSA_generate_key := fun _ => Some (3, 18);
  convert_bn_to_blob := fun number =>
    match Byte.of_N (Z.to_N number) with Some b => [b] | None => [] end;
  new_DsaKey_ok := true
|}.

End DsaKey.

(** ** hmac_operation.cpp *)

Module Hmac.

Inductive EVP_MD : Type :=
| EVP_sha1 | EVP_sha224 | EVP_sha256 | EVP_sha384 | EVP_sha512.

(** Output length of the digest, in bytes. *)
Definition EVP_MD_size (md : EVP_MD) : Z :=
  match md with
  | EVP_sha1 => 20
  | EVP_sha224 => 28
  | EVP_sha256 => 32
  | EVP_sha384 => 48
  | EVP_sha512 => 64
  end.

(** [HMAC_CTX]: the digest and key given to [HMAC_Init_ex] and the input
    fed so far. *)
Record HMAC_CTX : Type := {
  ctx_md : EVP_MD;
  ctx_key : list byte;
  ctx_data : list byte
}.

(** Answers of the library: the HMAC function itself, whether an update
    succeeds, whether [new] and [Buffer::reserve] find memory, and the
    translation of the pending OpenSSL error. *)
Record OpenSSL : Type := {
  HMAC_Final : HMAC_CTX -> option (list byte);
  HMAC_Update_ok : HMAC_CTX -> list byte -> bool;
  new_HmacOperation_ok : bool;
  reserve_ok : bool;
  TranslateLastOpenSslError : keymaster_error_t
}.

Record SymmetricKey : Type := {
  authorizations : AuthorizationSet;
  key_data : list byte
}.

Record HmacOperation : Type := {
  purpose : keymaster_purpose_t;
  error_ : keymaster_error_t;
  tag_length_ : Z;
  ctx_ : option HMAC_CTX      (* [None]: initialised, no key set *)
}.

(** The [switch (digest)] of the constructor: the [EVP_MD] chosen, [nullptr]
    for the digests it does not list. *)
Definition digest_md (digest : keymaster_digest_t) : option EVP_MD :=
  match digest with
  | KM_DIGEST_NONE | KM_DIGEST_MD5 => None
  | KM_DIGEST_SHA1 => Some EVP_sha1
  | KM_DIGEST_SHA_2_224 => Some EVP_sha224
  | KM_DIGEST_SHA_2_256 => Some EVP_sha256
  | KM_DIGEST_SHA_2_384 => Some EVP_sha384
  | KM_DIGEST_SHA_2_512 => Some EVP_sha512
  | KM_DIGEST_other _ => None
  end.

(** [HmacOperation::HmacOperation(purpose, key_data, key_data_size, digest,
    tag_length)] *)
Definition HmacOperation_new (purpose : keymaster_purpose_t) (key_data : list byte)
    (digest : keymaster_digest_t) (tag_length : Z) : HmacOperation :=
  match digest_md digest with
  | None =>
    {| purpose := purpose; error_ := KM_ERROR_UNSUPPORTED_DIGEST;
       tag_length_ := tag_length; ctx_ := None |}
  | Some md =>
    {| purpose := purpose; error_ := KM_ERROR_OK; tag_length_ := tag_length;
       ctx_ := Some {| ctx_md := md; ctx_key := key_data; ctx_data := [] |} |}
  end.

(** [HmacOperationFactory::CreateOperation(key, begin_params, error)];
    [purpose] is the factory's [purpose()]. *)
Definition CreateOperation (ssl : OpenSSL) (purpose : keymaster_purpose_t)
    (key : SymmetricKey) (begin_params : AuthorizationSet) : result HmacOperation :=
  let tag_length := default 0 (GetTagValue KM_TAG_MAC_LENGTH begin_params) in
  if negb (tag_length mod 8 =? 0) then inl KM_ERROR_UNSUPPORTED_MAC_LENGTH
  else
    let digest := default KM_DIGEST_NONE (GetTagValue KM_TAG_DIGEST (authorizations key)) in
    let op := HmacOperation_new purpose (key_data key) digest (tag_length / 8) in
    let error :=
      if new_HmacOperation_ok ssl then error_ op else KM_ERROR_MEMORY_ALLOCATION_FAILED in
    if negb (is_ok error) then inl error else inr op.

(** [HmacOperation::Begin] *)
Definition Begin (op : HmacOperation) : keymaster_error_t := error_ op.

(** [HmacOperation::Update]: the error, the operation, [*input_consumed]. *)
Definition Update (ssl : OpenSSL) (op : HmacOperation) (input : list byte)
  : keymaster_error_t * HmacOperation * option Z :=
  match ctx_ op with
  | None => (TranslateLastOpenSslError ssl, op, None)
  | Some ctx =>
    if negb (HMAC_Update_ok ssl ctx input)
    then (TranslateLastOpenSslError ssl, op, None)
    else
      let ctx := {| ctx_md := ctx_md ctx; ctx_key := ctx_key ctx;
                    ctx_data := ctx_data ctx ++ input |} in
      (KM_ERROR_OK,
       {| purpose := purpose op; error_ := error_ op;
          tag_length_ := tag_length_ op; ctx_ := Some ctx |},
       Some (Z.of_nat (length input)))
  end.

(** [CRYPTO_memcmp(a, b, len)] on the first [len] bytes. *)
Definition CRYPTO_memcmp (a b : list byte) (len : nat) : bool :=
  negb (bool_decide (take len a = take len b)).

(** [HmacOperation::Finish(additional_params, signature, output)]: the error
    and the bytes written to [output]. *)
Definition Finish (ssl : OpenSSL) (op : HmacOperation) (signature : list byte)
  : keymaster_error_t * list byte :=
  match ctx_ op ≫= HMAC_Final ssl with
  | None => (TranslateLastOpenSslError ssl, [])
  | Some digest =>
    let digest_len := Z.of_nat (length digest) in
    match purpose op with
    | KM_PURPOSE_SIGN =>
      if tag_length_ op >? digest_len then (KM_ERROR_UNSUPPORTED_MAC_LENGTH, [])
      else if negb (reserve_ok ssl) then (KM_ERROR_MEMORY_ALLOCATION_FAILED, [])
      else (KM_ERROR_OK, take (Z.to_nat (tag_length_ op)) digest)
    | KM_PURPOSE_VERIFY =>
      if Z.of_nat (length signature) >? digest_len
      then (KM_ERROR_INVALID_INPUT_LENGTH, [])
      else if CRYPTO_memcmp signature digest (length signature)
      then (KM_ERROR_VERIFICATION_FAILED, [])
      else (KM_ERROR_OK, [])
    | _ => (KM_ERROR_UNSUPPORTED_PURPOSE, [])
    end
  end.

(** The two steps of [GoogleKeymaster::BeginOperation] that involve the
    operation: [factory->CreateOperation] and then [operation->Begin]. *)
Definition BeginOperation (ssl : OpenSSL) (purpose : keymaster_purpose_t)
    (key : SymmetricKey) (begin_params : AuthorizationSet) : result HmacOperation :=
  operation <- CreateOperation ssl purpose key begin_params ;;
  let error := Begin operation in
  if negb (is_ok error) then inl error else inr operation.

(** A library for concrete runs: every call succeeds and the MAC is a block
    of zero bytes of the digest's length. *)
Definition ideal : OpenSSL := {|
  HMAC_Final := fun ctx =>
    Some (replicate (Z.to_nat (EVP_MD_size (ctx_md ctx))) "000"%byte);
  HMAC_Update_ok := fun _ _ => true;
  new_HmacOperation_ok := true;
  reserve_ok := true;
  TranslateLastOpenSslError := KM_ERROR_UNKNOWN_ERROR
|}.

(** A 128-bit HMAC-SHA256 key, as [HmacKey(128, KM_DIGEST_SHA_2_256, _)] of
    the tests. *)
Definition hmac_sha256_key : SymmetricKey := {|
  authorizations :=
    [Authorization KM_TAG_ALGORITHM KM_ALGORITHM_HMAC;
     Authorization KM_TAG_KEY_SIZE 128;
     Authorization KM_TAG_DIGEST KM_DIGEST_SHA_2_256];
  key_data := replicate 16 "000"%byte
|}.

End Hmac.

(** ** google_keymaster.cpp and android_softkeymaster.h *)

Module GoogleKeymaster.

(** The abstract [Key]: its authorizations and what the virtual
    [key_material] hands back. *)
Record Key : Type := {
  authorizations : AuthorizationSet;
  key_material : result (list byte)
}.

(** One entry of [KeyFactoryRegistry]. *)
Record KeyFactory : Type := {
  factory_GenerateKey : AuthorizationSet -> result Key;
  factory_ImportKey : AuthorizationSet -> Z -> list byte -> result Key
}.

(** Modelled from the spec: [KeyBlob::NONCE_LENGTH] (key_blob.h is not among
    the sources), "nonce (12 bytes, AEAD nonce)". *)
Definition NONCE_LENGTH : nat := 12.

(** Modelled from the spec: [java_time] (google_keymaster_utils.h is not among
    the sources), "CREATION_DATETIME (Unix millis)". *)
Definition java_time (time : Z) : Z := time * 1000.

(** The pure-virtual members of the class.  [Rand] is the state of the random
    number generator, which an implementation of [GenerateNonce] may use;
    [GenerateNonce rand nonce length] fills the first [length] bytes of the
    buffer [nonce]. *)
Record Implementation (Rand : Type) : Type := {
  is_enforced : keymaster_tag_t -> bool;
  origin : keymaster_key_origin_t;
  RootOfTrustTag : keymaster_key_param_t;
  MasterKey : list byte;
  GenerateNonce : Rand -> list byte -> nat -> list byte * Rand
}.
Arguments is_enforced {Rand}.
Arguments origin {Rand}.
Arguments RootOfTrustTag {Rand}.
Arguments MasterKey {Rand}.
Arguments GenerateNonce {Rand}.

(** [class AndroidSoftKeymaster]. *)
Module AndroidSoftKeymaster.

Definition root_of_trust : keymaster_key_param_t :=
  Authorization KM_TAG_ROOT_OF_TRUST ["S"%byte; "W"%byte].

Definition master_key_ : list byte := replicate 16 "000"%byte.

(** [for (size_t i = 0; i < length; ++i) nonce[i] = 0;] with [todo] the
    iterations that remain.  The caller passes a buffer of at least [length]
    bytes. *)
Fixpoint GenerateNonce_loop (nonce : list byte) (i todo : nat) : list byte :=
  match todo with
  | O => nonce
  | S todo => GenerateNonce_loop (<[i := "000"%byte]> nonce) (S i) todo
  end.

Definition GenerateNonce {Rand : Type} (rand : Rand) (nonce : list byte) (length : nat)
  : list byte * Rand :=
  (GenerateNonce_loop nonce 0 length, rand).

(** Modelled from the spec: this header does not override [origin()];
    "ORIGIN (SOFTWARE for generate, IMPORTED for import)". *)
Definition impl (Rand : Type) : Implementation Rand :=
  Build_Implementation Rand
    (fun _ => false)        (* is_enforced *)
    KM_ORIGIN_SOFTWARE      (* origin *)
    root_of_trust           (* RootOfTrustTag *)
    master_key_             (* MasterKey *)
    GenerateNonce.

End AndroidSoftKeymaster.

Definition TranslateAuthorizationSetError (err : AuthorizationSet_Error)
  : keymaster_error_t :=
  match err with
  | AuthorizationSet_OK => KM_ERROR_OK
  | ALLOCATION_FAILURE => KM_ERROR_MEMORY_ALLOCATION_FAILED
  | MALFORMED_DATA => KM_ERROR_UNKNOWN_ERROR
  end.

(** The results of the calls that fill [enforced] and [unenforced]. *)
Record GenerateKeyResponse : Type := {
  error : keymaster_error_t;
  key_blob : list byte;
  enforced : AuthorizationSet;
  unenforced : AuthorizationSet
}.

Section KeyBlobs.

Context {Rand : Type}.
Variable self : Implementation Rand.

(** The [UnencryptedKeyBlob] constructor followed by [Serialize]
    (unencrypted_key_blob.cpp is not among the sources): from enforced,
    unenforced and hidden sets, key material, master key and nonce to the
    error ([blob->error()], or [MEMORY_ALLOCATION_FAILED] when the blob or
    its byte array cannot be allocated) and the serialized blob. *)
Variable UnencryptedKeyBlob :
  AuthorizationSet -> AuthorizationSet -> AuthorizationSet ->
  list byte -> list byte -> list byte -> keymaster_error_t * list byte.

(** [GoogleKeymaster::AddAuthorization] *)
Definition AddAuthorization (auth : keymaster_key_param_t)
    (enforced unenforced : AuthorizationSet) : AuthorizationSet * AuthorizationSet :=
  if is_enforced self (tag auth)
  then (push_back enforced auth, unenforced)
  else (enforced, push_back unenforced auth).

(** The [for] loop of [SetAuthorizations]; an early [return] leaves the two
    sets as they are at that point. *)
Fixpoint SetAuthorizations_loop (key_description : list keymaster_key_param_t)
    (enforced unenforced : AuthorizationSet)
  : keymaster_error_t * AuthorizationSet * AuthorizationSet :=
  match key_description with
  | [] => (KM_ERROR_OK, enforced, unenforced)
  | auth :: rest =>
    match tag auth with
    (* These cannot be specified by the client. *)
    | KM_TAG_ROOT_OF_TRUST | KM_TAG_ORIGIN =>
      (KM_ERROR_INVALID_TAG, enforced, unenforced)
    (* These don't work. *)
    | KM_TAG_ROLLBACK_RESISTANT =>
      (KM_ERROR_UNSUPPORTED_TAG, enforced, unenforced)
    (* These are hidden. *)
    | KM_TAG_APPLICATION_ID | KM_TAG_APPLICATION_DATA =>
      SetAuthorizations_loop rest enforced unenforced
    (* Everything else we just copy into the appropriate set. *)
    | _ =>
      let '(enforced, unenforced) := AddAuthorization auth enforced unenforced in
      SetAuthorizations_loop rest enforced unenforced
    end
  end.

(** [GoogleKeymaster::SetAuthorizations]; [now] is what [time(NULL)]
    answers. *)
Definition SetAuthorizations (key_description : AuthorizationSet)
    (origin : keymaster_key_origin_t) (now : Z)
  : keymaster_error_t * AuthorizationSet * AuthorizationSet :=
  let '(error, enforced, unenforced) :=
    SetAuthorizations_loop key_description [] [] in
  if negb (is_ok error) then (error, enforced, unenforced)   (* early return *)
  else
    let '(enforced, unenforced) :=
      AddAuthorization (Authorization KM_TAG_CREATION_DATETIME (java_time now))
        enforced unenforced in
    let '(enforced, unenforced) :=
      AddAuthorization (Authorization KM_TAG_ORIGIN origin) enforced unenforced in
    match is_valid enforced with
    | AuthorizationSet_OK =>
      (TranslateAuthorizationSetError (is_valid unenforced), enforced, unenforced)
    | invalid => (TranslateAuthorizationSetError invalid, enforced, unenforced)
    end.

(** [GoogleKeymaster::BuildHiddenAuthorizations] *)
Definition BuildHiddenAuthorizations (input_set hidden : AuthorizationSet)
  : keymaster_error_t * AuthorizationSet :=
  let hidden :=
    match GetTagValue KM_TAG_APPLICATION_ID input_set with
    | Some entry => push_back hidden (Authorization KM_TAG_APPLICATION_ID entry)
    | None => hidden
    end in
  let hidden :=
    match GetTagValue KM_TAG_APPLICATION_DATA input_set with
    | Some entry => push_back hidden (Authorization KM_TAG_APPLICATION_DATA entry)
    | None => hidden
    end in
  let hidden := push_back hidden (RootOfTrustTag self) in
  (TranslateAuthorizationSetError (is_valid hidden), hidden).

(** [GoogleKeymaster::SerializeKey].  [nonce] is the local array
    [uint8_t nonce[KeyBlob::NONCE_LENGTH]] with whatever it holds before
    [GenerateNonce] fills it. *)
Definition SerializeKey (key : Key) (origin : keymaster_key_origin_t) (now : Z)
    (nonce : list byte) (rand : Rand) : GenerateKeyResponse * Rand :=
  let '(error, enforced, unenforced) :=
    SetAuthorizations (authorizations key) origin now in
  let failed error :=
    ({| error := error; key_blob := []; enforced := enforced;
        unenforced := unenforced |}, rand) in
  if negb (is_ok error) then failed error
  else
    let '(error, hidden_auths) := BuildHiddenAuthorizations (authorizations key) [] in
    if negb (is_ok error) then failed error
    else
      match key_material key with
      | inl error => failed error
      | inr key_material =>
        let '(nonce, rand) := GenerateNonce self rand nonce NONCE_LENGTH in
        let master_key := MasterKey self in
        let '(blob_error, blob_bytes) :=
          UnencryptedKeyBlob enforced unenforced hidden_auths key_material
            master_key nonce in
        if negb (is_ok blob_error)
        then ({| error := blob_error; key_blob := []; enforced := enforced;
                 unenforced := unenforced |}, rand)
        else ({| error := KM_ERROR_OK; key_blob := blob_bytes;
                 enforced := enforced; unenforced := unenforced |}, rand)
      end.

Variable KeyFactoryRegistry_Get : keymaster_algorithm_t -> option KeyFactory.

(** The response of a call that returns before [SerializeKey]: the error,
    and the blob and the two sets as the constructor of the response built
    them, which the call has not touched. *)
Definition no_key (error : keymaster_error_t) : GenerateKeyResponse :=
  {| error := error; key_blob := []; enforced := []; unenforced := [] |}.

(** [GoogleKeymaster::GenerateKey(request, response)] *)
Definition GenerateKey (key_description : AuthorizationSet) (now : Z)
    (nonce : list byte) (rand : Rand) : GenerateKeyResponse * Rand :=
  match GetTagValue KM_TAG_ALGORITHM key_description ≫= KeyFactoryRegistry_Get with
  | None => (no_key KM_ERROR_UNSUPPORTED_ALGORITHM, rand)
  | Some factory =>
    match factory_GenerateKey factory key_description with
    | inl error => (no_key error, rand)
    | inr key => SerializeKey key (origin self) now nonce rand
    end
  end.

(** [GoogleKeymaster::ImportKey(request, response)] *)
Definition ImportKey (key_description : AuthorizationSet) (key_format : Z)
    (key_data : list byte) (now : Z) (nonce : list byte) (rand : Rand)
  : GenerateKeyResponse * Rand :=
  match GetTagValue KM_TAG_ALGORITHM key_description ≫= KeyFactoryRegistry_Get with
  | None => (no_key KM_ERROR_UNSUPPORTED_ALGORITHM, rand)
  | Some factory =>
    match factory_ImportKey factory key_description key_format key_data with
    | inl error => (no_key error, rand)
    | inr key => SerializeKey key KM_ORIGIN_IMPORTED now nonce rand
    end
  end.

End KeyBlobs.

(** The cases of the [switch] in [SetAuthorizations], as predicates on
    authorizations. *)
Definition client_forbidden (auth : keymaster_key_param_t) : bool :=
  match tag auth with
  | KM_TAG_ROOT_OF_TRUST | KM_TAG_ORIGIN => true
  | _ => false
  end.

Definition unsupported (auth : keymaster_key_param_t) : bool :=
  match tag auth with
  | KM_TAG_ROLLBACK_RESISTANT => true
  | _ => false
  end.

Definition hidden (auth : keymaster_key_param_t) : bool :=
  match tag auth with
  | KM_TAG_APPLICATION_ID | KM_TAG_APPLICATION_DATA => true
  | _ => false
  end.

(** [static KeyFactoryRegistry::Registration<EcdsaKeyFactory> registration]:
    the factory as the registry hands it out.  [i2d_PrivateKey] is the
    encoding [AsymmetricKey::key_material] obtains for the key. *)
Definition EcdsaKeyFactory_registration (ssl : Ec.OpenSSL)
    (ExtractEvpKey : Z -> list byte -> result (option Ec.EC_KEY))
    (i2d_PrivateKey : Ec.EC_KEY -> result (list byte)) : KeyFactory :=
  let as_Key (key : Ec.EcdsaKey) : Key :=
    {| authorizations := Ec.authorizations key;
       key_material := i2d_PrivateKey (Ec.ecdsa_key_ key) |} in
  {| factory_GenerateKey := fun key_description =>
       key <- EcdsaKeyFactory.GenerateKey ssl key_description ;; inr (as_Key key);
     factory_ImportKey := fun key_description key_format key_data =>
       key <- EcdsaKeyFactory.ImportKey ExtractEvpKey key_description key_format
                key_data ;;
       inr (as_Key key) |}.

(** A service for concrete runs: only ECDSA is registered, the library
    succeeds, no key file parses, the private key encodes as one byte and the
    blob is nonce followed by key material. *)
Definition test_registry (algorithm : keymaster_algorithm_t) : option KeyFactory :=
  match algorithm with
  | KM_ALGORITHM_ECDSA =>
    Some (EcdsaKeyFactory_registration Ec.ideal
            (fun _ _ => inl KM_ERROR_INVALID_KEY_BLOB)
            (fun _ => inr ["001"%byte]))
  | _ => None
  end.

Definition test_blob (enforced unenforced hidden : AuthorizationSet)
    (key_material master_key nonce : list byte) : keymaster_error_t * list byte :=
  (KM_ERROR_OK, nonce ++ key_material).

(** *** The operation table *)

(** The virtual interface of [Operation] that the table code calls.
    [Update] hands back the error, the operation after the call, the output
    bytes and [input_consumed]. *)
Class OperationClass (Operation : Type) : Type := {
  op_Update : Operation -> AuthorizationSet -> list byte ->
              keymaster_error_t * Operation * list byte * Z;
  op_Finish : Operation -> AuthorizationSet -> list byte ->
              keymaster_error_t * list byte;
  op_Abort : Operation -> keymaster_error_t
}.

(** A call either returns, or dereferences the [NULL] operation pointer of a
    table entry. *)
Inductive outcome (A : Type) : Type :=
| Returns (a : A)
| NullDeref.
Arguments Returns {A}.
Arguments NullDeref {A}.

(** [handle] read back from the eight bytes [RAND_bytes] wrote over it
    (little-endian targets). *)
Definition handle_of_bytes (bytes : list byte) : Z :=
  fold_right (fun b acc => Z.of_N (Byte.to_N b) + 256 * acc) 0 bytes.

Section Operations.

Context {Operation : Type} `{OperationClass Operation}.

(** OpenSSL's [RAND_bytes(buf, num)]: [None] when it reports failure,
    otherwise the [num] bytes written; the generator state moves on. *)
Context {Rand : Type}.
Variable RAND_bytes : Rand -> nat -> option (list byte) * Rand.

Record OpTableEntry : Type := {
  handle : Z;
  operation : option Operation
}.

(** Modelled from the spec: the default-constructed [OpTableEntry] (the class
    declaration with the table is not among the sources), "Empty slots have
    handle 0 and no operation". *)
Definition OpTableEntry_empty : OpTableEntry :=
  {| handle := 0; operation := None |}.

(** The members of the class that the operation calls read and write;
    [operation_table_size_] is the length of the table. *)
Record GoogleKeymaster : Type := {
  operation_table_ : list OpTableEntry;
  rand_ : Rand
}.

(** [GoogleKeymaster::GoogleKeymaster(operation_table_size, logger)] *)
Definition GoogleKeymaster_new (operation_table_size : nat) (rand : Rand)
  : GoogleKeymaster :=
  {| operation_table_ := replicate operation_table_size OpTableEntry_empty;
     rand_ := rand |}.

(** [GoogleKeymaster::AddOperation(operation, op_handle)], [op] owning the
    operation: the error, the
    value left in [*op_handle] (it held [op_handle] before), the new state. *)
Definition AddOperation (op : Operation) (op_handle : Z)
    (self : GoogleKeymaster) : keymaster_error_t * Z * GoogleKeymaster :=
  let '(bytes, rand) := RAND_bytes (rand_ self) 8 in
  let self := {| operation_table_ := operation_table_ self; rand_ := rand |} in
  match bytes with
  | None => (KM_ERROR_UNKNOWN_ERROR, op_handle, self)
  | Some bytes =>
    let op_handle := handle_of_bytes bytes in
    if op_handle =? 0 then
      (* Statistically this is vanishingly unlikely, which means if it ever
         happens in practice, it indicates a broken RNG. *)
      (KM_ERROR_UNKNOWN_ERROR, op_handle, self)
    else
      match list_find (fun entry => operation entry = None) (operation_table_ self) with
      | Some (i, _) =>
        (KM_ERROR_OK, op_handle,
         {| operation_table_ :=
              <[i := {| handle := op_handle; operation := Some op |}]>
                (operation_table_ self);
            rand_ := rand |})
      | None => (KM_ERROR_TOO_MANY_OPERATIONS, op_handle, self)
      end
  end.

(** [GoogleKeymaster::FindOperation(op_handle)]: the index of the entry. *)
Definition FindOperation (self : GoogleKeymaster) (op_handle : Z) : option nat :=
  if op_handle =? 0 then None
  else fst <$> list_find (fun entry => handle entry = op_handle) (operation_table_ self).

(** [GoogleKeymaster::DeleteOperation(entry)] *)
Definition DeleteOperation (self : GoogleKeymaster) (entry : nat) : GoogleKeymaster :=
  {| operation_table_ := <[entry := OpTableEntry_empty]> (operation_table_ self);
     rand_ := rand_ self |}.

Record UpdateOperationResponse : Type := {
  update_error : keymaster_error_t;
  update_output : list byte;
  input_consumed : Z
}.

Record FinishOperationResponse : Type := {
  finish_error : keymaster_error_t;
  finish_output : list byte
}.

(** [GoogleKeymaster::UpdateOperation(request, response)] *)
Definition UpdateOperation (op_handle : Z) (additional_params : AuthorizationSet)
    (input : list byte) (self : GoogleKeymaster)
  : outcome (UpdateOperationResponse * GoogleKeymaster) :=
  match FindOperation self op_handle with
  | None =>
    Returns ({| update_error := KM_ERROR_INVALID_OPERATION_HANDLE;
                update_output := []; input_consumed := 0 |}, self)
  | Some entry =>
    match operation_table_ self !! entry ≫= operation with
    | None => NullDeref
    | Some op =>
      let '(error, op, output, consumed) := op_Update op additional_params input in
      let self :=   (* [Update] has changed the operation in place *)
        {| operation_table_ :=
             alter (fun e => {| handle := handle e; operation := Some op |})
               entry (operation_table_ self);
           rand_ := rand_ self |} in
      let response :=
        {| update_error := error; update_output := output;
           input_consumed := consumed |} in
      if negb (is_ok error)
      then (* Any error invalidates the operation. *)
        Returns (response, DeleteOperation self entry)
      else Returns (response, self)
    end
  end.

(** [GoogleKeymaster::FinishOperation(request, response)] *)
Definition FinishOperation (op_handle : Z) (additional_params : AuthorizationSet)
    (signature : list byte) (self : GoogleKeymaster)
  : outcome (FinishOperationResponse * GoogleKeymaster) :=
  match FindOperation self op_handle with
  | None =>
    Returns ({| finish_error := KM_ERROR_INVALID_OPERATION_HANDLE;
                finish_output := [] |}, self)
  | Some entry =>
    match operation_table_ self !! entry ≫= operation with
    | None => NullDeref
    | Some op =>
      let '(error, output) := op_Finish op additional_params signature in
      Returns ({| finish_error := error; finish_output := output |},
               DeleteOperation self entry)
    end
  end.

(** [GoogleKeymaster::AbortOperation(op_handle)] *)
Definition AbortOperation (op_handle : Z) (self : GoogleKeymaster)
  : outcome (keymaster_error_t * GoogleKeymaster) :=
  match FindOperation self op_handle with
  | None => Returns (KM_ERROR_INVALID_OPERATION_HANDLE, self)
  | Some entry =>
    match operation_table_ self !! entry ≫= operation with
    | None => NullDeref
    | Some op =>
      let error := op_Abort op in
      let self := DeleteOperation self entry in
      if negb (is_ok error) then Returns (error, self)
      else Returns (KM_ERROR_OK, self)
    end
  end.

(** The calls a client makes on the table, and the states they lead to. *)
Inductive call : Type :=
| Call_Begin (op : Operation)       (* [BeginOperation] reaching [AddOperation] *)
| Call_Update (op_handle : Z) (additional_params : AuthorizationSet) (input : list byte)
| Call_Finish (op_handle : Z) (additional_params : AuthorizationSet) (signature : list byte)
| Call_Abort (op_handle : Z).

Definition run_call (c : call) (self : GoogleKeymaster)
  : outcome (keymaster_error_t * GoogleKeymaster) :=
  match c with
  | Call_Begin op =>
    let '(error, _, self) := AddOperation op 0 self in Returns (error, self)
  | Call_Update op_handle additional_params input =>
    match UpdateOperation op_handle additional_params input self with
    | Returns (response, self) => Returns (update_error response, self)
    | NullDeref => NullDeref
    end
  | Call_Finish op_handle additional_params signature =>
    match FinishOperation op_handle additional_params signature self with
    | Returns (response, self) => Returns (finish_error response, self)
    | NullDeref => NullDeref
    end
  | Call_Abort op_handle => AbortOperation op_handle self
  end.

Inductive reachable : GoogleKeymaster -> Prop :=
| reachable_new operation_table_size rand :
    reachable (GoogleKeymaster_new operation_table_size rand)
| reachable_call c self error self' :
    reachable self -> run_call c self = Returns (error, self') -> reachable self'.

(** Whether a call is one of Update, Finish, Abort. *)
Definition uses_handle (c : call) : bool :=
  match c with Call_Begin _ => false | _ => true end.

(** Running calls one after the other, as long as each returns. *)
Fixpoint run_calls (cs : list call) (self : GoogleKeymaster)
  : outcome GoogleKeymaster :=
  match cs with
  | [] => Returns self
  | c :: cs =>
    match run_call c self with
    | Returns (_, self) => run_calls cs self
    | NullDeref => NullDeref
    end
  end.

(** The table invariant: a slot is empty exactly when its handle is 0. *)
Definition slot_ok (entry : OpTableEntry) : Prop :=
  operation entry = None <-> handle entry = 0.

Definition table_ok (self : GoogleKeymaster) : Prop :=
  Forall slot_ok (operation_table_ self).

(** Update, Finish and Abort all answer [INVALID_OPERATION_HANDLE] for the
    handle and leave the service as it is. *)
Definition refused (op_handle : Z) (self : GoogleKeymaster) : Prop :=
  (forall additional_params input,
     UpdateOperation op_handle additional_params input self =
     Returns ({| update_error := KM_ERROR_INVALID_OPERATION_HANDLE;
                 update_output := []; input_consumed := 0 |}, self)) /\
  (forall additional_params signature,
     FinishOperation op_handle additional_params signature self =
     Returns ({| finish_error := KM_ERROR_INVALID_OPERATION_HANDLE;
                 finish_output := [] |}, self)) /\
  AbortOperation op_handle self = Returns (KM_ERROR_INVALID_OPERATION_HANDLE, self).

(** The handle the next [AddOperation] reads back from [RAND_bytes]; [None]
    when [RAND_bytes] reports failure. *)
Definition drawn_handle (self : GoogleKeymaster) : option Z :=
  handle_of_bytes <$> fst (RAND_bytes (rand_ self) 8).

(** None of the Begin calls among [cs], run one after the other from [self],
    draws the handle. *)
Fixpoint never_draws (op_handle : Z) (cs : list call) (self : GoogleKeymaster) : Prop :=
  match cs with
  | [] => True
  | c :: cs =>
    (uses_handle c = false -> drawn_handle self <> Some op_handle) /\
    match run_call c self with
    | Returns (_, self) => never_draws op_handle cs self
    | NullDeref => True
    end
  end.

(** The handle is refused now and after any further calls, Begin among
    them, as long as no Begin draws the handle again. *)
Definition released (op_handle : Z) (self : GoogleKeymaster) : Prop :=
  forall cs self',
    never_draws op_handle cs self -> run_calls cs self = Returns self' ->
    refused op_handle self'.

(** At most one slot of the table stores the handle. *)
Definition held_once (op_handle : Z) (self : GoogleKeymaster) : Prop :=
  forall i j entry_i entry_j,
    operation_table_ self !! i = Some entry_i ->
    operation_table_ self !! j = Some entry_j ->
    handle entry_i = op_handle -> handle entry_j = op_handle -> i = j.

End Operations.

(** A generator for concrete runs: a pool of bytes handed out in order;
    [RAND_bytes] fails once the pool is too short. *)
Definition pool_RAND_bytes (pool : list byte) (num : nat)
  : option (list byte) * list byte :=
  if (length pool <? num)%nat then (None, pool)
  else (Some (take num pool), drop num pool).

(** An operation type for concrete runs: an operation is the error its
    [Update] and [Finish] will report; [Abort] succeeds. *)
#[global] Instance scripted_Operation : OperationClass keymaster_error_t := {|
  op_Update := fun op _ input => (op, op, [], Z.of_nat (length input));
  op_Finish := fun op _ _ => (op, []);
  op_Abort := fun _ => KM_ERROR_OK
|}.

End GoogleKeymaster.

(** ** google_keymaster_utils.cpp: [Buffer] and [memcmp_s] *)

Module Utils.

(** The target: the width of [size_t], and what [new uint8_t[n]] hands back
    ([None] for [NULL], otherwise an array with whatever bytes it holds). *)
Record Platform : Type := {
  size_bits : Z;
  new_array : Z -> option (list byte)
}.

(** Unsigned [size_t] arithmetic wraps. *)
Definition size_t_wrap (p : Platform) (z : Z) : Z := z mod 2 ^ size_bits p.

(** [memcpy(dest + offset, src, n)] and the read [memcpy(_, src + offset, n)];
    [None] when the copy leaves the array. *)
Definition memcpy_to (dest : list byte) (offset : Z) (src : list byte)
  : option (list byte) :=
  if (0 <=? offset) && (offset + Z.of_nat (length src) <=? Z.of_nat (length dest))
  then Some (take (Z.to_nat offset) dest ++ src ++
             drop (Z.to_nat offset + length src) dest)
  else None.

Definition memcpy_from (src : list byte) (offset n : Z) : option (list byte) :=
  if (0 <=? offset) && (0 <=? n) && (offset + n <=? Z.of_nat (length src))
  then Some (take (Z.to_nat n) (drop (Z.to_nat offset) src))
  else None.

(** [class Buffer]: the array [buffer_] and the three [size_t] members. *)
Record Buffer : Type := {
  buffer_ : list byte;
  buffer_size_ : Z;
  read_position_ : Z;
  write_position_ : Z
}.

(** [Buffer::available_write] *)
Definition available_write (p : Platform) (b : Buffer) : Z :=
  size_t_wrap p (buffer_size_ b - write_position_ b).

(** [Buffer::available_read] *)
Definition available_read (p : Platform) (b : Buffer) : Z :=
  size_t_wrap p (write_position_ b - read_position_ b).

(** [Buffer::reserve(size)]: the value returned and the buffer afterwards;
    [None] when a [memcpy] leaves its array. *)
Definition reserve (p : Platform) (b : Buffer) (size : Z) : option (bool * Buffer) :=
  if available_write p b <? size then
    let new_size := size_t_wrap p (buffer_size_ b + size - available_write p b) in
    match new_array p new_size with
    | None => Some (false, b)
    | Some new_buffer =>
      unread ← memcpy_from (buffer_ b) (read_position_ b) (available_read p b);
      new_buffer ← memcpy_to new_buffer 0 unread;
      Some (true,
            {| buffer_ := new_buffer;
               buffer_size_ := new_size;
               read_position_ := 0;
               write_position_ :=
                 size_t_wrap p (write_position_ b - read_position_ b) |})
    end
  else Some (true, b).

(** [Buffer::Reinitialize(size)]; on failure [buffer_] is [NULL] and the
    other members keep their values. *)
Definition Reinitialize (p : Platform) (b : Buffer) (size : Z) : bool * Buffer :=
  match new_array p size with
  | None =>
    (false, {| buffer_ := []; buffer_size_ := buffer_size_ b;
               read_position_ := read_position_ b;
               write_position_ := write_position_ b |})
  | Some new_buffer =>
    (true, {| buffer_ := new_buffer; buffer_size_ := size;
              read_position_ := 0; write_position_ := 0 |})
  end.

(** [Buffer::Reinitialize(data, data_len)] *)
Definition Reinitialize_data (p : Platform) (b : Buffer) (data : list byte)
    (data_len : Z) : option (bool * Buffer) :=
  match new_array p data_len with
  | None =>
    Some (false, {| buffer_ := []; buffer_size_ := buffer_size_ b;
                    read_position_ := read_position_ b;
                    write_position_ := write_position_ b |})
  | Some new_buffer =>
    copied ← memcpy_from data 0 data_len;
    new_buffer ← memcpy_to new_buffer 0 copied;
    Some (true, {| buffer_ := new_buffer; buffer_size_ := data_len;
                   read_position_ := 0; write_position_ := data_len |})
  end.

(** [Buffer::write(src, write_length)] *)
Definition write (p : Platform) (b : Buffer) (src : list byte) (write_length : Z)
  : option (bool * Buffer) :=
  if available_write p b <? write_length then Some (false, b)
  else
    copied ← memcpy_from src 0 write_length;
    buffer ← memcpy_to (buffer_ b) (write_position_ b) copied;
    Some (true,
          {| buffer_ := buffer; buffer_size_ := buffer_size_ b;
             read_position_ := read_position_ b;
             write_position_ := size_t_wrap p (write_position_ b + write_length) |}).

(** [Buffer::read(dest, read_length)]: the value returned, the bytes copied
    to [dest], the buffer afterwards. *)
Definition read (p : Platform) (b : Buffer) (read_length : Z)
  : option (bool * list byte * Buffer) :=
  if available_read p b <? read_length then Some (false, [], b)
  else
    copied ← memcpy_from (buffer_ b) (read_position_ b) read_length;
    Some (true, copied,
          {| buffer_ := buffer_ b; buffer_size_ := buffer_size_ b;
             read_position_ := size_t_wrap p (read_position_ b + read_length);
             write_position_ := write_position_ b |}).

(** [Buffer::SerializedSize] *)
Definition SerializedSize (p : Platform) (b : Buffer) : Z :=
  size_t_wrap p (4 + available_read p b).

(** What [peek_read()] points at: the [available_read()] bytes not read
    yet. *)
Definition unread (p : Platform) (b : Buffer) : list byte :=
  take (Z.to_nat (available_read p b)) (drop (Z.to_nat (read_position_ b)) (buffer_ b)).

(** The class invariant: the members describe the array and the cursors are
    in order. *)
Definition Buffer_ok (p : Platform) (b : Buffer) : Prop :=
  Z.of_nat (length (buffer_ b)) = buffer_size_ b /\
  0 <= read_position_ b <= write_position_ b /\
  write_position_ b <= buffer_size_ b /\
  buffer_size_ b < 2 ^ size_bits p.

(** [new] hands back arrays of the size asked for. *)
Definition Platform_ok (p : Platform) : Prop :=
  0 < size_bits p /\
  forall n array, new_array p n = Some array -> Z.of_nat (length array) = n.

(** A 64-bit target whose fresh arrays hold the byte 0xAA. *)
Definition test_platform : Platform := {|
  size_bits := 64;
  new_array := fun n => if 0 <=? n then Some (replicate (Z.to_nat n) "170"%byte) else None
|}.

(** A four-byte buffer with one unread byte and room for two more, and the
    buffer [reserve(3)] makes of it on [test_platform]. *)
Definition test_buffer : Buffer := {|
  buffer_ := ["010"%byte; "011"%byte; "012"%byte; "013"%byte];
  buffer_size_ := 4;
  read_position_ := 1;
  write_position_ := 2
|}.

Definition test_buffer_grown : Buffer := {|
  buffer_ := ["011"%byte; "170"%byte; "170"%byte; "170"%byte; "170"%byte];
  buffer_size_ := 5;
  read_position_ := 0;
  write_position_ := 1
|}.

(** The value of a byte as the [uint8_t] the loop computes with. *)
Definition byte_value (b : byte) : Z := Z.of_N (Byte.to_N b).

(** The [while (length-- > 0)] loop of [memcmp_s]: [result] after it, or
    [None] when it reads past one of the two arrays. *)
Fixpoint memcmp_s_loop (s1 s2 : list byte) (length : nat) (result : Z) {struct length}
  : option Z :=
  match length with
  | O => Some result
  | S length =>
    match s1, s2 with
    | b1 :: s1, b2 :: s2 =>
      memcmp_s_loop s1 s2 length
        (Z.lor result (Z.lxor (byte_value b1) (byte_value b2)) mod 2 ^ 8)
    | _, _ => None
    end
  end.

(** [memcmp_s(p1, p2, length)] *)
Definition memcmp_s (p1 p2 : list byte) (length : nat) : option Z :=
  result ← memcmp_s_loop p1 p2 length 0;
  Some (if result =? 0 then 0 else 1).

End Utils.

(** ** rsa_key.cpp (and the identical text in asymmetric_key.cpp):
    [RsaKey::GenerateKey] *)

Module RsaGenerate.
Import RsaKey.

Definition RSA_DEFAULT_KEY_SIZE : Z := 2048.
Definition RSA_DEFAULT_EXPONENT : Z := 65537.

(** Answers of the library during one [GenerateKey] call:
    [RSA_generate_key_ex bits e] is the key generated for a modulus of
    [bits] bits and the exponent [e], [None] when the call answers 0. *)
Record Library : Type := {
  BN_new_ok : bool;
  RSA_new_ok : bool;
  EVP_PKEY_new_ok : bool;
  RSA_generate_key_ex : Z -> Z -> option RSA;
  new_RsaKey_ok : bool
}.

(** [RsaKey::GenerateKey(key_description, logger, error)].  The result of
    [BN_new()] is not tested: [BN_set_word] dereferences it. *)
Definition GenerateKey (ssl : OpenSSL) (lib : Library) (key_description : AuthorizationSet)
  : GoogleKeymaster.outcome (result RsaKey) :=
  let authorizations := key_description in
  let '(public_exponent, authorizations) :=
    match GetTagValue KM_TAG_RSA_PUBLIC_EXPONENT authorizations with
    | Some public_exponent => (public_exponent, authorizations)
    | None =>
      (RSA_DEFAULT_EXPONENT,
       push_back authorizations
         (Authorization KM_TAG_RSA_PUBLIC_EXPONENT RSA_DEFAULT_EXPONENT))
    end in
  let '(key_size, authorizations) :=
    match GetTagValue KM_TAG_KEY_SIZE authorizations with
    | Some key_size => (key_size, authorizations)
    | None =>
      (RSA_DEFAULT_KEY_SIZE,
       push_back authorizations (Authorization KM_TAG_KEY_SIZE RSA_DEFAULT_KEY_SIZE))
    end in
  if negb (RSA_new_ok lib) || negb (EVP_PKEY_new_ok lib)
  then GoogleKeymaster.Returns (inl KM_ERROR_MEMORY_ALLOCATION_FAILED)
  else if negb (BN_new_ok lib) then GoogleKeymaster.NullDeref
  else if negb (BN_set_word_ok ssl)
  then GoogleKeymaster.Returns (inl KM_ERROR_UNKNOWN_ERROR)
  else
    match RSA_generate_key_ex lib (to_int32 key_size) (BN_set_word ssl public_exponent) with
    | None => GoogleKeymaster.Returns (inl KM_ERROR_UNKNOWN_ERROR)
    | Some rsa_key =>
      if new_RsaKey_ok lib
      then GoogleKeymaster.Returns
             (inr {| rsa_key_ := rsa_key; authorizations := authorizations |})
      else GoogleKeymaster.Returns (inl KM_ERROR_MEMORY_ALLOCATION_FAILED)
    end.

(** A library for concrete runs: every call succeeds and the modulus has its
    top and bottom bits set. *)
Definition ideal : Library := {|
  BN_new_ok := true;
  RSA_new_ok := true;
  EVP_PKEY_new_ok := true;
  RSA_generate_key_ex := fun bits e =>
    if 2 <=? bits then Some {| rsa_n := 2 ^ (bits - 1) + 1; rsa_e := e |} else None;
  new_RsaKey_ok := true
|}.

Definition ssl64 : OpenSSL := {| BN_BITS2 := 64; BN_set_word_ok := true |}.

End RsaGenerate.

(** ** hmac_operation.cpp: the digests the factory advertises *)

Module HmacOperationFactory.

(** [static keymaster_digest_t supported_digests[]], which
    [HmacOperationFactory::SupportedDigests] hands out. *)
Definition supported_digests : list keymaster_digest_t :=
  [KM_DIGEST_SHA1; KM_DIGEST_SHA_2_224; KM_DIGEST_SHA_2_256; KM_DIGEST_SHA_2_384;
   KM_DIGEST_SHA_2_512].

Definition SupportedDigests : list keymaster_digest_t * Z :=
  (supported_digests, Z.of_nat (length supported_digests)).

(** [HmacOperation::Update] called once for each chunk of a message, as long
    as no call fails. *)
Fixpoint Update_all (ssl : Hmac.OpenSSL) (op : Hmac.HmacOperation)
    (chunks : list (list byte)) : keymaster_error_t * Hmac.HmacOperation :=
  match chunks with
  | [] => (KM_ERROR_OK, op)
  | input :: chunks =>
    let '(error, op, _) := Hmac.Update ssl op input in
    if negb (is_ok error) then (error, op) else Update_all ssl op chunks
  end.

End HmacOperationFactory.

(** ** key.cpp and google_keymaster.cpp: loading a key, beginning an
    operation *)

Module KeymasterCalls.
Import GoogleKeymaster.

(** Modelled from the spec: [AuthorizationSet::push_back] of a whole set
    (authorization_set.cpp is not among the sources), "Append (honors the
    ordering the client supplies; later writes do not replace earlier
    ones)". *)
Definition push_back_set (set other : AuthorizationSet) : AuthorizationSet :=
  set ++ other.

(** What the callers read of an [UnencryptedKeyBlob] after it has been
    unsealed. *)
Record UnencryptedKeyBlob : Type := {
  blob_error : keymaster_error_t;
  blob_algorithm : keymaster_algorithm_t;
  blob_enforced : AuthorizationSet;
  blob_unenforced : AuthorizationSet;
  blob_key_material : list byte
}.

(** [Key::Key(const KeyBlob& blob, const Logger& logger)]: the
    [authorizations_] of the new key. *)
Definition Key_new (blob : UnencryptedKeyBlob) : AuthorizationSet :=
  let authorizations_ := [] in
  let authorizations_ := push_back_set authorizations_ (blob_unenforced blob) in
  let authorizations_ := push_back_set authorizations_ (blob_enforced blob) in
  authorizations_.

(** An implementation for concrete runs, which enforces the algorithm and
    the key size and otherwise does what [AndroidSoftKeymaster] does. *)
Definition enforcing_keymaster (Rand : Type) : Implementation Rand :=
  Build_Implementation Rand
    (fun tag =>
       match tag with
       | KM_TAG_ALGORITHM | KM_TAG_KEY_SIZE => true
       | _ => false
       end)
    KM_ORIGIN_HARDWARE
    AndroidSoftKeymaster.root_of_trust
    AndroidSoftKeymaster.master_key_
    AndroidSoftKeymaster.GenerateNonce.

Record BeginOperationResponse : Type := {
  begin_error : keymaster_error_t;
  op_handle : Z;
  output_params : AuthorizationSet
}.

Section Loading.

Context {Rand : Type}.
Variable self : Implementation Rand.

(** The constructor [UnencryptedKeyBlob(key, hidden, master_key,
    master_key_size)] (unencrypted_key_blob.cpp is not among the sources):
    [None] when [new] hands back [NULL]. *)
Variable UnencryptedKeyBlob_load :
  list byte -> AuthorizationSet -> list byte -> option UnencryptedKeyBlob.

(** [KeyFactoryRegistry::Get(algorithm)] followed by the factory's
    [LoadKey(blob, logger, error)]: the value left in [*error] and the key
    handed back, for a key type [K]. *)
Context {K : Type}.
Variable KeyFactory_LoadKey :
  keymaster_algorithm_t -> option (UnencryptedKeyBlob -> keymaster_error_t * option K).

(** [GoogleKeymaster::LoadKeyBlob(key, client_params, error)] *)
Definition LoadKeyBlob (key : list byte) (client_params : AuthorizationSet)
  : result UnencryptedKeyBlob :=
  let '(_, hidden) := BuildHiddenAuthorizations self client_params [] in
  let master_key := MasterKey self in
  match UnencryptedKeyBlob_load key hidden master_key with
  | None => inl KM_ERROR_MEMORY_ALLOCATION_FAILED
  | Some blob =>
    if negb (is_ok (blob_error blob)) then inl (blob_error blob)
    else inr blob
  end.

(** [GoogleKeymaster::LoadKey(key, client_params, algorithm, error)]: the
    value left in [*error], and the key with [*algorithm]. *)
Definition LoadKey (key : list byte) (client_params : AuthorizationSet)
  : keymaster_error_t * option (K * keymaster_algorithm_t) :=
  match LoadKeyBlob key client_params with
  | inl error => (error, None)
  | inr blob =>
    let algorithm := blob_algorithm blob in
    match KeyFactory_LoadKey algorithm with
    | Some factory_LoadKey =>
      let '(error, key) := factory_LoadKey blob in
      (error, (fun key => (key, algorithm)) <$> key)
    | None => (KM_ERROR_UNSUPPORTED_ALGORITHM, None)
    end
  end.

(** [GoogleKeymaster::GetKeyCharacteristics(request, response)]: the error
    and the two sets of the response, which are [enforced] and [unenforced]
    before the call. *)
Definition GetKeyCharacteristics (key_blob : list byte)
    (additional_params enforced unenforced : AuthorizationSet)
  : keymaster_error_t * AuthorizationSet * AuthorizationSet :=
  match LoadKeyBlob key_blob additional_params with
  | inl error => (error, enforced, unenforced)
  | inr blob => (KM_ERROR_OK, blob_enforced blob, blob_unenforced blob)
  end.

Context {Operation : Type} `{OperationClass Operation}.
Variable RAND_bytes : Rand -> nat -> option (list byte) * Rand.

(** [OperationFactoryRegistry::Get(op_type)] followed by the factory's
    [CreateOperation(key, logger, error)]: from the key and the value of
    [*error] before the call to its value afterwards and the operation. *)
Variable OperationFactoryRegistry_Get :
  keymaster_algorithm_t -> keymaster_purpose_t ->
  option (K -> keymaster_error_t -> keymaster_error_t * option Operation).

(** The virtual [Operation::Begin(input_params, output_params)]: the error,
    the operation after the call and the output parameters. *)
Variable op_Begin :
  Operation -> AuthorizationSet -> keymaster_error_t * Operation * AuthorizationSet.

(** [GoogleKeymaster::BeginOperation(request, response)]; [response] is the
    response object as the caller built it. *)
Definition BeginOperation (key_blob : list byte) (purpose : keymaster_purpose_t)
    (additional_params : AuthorizationSet) (response : BeginOperationResponse)
    (keymaster : GoogleKeymaster (Operation := Operation) (Rand := Rand))
  : BeginOperationResponse * GoogleKeymaster (Operation := Operation) (Rand := Rand) :=
  let '(error, key) := LoadKey key_blob additional_params in
  let response :=
    {| begin_error := error; op_handle := 0;
       output_params := output_params response |} in
  match key with
  | None => (response, keymaster)
  | Some (key, algorithm) =>
    match OperationFactoryRegistry_Get algorithm purpose with
    | None =>
      ({| begin_error := KM_ERROR_UNSUPPORTED_PURPOSE; op_handle := 0;
          output_params := output_params response |}, keymaster)
    | Some factory_CreateOperation =>
      let '(error, operation) := factory_CreateOperation key (begin_error response) in
      match operation with
      | None =>
        ({| begin_error := error; op_handle := 0;
            output_params := output_params response |}, keymaster)
      | Some operation =>
        let '(error, operation, output) := op_Begin operation additional_params in
        if negb (is_ok error)
        then ({| begin_error := error; op_handle := 0; output_params := output |},
              keymaster)
        else
          let '(error, handle, keymaster) :=
            AddOperation RAND_bytes operation 0 keymaster in
          ({| begin_error := error; op_handle := handle; output_params := output |},
           keymaster)
      end
    end
  end.

End Loading.

(** A service for concrete runs: every blob unseals to an HMAC key whose
    material is the blob itself, every factory is registered, an operation
    is the error its [Begin], [Update] and [Finish] report, and the random
    bytes come from a pool. *)
Definition test_UnencryptedKeyBlob_load (key : list byte) (hidden : AuthorizationSet)
    (master_key : list byte) : option UnencryptedKeyBlob :=
  Some {| blob_error := KM_ERROR_OK; blob_algorithm := KM_ALGORITHM_HMAC;
          blob_enforced := []; blob_unenforced := []; blob_key_material := key |}.

Definition test_KeyFactory_LoadKey (algorithm : keymaster_algorithm_t)
  : option (UnencryptedKeyBlob -> keymaster_error_t * option (list byte)) :=
  Some (fun blob => (KM_ERROR_OK, Some (blob_key_material blob))).

Definition test_OperationFactoryRegistry_Get (algorithm : keymaster_algorithm_t)
    (purpose : keymaster_purpose_t)
  : option (list byte -> keymaster_error_t -> keymaster_error_t * option keymaster_error_t) :=
  Some (fun _ _ => (KM_ERROR_OK, Some KM_ERROR_OK)).

Definition test_Begin (op : keymaster_error_t) (input_params : AuthorizationSet)
  : keymaster_error_t * keymaster_error_t * AuthorizationSet :=
  (op, op, []).

Definition test_response : BeginOperationResponse :=
  {| begin_error := KM_ERROR_UNKNOWN_ERROR; op_handle := 0; output_params := [] |}.

(** A table of two slots and a pool that holds the handle 1. *)
Definition test_keymaster
  : GoogleKeymaster (Operation := keymaster_error_t) (Rand := list byte) :=
  GoogleKeymaster_new 2
    ["001"%byte; "000"%byte; "000"%byte; "000"%byte;
     "000"%byte; "000"%byte; "000"%byte; "000"%byte].

(** [test_keymaster] after an operation has begun. *)
Definition test_keymaster_begun
  : GoogleKeymaster (Operation := keymaster_error_t) (Rand := list byte) :=
  {| operation_table_ :=
       [{| handle := 1; operation := Some KM_ERROR_OK |}; OpTableEntry_empty];
     rand_ := [] |}.

End KeymasterCalls.

(** * Properties *)

(** ** Reading an authorization set *)

Lemma eq_rect_tag_refl (t : keymaster_tag_t) (v : value_t t) (e : t = t) :
  eq_rect t value_t v t e = v.
Proof. by rewrite (proof_irrel e eq_refl). Qed.

Lemma GetTagValue_cons_eq (t : keymaster_tag_t) (v : value_t t) (set : AuthorizationSet) :
  GetTagValue t (Authorization t v :: set) = Some v.
Proof.
  simpl. destruct (decide (t = t)) as [e|]; [|done].
  by rewrite eq_rect_tag_refl.
Qed.

Lemma GetTagValue_cons_ne (t : keymaster_tag_t) (p : keymaster_key_param_t)
    (set : AuthorizationSet) :
  tag p <> t -> GetTagValue t (p :: set) = GetTagValue t set.
Proof. intros Hne. simpl. by destruct (decide (tag p = t)). Qed.

Lemma GetTagValue_app (t : keymaster_tag_t) (s1 s2 : AuthorizationSet) :
  GetTagValue t (s1 ++ s2) =
  match GetTagValue t s1 with Some v => Some v | None => GetTagValue t s2 end.
Proof.
  induction s1 as [|p s1 IH]; [done|].
  simpl. by destruct (decide (tag p = t)).
Qed.

Lemma GetTagValue_None (t : keymaster_tag_t) (set : AuthorizationSet) :
  GetTagValue t set = None <-> Forall (fun p => tag p <> t) set.
Proof.
  induction set as [|p set IH]; simpl.
  - split; [constructor|done].
  - destruct (decide (tag p = t)) as [e|n].
    + split; [done|]. intros HF. by inversion HF.
    + rewrite IH. split; [by constructor|]. intros HF. by inversion HF.
Qed.

Lemma GetTagValue_push_back_absent (t : keymaster_tag_t) (v : value_t t)
    (set : AuthorizationSet) :
  GetTagValue t set = None ->
  GetTagValue t (push_back set (Authorization t v)) = Some v.
Proof.
  intros Habs. unfold push_back. rewrite GetTagValue_app, Habs.
  apply GetTagValue_cons_eq.
Qed.

Lemma GetTagValue_push_back_other (t t' : keymaster_tag_t) (v : value_t t')
    (set : AuthorizationSet) :
  t' <> t ->
  GetTagValue t (push_back set (Authorization t' v)) = GetTagValue t set.
Proof.
  intros Hne. unfold push_back. rewrite GetTagValue_app.
  destruct (GetTagValue t set); [done|]. by rewrite GetTagValue_cons_ne.
Qed.

Lemma is_ok_true (e : keymaster_error_t) : is_ok e = true <-> e = KM_ERROR_OK.
Proof. destruct e; simpl; split; congruence. Qed.

(** ** Message versions *)

(** A word assembled with shifts and [|] from three bytes is their weighted
    sum. *)
Lemma lor_shiftl_small (a b n : Z) :
  0 <= n -> 0 <= a -> 0 <= b < 2 ^ n -> Z.lor (Z.shiftl a n) b = a * 2 ^ n + b.
Proof.
  intros Hn Ha Hb.
  rewrite <- Z.shiftl_mul_pow2 by done.
  rewrite <- Z.lxor_lor, <- Z.add_nocarry_lxor; [done| |].
  all: apply Z.bits_inj'; intros k Hk; rewrite Z.land_spec, Z.bits_0,
    Z.shiftl_spec by done.
  all: destruct (Z.lt_ge_cases k n) as [Hlt|Hge];
    [ rewrite (Z.testbit_neg_r a (k - n)) by lia; done
    | rewrite andb_false_iff; right ].
  all: destruct (Z.eq_dec b 0) as [->|Hb0]; [apply Z.bits_0|].
  all: apply Z.bits_above_log2; [lia|].
  all: apply Z.lt_le_trans with n; [apply Z.log2_lt_pow2; lia | done].
Qed.

Lemma MessageVersion_composite (major_ver minor_ver subminor_ver : Z) :
  is_uint8 major_ver -> is_uint8 minor_ver -> is_uint8 subminor_ver ->
  Messages.MessageVersion major_ver minor_ver subminor_ver =
  if decide (major_ver = 0 /\ minor_ver = 0 /\ subminor_ver = 0) then 0
  else if decide (major_ver = 0 /\ minor_ver = 1 /\ subminor_ver = 0) then 1
  else -1.
Proof.
  unfold is_uint8, Messages.MessageVersion. intros Hma Hmi Hsu.
  assert (Z.lor (Z.shiftl major_ver 16) (Z.shiftl minor_ver 8)
          = major_ver * 2 ^ 16 + minor_ver * 2 ^ 8) as ->.
  { rewrite (Z.shiftl_mul_pow2 minor_ver 8) by done.
    apply lor_shiftl_small; lia. }
  replace (major_ver * 2 ^ 16 + minor_ver * 2 ^ 8)
    with (Z.shiftl (major_ver * 2 ^ 8 + minor_ver) 8)
    by (rewrite Z.shiftl_mul_pow2 by done; lia).
  rewrite lor_shiftl_small by lia.
  repeat case_decide; repeat case_match; rewrite ?Z.eqb_eq, ?Z.eqb_neq in *; lia.
Qed.

(** C2.  [MessageVersion] answers 0 for version 0.0.0, but it answers 1 for
    version 0.1.0 and -1 for version 1.0.0, the version [GetVersion]
    reports: the case label [0x100] is the composite of 0.1.0. *)
Theorem MessageVersion_current_version_unknown :
  Messages.MessageVersion 0 0 0 = 0 /\
  Messages.MessageVersion 0 1 0 = 1 /\
  Messages.MessageVersion 1 0 0 = -1 /\
  Messages.MessageVersion Messages.MAJOR_VER Messages.MINOR_VER
    Messages.SUBMINOR_VER = -1.
Proof. repeat split; reflexivity. Qed.

(** ** RSA import *)

Lemma RSA_size_rsa_1024 : RsaKey.RSA_size RsaKey.rsa_1024 = 128.
Proof. reflexivity. Qed.

Lemma BN_get_word_small (ssl : RsaKey.OpenSSL) (a : Z) :
  32 <= RsaKey.BN_BITS2 ssl -> 0 <= a < 2 ^ 32 - 1 ->
  RsaKey.BN_get_word ssl a = a.
Proof.
  intros Hbits Ha. unfold RsaKey.BN_get_word, RsaKey.BN_MASK2.
  assert (2 ^ 32 <= 2 ^ RsaKey.BN_BITS2 ssl) by (apply Z.pow_le_mono_r; lia).
  case_match; rewrite ?Z.leb_le, ?Z.leb_gt in *; lia.
Qed.

(** C1.  Importing the 1024-bit RSA key with [KEY_SIZE = 1024] in the
    description is refused with [IMPORT_PARAMETER_MISMATCH]: the tag is
    compared with [RSA_size], the modulus size in bytes.  The same key is
    accepted with [KEY_SIZE = 128], and without the tag the code itself
    appends [RSA_size * 8 = 1024]. *)
Theorem RsaKey_ImportKey_compares_bits_with_bytes (ssl : RsaKey.OpenSSL) :
  32 <= RsaKey.BN_BITS2 ssl ->
  let pkey := RsaKey.EVP_PKEY_of_RSA RsaKey.rsa_1024 in
  let algorithm := Authorization KM_TAG_ALGORITHM KM_ALGORITHM_RSA in
  RsaKey.BN_num_bits (RsaKey.rsa_n RsaKey.rsa_1024) = 1024 /\
  RsaKey.ImportKey ssl [algorithm; Authorization KM_TAG_KEY_SIZE 1024] pkey
    = inl KM_ERROR_IMPORT_PARAMETER_MISMATCH /\
  RsaKey.ImportKey ssl [algorithm; Authorization KM_TAG_KEY_SIZE 128] pkey
    = inr {| RsaKey.rsa_key_ := RsaKey.rsa_1024;
             RsaKey.authorizations :=
               [algorithm; Authorization KM_TAG_KEY_SIZE 128;
                Authorization KM_TAG_RSA_PUBLIC_EXPONENT 65537] |} /\
  RsaKey.ImportKey ssl [algorithm] pkey
    = inr {| RsaKey.rsa_key_ := RsaKey.rsa_1024;
             RsaKey.authorizations :=
               [algorithm; Authorization KM_TAG_RSA_PUBLIC_EXPONENT 65537;
                Authorization KM_TAG_KEY_SIZE 1024] |}.
Proof.
  intros Hbits pkey algorithm.
  assert (RsaKey.BN_get_word ssl 65537 = 65537) as Hword
    by (apply BN_get_word_small; lia).
  split; [reflexivity|].
  unfold RsaKey.ImportKey; simpl. rewrite Hword. simpl.
  repeat split; reflexivity.
Qed.

Lemma RsaKey_ImportKey_compares_bits_with_bytes_witness :
  let ssl := {| RsaKey.BN_BITS2 := 64; RsaKey.BN_set_word_ok := true |} in
  32 <= RsaKey.BN_BITS2 ssl /\
  RsaKey.ImportKey ssl
    [Authorization KM_TAG_ALGORITHM KM_ALGORITHM_RSA; Authorization KM_TAG_KEY_SIZE 1024]
    (RsaKey.EVP_PKEY_of_RSA RsaKey.rsa_1024)
  = inl KM_ERROR_IMPORT_PARAMETER_MISMATCH.
Proof.
  intros ssl. assert (32 <= RsaKey.BN_BITS2 ssl) as Hbits by (simpl; lia).
  split; [exact Hbits|].
  exact (proj1 (proj2 (RsaKey_ImportKey_compares_bits_with_bytes ssl Hbits))).
Defined.

(** The same for every key: when the description names the modulus size in
    bits (two bits or more), the import fails. *)
Lemma RsaKey_ImportKey_size_in_bits_refused (ssl : RsaKey.OpenSSL)
    (key_description : AuthorizationSet) (rsa : RsaKey.RSA) (key_size : Z) :
  GetTagValue KM_TAG_KEY_SIZE key_description = Some key_size ->
  RsaKey.BN_num_bits (RsaKey.rsa_n rsa) = key_size ->
  2 <= key_size < 2 ^ 31 ->
  exists error,
    RsaKey.ImportKey ssl key_description (RsaKey.EVP_PKEY_of_RSA rsa) = inl error.
Proof.
  intros Hsize Hbits Hrange.
  assert ((RsaKey.RSA_size rsa =? to_int32 key_size) = false) as Hcmp.
  { apply Z.eqb_neq. unfold RsaKey.RSA_size, to_int32. rewrite Hbits.
    case_match; rewrite ?Z.ltb_lt, ?Z.ltb_ge in *; [|lia].
    assert ((key_size + 7) / 8 < key_size); [|lia].
    apply Z.div_lt_upper_bound; lia. }
  unfold RsaKey.ImportKey; simpl.
  destruct (GetTagValue KM_TAG_RSA_PUBLIC_EXPONENT key_description) as [e|] eqn:He.
  - destruct (negb (RsaKey.BN_set_word_ok ssl)); [eauto|].
    destruct (negb (RsaKey.BN_set_word ssl e =? RsaKey.rsa_e rsa)); [eauto|].
    rewrite Hsize, Hcmp. simpl. eauto.
  - destruct (RsaKey.BN_get_word ssl (RsaKey.rsa_e rsa) =? 4294967295); [eauto|].
    rewrite GetTagValue_push_back_other, Hsize, Hcmp by done. simpl. eauto.
Qed.

(** ** ECDSA key generation *)

Lemma EcdsaKeyFactory_choose_group_listed (ssl : Ec.OpenSSL) :
  (forall nid, Ec.EC_GROUP_new_ok ssl nid = true) ->
  EcdsaKeyFactory.choose_group ssl 224 = Some {| Ec.curve_name := Ec.NID_secp224r1 |} /\
  EcdsaKeyFactory.choose_group ssl 256 = Some {| Ec.curve_name := Ec.NID_X9_62_prime256v1 |} /\
  EcdsaKeyFactory.choose_group ssl 384 = Some {| Ec.curve_name := Ec.NID_secp384r1 |} /\
  EcdsaKeyFactory.choose_group ssl 521 = Some {| Ec.curve_name := Ec.NID_secp521r1 |}.
Proof.
  intros Hnew.
  unfold EcdsaKeyFactory.choose_group, Ec.EC_GROUP_new_by_curve_name; simpl.
  by rewrite !Hnew.
Qed.

Lemma EcdsaKeyFactory_choose_group_unlisted (ssl : Ec.OpenSSL) (size : Z) :
  size <> 224 -> size <> 256 -> size <> 384 -> size <> 521 ->
  EcdsaKeyFactory.choose_group ssl size = None.
Proof.
  intros H224 H256 H384 H521. unfold EcdsaKeyFactory.choose_group.
  by repeat (case_match; [rewrite Z.eqb_eq in *; done|]).
Qed.

(** The part of [GenerateKey] after [choose_group], for a library that
    succeeds: unfold the call and discharge each test. *)
Ltac ec_generate Hsucc group :=
  let Hkey := fresh in let Hpkey := fresh in let Hset := fresh in
  let Hgen := fresh in let Hcheck := fresh in let Hnew := fresh in
  let r := fresh "r" in let priv := fresh "priv" in let Hlt := fresh in
  destruct Hsucc as ([Hkey Hpkey] & _ & Hset & Hgen & Hcheck & Hnew);
  rewrite ?Hkey, ?Hpkey; simpl;
  specialize (Hgen group);
  destruct (Ec.EC_KEY_generate_key _ group) as [r priv];
  simpl in Hgen; subst r; exists priv;
  rewrite Hset, Hnew; simpl;
  case_match eqn:Hlt; [|done]; apply Z.ltb_lt in Hlt;
  specialize (Hcheck {| Ec.ec_group := group; Ec.ec_priv_key := priv |}); lia.

Lemma EcdsaKeyFactory_GenerateKey_chosen (ssl : Ec.OpenSSL)
    (key_description : AuthorizationSet) (key_size : Z) (group : Ec.EC_GROUP) :
  Ec.succeeds ssl ->
  GetTagValue KM_TAG_KEY_SIZE key_description = Some key_size ->
  EcdsaKeyFactory.choose_group ssl key_size = Some group ->
  exists priv_key,
    EcdsaKeyFactory.GenerateKey ssl key_description =
    inr {| Ec.ecdsa_key_ := {| Ec.ec_group := group; Ec.ec_priv_key := priv_key |};
           Ec.authorizations := key_description |}.
Proof.
  intros Hsucc Hsize Hgroup.
  unfold EcdsaKeyFactory.GenerateKey. rewrite Hsize, Hgroup.
  ec_generate Hsucc group.
Qed.

(** C3, as the code has it.  In [EcdsaKeyFactory::GenerateKey], with a
    library that carries out the generation: a [KEY_SIZE] of 224, 256, 384 or
    521 selects secp224r1, prime256v1, secp384r1 or secp521r1 and the key is
    generated with the description as its authorizations; every other
    [KEY_SIZE], 192 among them, fails with [UNSUPPORTED_KEY_SIZE]; without
    [KEY_SIZE] the default 224 is used and appended to the authorizations. *)
Theorem EcdsaKeyFactory_GenerateKey_key_sizes (ssl : Ec.OpenSSL)
    (key_description : AuthorizationSet) :
  Ec.succeeds ssl ->
  (forall key_size nid,
     GetTagValue KM_TAG_KEY_SIZE key_description = Some key_size ->
     (key_size = 224 /\ nid = Ec.NID_secp224r1) \/
     (key_size = 256 /\ nid = Ec.NID_X9_62_prime256v1) \/
     (key_size = 384 /\ nid = Ec.NID_secp384r1) \/
     (key_size = 521 /\ nid = Ec.NID_secp521r1) ->
     exists priv_key,
       EcdsaKeyFactory.GenerateKey ssl key_description =
       inr {| Ec.ecdsa_key_ := {| Ec.ec_group := {| Ec.curve_name := nid |};
                                  Ec.ec_priv_key := priv_key |};
              Ec.authorizations := key_description |}) /\
  (forall key_size,
     GetTagValue KM_TAG_KEY_SIZE key_description = Some key_size ->
     key_size <> 224 -> key_size <> 256 -> key_size <> 384 -> key_size <> 521 ->
     EcdsaKeyFactory.GenerateKey ssl key_description
     = inl KM_ERROR_UNSUPPORTED_KEY_SIZE) /\
  (GetTagValue KM_TAG_KEY_SIZE key_description = None ->
   exists priv_key,
     EcdsaKeyFactory.GenerateKey ssl key_description =
     inr {| Ec.ecdsa_key_ := {| Ec.ec_group := {| Ec.curve_name := Ec.NID_secp224r1 |};
                                Ec.ec_priv_key := priv_key |};
            Ec.authorizations :=
              key_description ++ [Authorization KM_TAG_KEY_SIZE 224] |}).
Proof.
  intros Hsucc.
  pose proof (EcdsaKeyFactory_choose_group_listed ssl
                (proj1 (proj2 Hsucc))) as (H224 & H256 & H384 & H521).
  split; [|split].
  - intros key_size nid Hsize Hcase.
    apply EcdsaKeyFactory_GenerateKey_chosen with key_size; [done..|].
    destruct Hcase as [[-> ->]|[[-> ->]|[[-> ->]|[-> ->]]]]; done.
  - intros key_size Hsize ? ? ? ?.
    unfold EcdsaKeyFactory.GenerateKey.
    rewrite Hsize, EcdsaKeyFactory_choose_group_unlisted by done.
    destruct Hsucc as ([-> ->] & _). done.
  - intros Habsent. unfold EcdsaKeyFactory.GenerateKey.
    rewrite Habsent. unfold EcdsaKeyFactory.ECDSA_DEFAULT_KEY_SIZE. rewrite H224.
    ec_generate Hsucc {| Ec.curve_name := Ec.NID_secp224r1 |}.
Qed.

Lemma Ec_ideal_succeeds : Ec.succeeds Ec.ideal.
Proof. repeat split; simpl; lia. Qed.

Lemma EcdsaKeyFactory_GenerateKey_key_sizes_witness :
  Ec.succeeds Ec.ideal /\
  EcdsaKeyFactory.GenerateKey Ec.ideal [Authorization KM_TAG_KEY_SIZE 190]
  = inl KM_ERROR_UNSUPPORTED_KEY_SIZE.
Proof.
  split; [exact Ec_ideal_succeeds|].
  apply (proj1 (proj2 (EcdsaKeyFactory_GenerateKey_key_sizes Ec.ideal
                         [Authorization KM_TAG_KEY_SIZE 190] Ec_ideal_succeeds)) 190);
    [reflexivity|lia..].
Defined.

(** C3, as stated, fails: with a library that carries out every step,
    [EcdsaKeyFactory::GenerateKey] refuses [KEY_SIZE = 192]. *)
Lemma EcdsaKeyFactory_GenerateKey_192_refused :
  EcdsaKeyFactory.GenerateKey Ec.ideal [Authorization KM_TAG_KEY_SIZE 192]
  = inl KM_ERROR_UNSUPPORTED_KEY_SIZE /\
  ~ exists key,
      EcdsaKeyFactory.GenerateKey Ec.ideal [Authorization KM_TAG_KEY_SIZE 192] = inr key.
Proof. split; [reflexivity|]. intros [key Hkey]. discriminate Hkey. Qed.

(** The older [EcdsaKey::GenerateKey] of asymmetric_key.cpp is the one that
    knows prime192v1, and its default size is 192. *)
Lemma EcdsaKey_GenerateKey_192 (ssl : Ec.OpenSSL) (key_description : AuthorizationSet) :
  Ec.succeeds ssl ->
  (GetTagValue KM_TAG_KEY_SIZE key_description = Some 192 ->
   exists priv_key,
     EcdsaKey.GenerateKey ssl key_description =
     inr {| Ec.ecdsa_key_ :=
              {| Ec.ec_group := {| Ec.curve_name := Ec.NID_X9_62_prime192v1 |};
                 Ec.ec_priv_key := priv_key |};
            Ec.authorizations := key_description |}) /\
  (GetTagValue KM_TAG_KEY_SIZE key_description = None ->
   exists priv_key,
     EcdsaKey.GenerateKey ssl key_description =
     inr {| Ec.ecdsa_key_ :=
              {| Ec.ec_group := {| Ec.curve_name := Ec.NID_X9_62_prime192v1 |};
                 Ec.ec_priv_key := priv_key |};
            Ec.authorizations :=
              key_description ++ [Authorization KM_TAG_KEY_SIZE 192] |}).
Proof.
  intros Hsucc.
  assert (EcdsaKey.choose_group ssl 192
          = Some {| Ec.curve_name := Ec.NID_X9_62_prime192v1 |}) as H192.
  { unfold EcdsaKey.choose_group, Ec.EC_GROUP_new_by_curve_name. simpl.
    by rewrite (proj1 (proj2 Hsucc)). }
  split; intros Hsize; unfold EcdsaKey.GenerateKey; rewrite Hsize;
    unfold EcdsaKey.ECDSA_DEFAULT_KEY_SIZE; rewrite H192;
    ec_generate Hsucc {| Ec.curve_name := Ec.NID_X9_62_prime192v1 |}.
Qed.

(** ** HMAC operations *)

(** C7, as the code has it.  HMAC Begin reads [MAC_LENGTH] (bits, 0 when
    absent) from the begin parameters and fails with
    [UNSUPPORTED_MAC_LENGTH] exactly when it is not a multiple of 8; for a
    supported digest it succeeds for every multiple of 8, whatever the digest
    length, and keeps [MAC_LENGTH / 8] as the tag length.  A tag length above
    the digest length is reported as [UNSUPPORTED_MAC_LENGTH] by [Finish] of
    a signing operation. *)
Theorem Hmac_BeginOperation_mac_length (ssl : Hmac.OpenSSL)
    (purpose : keymaster_purpose_t) (key : Hmac.SymmetricKey)
    (begin_params : AuthorizationSet) :
  Hmac.new_HmacOperation_ok ssl = true ->
  let mac_length := default 0 (GetTagValue KM_TAG_MAC_LENGTH begin_params) in
  let digest :=
    default KM_DIGEST_NONE (GetTagValue KM_TAG_DIGEST (Hmac.authorizations key)) in
  let begin := Hmac.BeginOperation ssl purpose key begin_params in
  (begin = inl KM_ERROR_UNSUPPORTED_MAC_LENGTH <-> mac_length mod 8 <> 0) /\
  (forall md,
     Hmac.digest_md digest = Some md -> mac_length mod 8 = 0 ->
     begin = inr {| Hmac.purpose := purpose; Hmac.error_ := KM_ERROR_OK;
                    Hmac.tag_length_ := mac_length / 8;
                    Hmac.ctx_ := Some {| Hmac.ctx_md := md;
                                         Hmac.ctx_key := Hmac.key_data key;
                                         Hmac.ctx_data := [] |} |}) /\
  (forall op mac signature,
     Hmac.purpose op = KM_PURPOSE_SIGN ->
     Hmac.tag_length_ op = mac_length / 8 ->
     Hmac.ctx_ op ≫= Hmac.HMAC_Final ssl = Some mac ->
     Z.of_nat (length mac) < mac_length / 8 ->
     Hmac.Finish ssl op signature = (KM_ERROR_UNSUPPORTED_MAC_LENGTH, [])).
Proof.
  intros Hnew mac_length digest begin.
  subst begin. unfold Hmac.BeginOperation, Hmac.CreateOperation, Hmac.Begin.
  fold mac_length. fold digest. rewrite Hnew.
  split; [|split].
  - destruct (mac_length mod 8 =? 0) eqn:Hmod; simpl.
    + apply Z.eqb_eq in Hmod. split; [|lia].
      unfold Hmac.HmacOperation_new.
      destruct (Hmac.digest_md digest); simpl; discriminate.
    + apply Z.eqb_neq in Hmod. done.
  - intros md Hmd Hmod. apply Z.eqb_eq in Hmod. rewrite Hmod. simpl.
    unfold Hmac.HmacOperation_new. rewrite Hmd. done.
  - intros op mac signature Hpurpose Htag Hfinal Hlong.
    unfold Hmac.Finish. rewrite Hfinal, Hpurpose, Htag.
    case_match eqn:Hgt; [done|]. rewrite Z.gtb_ltb, Z.ltb_ge in Hgt. lia.
Qed.

Lemma Hmac_BeginOperation_mac_length_witness :
  Hmac.new_HmacOperation_ok Hmac.ideal = true /\
  (Hmac.BeginOperation Hmac.ideal KM_PURPOSE_SIGN Hmac.hmac_sha256_key
     [Authorization KM_TAG_MAC_LENGTH 33]
   = inl KM_ERROR_UNSUPPORTED_MAC_LENGTH <-> 33 mod 8 <> 0).
Proof.
  split; [reflexivity|].
  exact (proj1 (Hmac_BeginOperation_mac_length Hmac.ideal KM_PURPOSE_SIGN
                  Hmac.hmac_sha256_key [Authorization KM_TAG_MAC_LENGTH 33]
                  eq_refl)).
Defined.

(** C7, as stated, fails: with SHA-256 (256 bits of output) Begin accepts
    [MAC_LENGTH = 264]; the length is refused only when the signing operation
    is finished. *)
Lemma Hmac_BeginOperation_accepts_long_mac :
  8 * Hmac.EVP_MD_size Hmac.EVP_sha256 < 264 /\
  exists op,
    Hmac.BeginOperation Hmac.ideal KM_PURPOSE_SIGN Hmac.hmac_sha256_key
      [Authorization KM_TAG_MAC_LENGTH 264] = inr op /\
    Hmac.Finish Hmac.ideal op [] = (KM_ERROR_UNSUPPORTED_MAC_LENGTH, []).
Proof. split; [reflexivity|]. eexists. split; reflexivity. Qed.

(** ** Authorizations of a new key *)

Section SoftAuthorizations.

Context {Rand : Type}.
Abbreviation soft := (GoogleKeymaster.AndroidSoftKeymaster.impl Rand).
Abbreviation visible := (fun auth => GoogleKeymaster.hidden auth = false).
Abbreviation accepted :=
  (fun auth => GoogleKeymaster.client_forbidden auth = false /\
               GoogleKeymaster.unsupported auth = false).

(** One turn of the loop on an authorization that is not refused. *)
Lemma SetAuthorizations_loop_accepted (auth : keymaster_key_param_t)
    (rest enforced unenforced : AuthorizationSet) :
  accepted auth ->
  GoogleKeymaster.SetAuthorizations_loop soft (auth :: rest) enforced unenforced =
  GoogleKeymaster.SetAuthorizations_loop soft rest enforced
    (unenforced ++ filter visible [auth]).
Proof.
  destruct auth as [t v]. intros [Hforbidden Hunsupported].
  destruct t; try discriminate Hforbidden; try discriminate Hunsupported;
    simpl; try reflexivity; by rewrite app_nil_r.
Qed.

Lemma SetAuthorizations_loop_prefix (pre rest enforced unenforced : AuthorizationSet) :
  Forall accepted pre ->
  GoogleKeymaster.SetAuthorizations_loop soft (pre ++ rest) enforced unenforced =
  GoogleKeymaster.SetAuthorizations_loop soft rest enforced
    (unenforced ++ filter visible pre).
Proof.
  intros Hpre. revert unenforced.
  induction Hpre as [|auth pre Hauth Hpre IH]; intros unenforced.
  - by rewrite app_nil_r.
  - rewrite <- app_comm_cons, SetAuthorizations_loop_accepted, IH by done.
    rewrite <- app_assoc. do 2 f_equal.
    symmetry. apply (list.filter_app _ [auth] pre).
Qed.

Lemma SetAuthorizations_loop_clean (key_description enforced unenforced : AuthorizationSet) :
  Forall accepted key_description ->
  GoogleKeymaster.SetAuthorizations_loop soft key_description enforced unenforced =
  (KM_ERROR_OK, enforced, unenforced ++ filter visible key_description).
Proof.
  intros Hclean.
  rewrite <- (app_nil_r key_description) at 1.
  by rewrite SetAuthorizations_loop_prefix.
Qed.

Lemma SetAuthorizations_loop_forbidden (auth : keymaster_key_param_t)
    (rest enforced unenforced : AuthorizationSet) :
  GoogleKeymaster.client_forbidden auth = true ->
  GoogleKeymaster.SetAuthorizations_loop soft (auth :: rest) enforced unenforced =
  (KM_ERROR_INVALID_TAG, enforced, unenforced).
Proof. destruct auth as [t v]. by destruct t. Qed.

Lemma SetAuthorizations_loop_unsupported (auth : keymaster_key_param_t)
    (rest enforced unenforced : AuthorizationSet) :
  GoogleKeymaster.unsupported auth = true ->
  GoogleKeymaster.SetAuthorizations_loop soft (auth :: rest) enforced unenforced =
  (KM_ERROR_UNSUPPORTED_TAG, enforced, unenforced).
Proof. destruct auth as [t v]. by destruct t. Qed.

(** The first refused authorization of a set, if there is one. *)
Lemma first_refused (key_description : AuthorizationSet) :
  Forall accepted key_description \/
  exists pre auth post,
    key_description = pre ++ auth :: post /\ Forall accepted pre /\
    (GoogleKeymaster.client_forbidden auth = true \/
     GoogleKeymaster.unsupported auth = true).
Proof.
  induction key_description as [|auth rest IH]; [by left|].
  destruct (GoogleKeymaster.client_forbidden auth) eqn:Hf.
  { right. exists [], auth, rest. auto. }
  destruct (GoogleKeymaster.unsupported auth) eqn:Hu.
  { right. exists [], auth, rest. auto. }
  destruct IH as [Hclean|(pre & a & post & -> & Hpre & Ha)].
  - left. by constructor.
  - right. exists (auth :: pre), a, post. split; [done|]. split; [|done].
    by constructor.
Qed.

Lemma SetAuthorizations_refused (pre post : AuthorizationSet)
    (auth : keymaster_key_param_t) (origin : keymaster_key_origin_t) (now : Z) :
  Forall accepted pre ->
  (GoogleKeymaster.client_forbidden auth = true ->
   GoogleKeymaster.SetAuthorizations soft (pre ++ auth :: post) origin now
   = (KM_ERROR_INVALID_TAG, [], filter visible pre)) /\
  (GoogleKeymaster.unsupported auth = true ->
   GoogleKeymaster.SetAuthorizations soft (pre ++ auth :: post) origin now
   = (KM_ERROR_UNSUPPORTED_TAG, [], filter visible pre)).
Proof.
  intros Hpre. unfold GoogleKeymaster.SetAuthorizations.
  rewrite SetAuthorizations_loop_prefix by done.
  split; intros Hauth.
  - by rewrite SetAuthorizations_loop_forbidden.
  - by rewrite SetAuthorizations_loop_unsupported.
Qed.

Lemma SetAuthorizations_clean (key_description : AuthorizationSet)
    (origin : keymaster_key_origin_t) (now : Z) :
  Forall accepted key_description ->
  GoogleKeymaster.SetAuthorizations soft key_description origin now =
  (KM_ERROR_OK, [],
   filter visible key_description ++
   [Authorization KM_TAG_CREATION_DATETIME (now * 1000);
    Authorization KM_TAG_ORIGIN origin]).
Proof.
  intros Hclean. unfold GoogleKeymaster.SetAuthorizations.
  rewrite SetAuthorizations_loop_clean by done. simpl.
  unfold push_back, GoogleKeymaster.java_time. by rewrite <- app_assoc.
Qed.

End SoftAuthorizations.

Section NewKeyAuthorizations.

Context {Rand : Type}.
Abbreviation soft_keymaster := (GoogleKeymaster.AndroidSoftKeymaster.impl Rand).

Variable UnencryptedKeyBlob :
  AuthorizationSet -> AuthorizationSet -> AuthorizationSet ->
  list byte -> list byte -> list byte -> keymaster_error_t * list byte.

(** [SerializeKey] stops with the error of [SetAuthorizations]. *)
Lemma SerializeKey_refused (key : GoogleKeymaster.Key)
    (origin : keymaster_key_origin_t) (now : Z) (nonce : list byte) (rand : Rand)
    (error : keymaster_error_t) (enforced unenforced : AuthorizationSet) :
  GoogleKeymaster.SetAuthorizations soft_keymaster
    (GoogleKeymaster.authorizations key) origin now = (error, enforced, unenforced) ->
  error <> KM_ERROR_OK ->
  GoogleKeymaster.SerializeKey soft_keymaster UnencryptedKeyBlob key origin now nonce rand
  = ({| GoogleKeymaster.error := error; GoogleKeymaster.key_blob := [];
        GoogleKeymaster.enforced := enforced;
        GoogleKeymaster.unenforced := unenforced |}, rand).
Proof.
  intros Hset Herror. unfold GoogleKeymaster.SerializeKey. rewrite Hset.
  destruct (is_ok error) eqn:Hok; [by apply is_ok_true in Hok|done].
Qed.

(** With the sets accepted, [SerializeKey] hands them back whatever happens
    to the blob. *)
Lemma SerializeKey_accepted (key : GoogleKeymaster.Key)
    (origin : keymaster_key_origin_t) (now : Z) (nonce : list byte) (rand : Rand)
    (enforced unenforced : AuthorizationSet) :
  GoogleKeymaster.SetAuthorizations soft_keymaster
    (GoogleKeymaster.authorizations key) origin now
  = (KM_ERROR_OK, enforced, unenforced) ->
  let response :=
    fst (GoogleKeymaster.SerializeKey soft_keymaster UnencryptedKeyBlob key origin
           now nonce rand) in
  GoogleKeymaster.enforced response = enforced /\
  GoogleKeymaster.unenforced response = unenforced.
Proof.
  intros Hset. unfold GoogleKeymaster.SerializeKey. rewrite Hset. simpl.
  destruct (GoogleKeymaster.key_material key); [done|].
  destruct (UnencryptedKeyBlob _ _ _ _ _ _) as [blob_error blob_bytes].
  by destruct (is_ok blob_error).
Qed.

(** C4, as the code has it.  For the software implementation and a key with
    authorizations [A] (the description followed by what the key factory
    derived), the tags are examined in order and the first one that is
    refused decides: [INVALID_TAG] for [ROOT_OF_TRUST] or [ORIGIN],
    [UNSUPPORTED_TAG] for [ROLLBACK_RESISTANT].  With no refused tag the
    enforced set is empty and the unenforced set is [A] without
    [APPLICATION_ID] and [APPLICATION_DATA], followed by [CREATION_DATETIME]
    and [ORIGIN]; [GenerateKey] stamps the origin [SOFTWARE] and [ImportKey]
    the origin [IMPORTED]. *)
Theorem SerializeKey_authorization_sets
    (KeyFactoryRegistry_Get : keymaster_algorithm_t -> option GoogleKeymaster.KeyFactory)
    (key : GoogleKeymaster.Key) (origin : keymaster_key_origin_t) (now : Z)
    (nonce : list byte) (rand : Rand) :
  let A := GoogleKeymaster.authorizations key in
  let serialize origin :=
    GoogleKeymaster.SerializeKey soft_keymaster UnencryptedKeyBlob key origin now
      nonce rand in
  let response := fst (serialize origin) in
  let accepted auth :=
    GoogleKeymaster.client_forbidden auth = false /\
    GoogleKeymaster.unsupported auth = false in
  (forall pre auth post,
     A = pre ++ auth :: post -> Forall accepted pre ->
     (GoogleKeymaster.client_forbidden auth = true ->
      GoogleKeymaster.error response = KM_ERROR_INVALID_TAG) /\
     (GoogleKeymaster.unsupported auth = true ->
      GoogleKeymaster.error response = KM_ERROR_UNSUPPORTED_TAG)) /\
  (Exists (fun auth => GoogleKeymaster.client_forbidden auth = true) A ->
   Forall (fun auth => GoogleKeymaster.unsupported auth = false) A ->
   GoogleKeymaster.error response = KM_ERROR_INVALID_TAG) /\
  (Exists (fun auth => GoogleKeymaster.unsupported auth = true) A ->
   Forall (fun auth => GoogleKeymaster.client_forbidden auth = false) A ->
   GoogleKeymaster.error response = KM_ERROR_UNSUPPORTED_TAG) /\
  (Forall accepted A ->
   GoogleKeymaster.enforced response = [] /\
   GoogleKeymaster.unenforced response =
     filter (fun auth => GoogleKeymaster.hidden auth = false) A ++
     [Authorization KM_TAG_CREATION_DATETIME (now * 1000);
      Authorization KM_TAG_ORIGIN origin]) /\
  (forall key_description factory,
     GetTagValue KM_TAG_ALGORITHM key_description ≫= KeyFactoryRegistry_Get
       = Some factory ->
     (GoogleKeymaster.factory_GenerateKey factory key_description = inr key ->
      GoogleKeymaster.GenerateKey soft_keymaster UnencryptedKeyBlob
        KeyFactoryRegistry_Get key_description now nonce rand
      = serialize KM_ORIGIN_SOFTWARE) /\
     (forall key_format key_data,
        GoogleKeymaster.factory_ImportKey factory key_description key_format key_data
          = inr key ->
        GoogleKeymaster.ImportKey soft_keymaster UnencryptedKeyBlob
          KeyFactoryRegistry_Get key_description key_format key_data now nonce rand
        = serialize KM_ORIGIN_IMPORTED)).
Proof.
  intros A serialize response accepted.
  assert (forall pre auth post,
     A = pre ++ auth :: post -> Forall accepted pre ->
     (GoogleKeymaster.client_forbidden auth = true ->
      GoogleKeymaster.error response = KM_ERROR_INVALID_TAG) /\
     (GoogleKeymaster.unsupported auth = true ->
      GoogleKeymaster.error response = KM_ERROR_UNSUPPORTED_TAG)) as Hfirst.
  { intros pre auth post HA Hpre.
    destruct (SetAuthorizations_refused (Rand := Rand) pre post auth origin now Hpre)
      as [Hforbidden Hunsupported].
    fold A in Hforbidden, Hunsupported. rewrite <- HA in Hforbidden, Hunsupported.
    subst response serialize.
    split; intros Hauth;
      [ erewrite SerializeKey_refused by (eauto; discriminate)
      | erewrite SerializeKey_refused by (eauto; discriminate) ]; done. }
  split; [exact Hfirst|].
  split; [|split; [|split]].
  - intros Hex Hall.
    destruct (first_refused A) as [Hclean|(pre & auth & post & HA & Hpre & Hauth)].
    + apply list.Exists_exists in Hex as (auth & Hin & Hauth).
      rewrite list.Forall_forall in Hclean. destruct (Hclean auth Hin). congruence.
    + destruct Hauth as [Hauth|Hauth]; [by eapply Hfirst|].
      rewrite list.Forall_forall in Hall.
      rewrite (Hall auth) in Hauth; [done|]. rewrite HA.
      apply elem_of_app. right. apply elem_of_cons. by left.
  - intros Hex Hall.
    destruct (first_refused A) as [Hclean|(pre & auth & post & HA & Hpre & Hauth)].
    + apply list.Exists_exists in Hex as (auth & Hin & Hauth).
      rewrite list.Forall_forall in Hclean. destruct (Hclean auth Hin). congruence.
    + destruct Hauth as [Hauth|Hauth]; [|by eapply Hfirst].
      rewrite list.Forall_forall in Hall.
      rewrite (Hall auth) in Hauth; [done|]. rewrite HA.
      apply elem_of_app. right. apply elem_of_cons. by left.
  - intros Hclean. by apply SerializeKey_accepted, SetAuthorizations_clean.
  - intros key_description factory Hfactory. split.
    + intros Hkey. unfold GoogleKeymaster.GenerateKey. by rewrite Hfactory, Hkey.
    + intros key_format key_data Hkey. unfold GoogleKeymaster.ImportKey.
      by rewrite Hfactory, Hkey.
Qed.

End NewKeyAuthorizations.

(** C4, as stated, fails: a description with [ROLLBACK_RESISTANT] before
    [ORIGIN] contains [ORIGIN], yet [GenerateKey] answers [UNSUPPORTED_TAG]. *)
Lemma GenerateKey_rollback_resistant_before_origin :
  contains_tag KM_TAG_ORIGIN
    [Authorization KM_TAG_ALGORITHM KM_ALGORITHM_ECDSA;
     Authorization KM_TAG_KEY_SIZE 256;
     Authorization KM_TAG_ROLLBACK_RESISTANT true;
     Authorization KM_TAG_ORIGIN KM_ORIGIN_HARDWARE] = true /\
  GoogleKeymaster.error
    (fst (GoogleKeymaster.GenerateKey
            (GoogleKeymaster.AndroidSoftKeymaster.impl unit)
            GoogleKeymaster.test_blob GoogleKeymaster.test_registry
            [Authorization KM_TAG_ALGORITHM KM_ALGORITHM_ECDSA;
             Authorization KM_TAG_KEY_SIZE 256;
             Authorization KM_TAG_ROLLBACK_RESISTANT true;
             Authorization KM_TAG_ORIGIN KM_ORIGIN_HARDWARE]
            1400000000 (replicate 12 "255"%byte) tt))
  = KM_ERROR_UNSUPPORTED_TAG /\
  KM_ERROR_UNSUPPORTED_TAG <> KM_ERROR_INVALID_TAG.
Proof. split; [reflexivity|]. split; [reflexivity|discriminate]. Qed.

(** ** The nonce of the software implementation *)

Lemma GenerateNonce_loop_zeroes (nonce : list byte) (i todo : nat) :
  (i + todo <= length nonce)%nat ->
  GoogleKeymaster.AndroidSoftKeymaster.GenerateNonce_loop nonce i todo =
  take i nonce ++ replicate todo "000"%byte ++ drop (i + todo) nonce.
Proof.
  revert nonce i. induction todo as [|todo IH]; intros nonce i Hlen; simpl.
  - by rewrite Nat.add_0_r, take_drop.
  - replace (i + S todo)%nat with (S i + todo)%nat by lia.
    rewrite IH by (rewrite length_insert; lia).
    rewrite (take_S_r _ _ "000"%byte) by (apply list_lookup_insert_eq; lia).
    rewrite take_insert_ge by lia.
    rewrite drop_insert_lt by lia.
    by rewrite <- app_assoc.
Qed.

Lemma GenerateNonce_zeroes {Rand : Type} (rand : Rand) (nonce : list byte) (n : nat) :
  (n <= length nonce)%nat ->
  GoogleKeymaster.AndroidSoftKeymaster.GenerateNonce rand nonce n =
  (replicate n "000"%byte ++ drop n nonce, rand).
Proof.
  intros Hlen. unfold GoogleKeymaster.AndroidSoftKeymaster.GenerateNonce.
  by rewrite GenerateNonce_loop_zeroes.
Qed.

(** C9.  [AndroidSoftKeymaster::GenerateNonce] fills the requested length
    with zero bytes and leaves the random generator alone.  [SerializeKey]
    of the software implementation therefore seals every key with the nonce
    of twelve zero bytes: once the authorizations are accepted and the key
    material is at hand, the blob of the response is what the blob
    constructor makes of the two sets, the hidden set, the key material, the
    master key and twelve zero bytes, whatever the nonce array held before
    and whatever the state of the generator; and serializing the same key
    with the same origin at the same time twice gives the same response. *)
Theorem AndroidSoftKeymaster_zero_nonce {Rand : Type}
    (UnencryptedKeyBlob :
       AuthorizationSet -> AuthorizationSet -> AuthorizationSet ->
       list byte -> list byte -> list byte -> keymaster_error_t * list byte)
    (key : GoogleKeymaster.Key) (origin : keymaster_key_origin_t) (now : Z) :
  let soft := GoogleKeymaster.AndroidSoftKeymaster.impl Rand in
  let zero_nonce := replicate GoogleKeymaster.NONCE_LENGTH "000"%byte in
  (forall (rand : Rand) (nonce : list byte) (n : nat),
     length nonce = n ->
     GoogleKeymaster.GenerateNonce soft rand nonce n = (replicate n "000"%byte, rand)) /\
  (forall (rand : Rand) (nonce : list byte) (enforced unenforced : AuthorizationSet)
          (key_material : list byte),
     length nonce = GoogleKeymaster.NONCE_LENGTH ->
     GoogleKeymaster.SetAuthorizations soft (GoogleKeymaster.authorizations key)
       origin now = (KM_ERROR_OK, enforced, unenforced) ->
     GoogleKeymaster.key_material key = inr key_material ->
     let sealed :=
       UnencryptedKeyBlob enforced unenforced
         (snd (GoogleKeymaster.BuildHiddenAuthorizations soft
                 (GoogleKeymaster.authorizations key) []))
         key_material GoogleKeymaster.AndroidSoftKeymaster.master_key_ zero_nonce in
     GoogleKeymaster.SerializeKey soft UnencryptedKeyBlob key origin now nonce rand =
     ({| GoogleKeymaster.error := fst sealed;
         GoogleKeymaster.key_blob := if is_ok (fst sealed) then snd sealed else [];
         GoogleKeymaster.enforced := enforced;
         GoogleKeymaster.unenforced := unenforced |}, rand)) /\
  (forall (rand : Rand) (nonce : list byte),
     length nonce = GoogleKeymaster.NONCE_LENGTH ->
     GoogleKeymaster.SerializeKey soft UnencryptedKeyBlob key origin now nonce rand =
     GoogleKeymaster.SerializeKey soft
       (fun enforced unenforced hidden key_material master_key _ =>
          UnencryptedKeyBlob enforced unenforced hidden key_material master_key
            zero_nonce)
       key origin now nonce rand) /\
  (forall (rand1 rand2 : Rand) (nonce1 nonce2 : list byte),
     length nonce1 = GoogleKeymaster.NONCE_LENGTH ->
     length nonce2 = GoogleKeymaster.NONCE_LENGTH ->
     fst (GoogleKeymaster.SerializeKey soft UnencryptedKeyBlob key origin now
            nonce1 rand1)
     = fst (GoogleKeymaster.SerializeKey soft UnencryptedKeyBlob key origin now
              nonce2 rand2)).
Proof.
  intros soft zero_nonce.
  assert (forall (rand : Rand) (nonce : list byte) (n : nat),
     length nonce = n ->
     GoogleKeymaster.GenerateNonce soft rand nonce n = (replicate n "000"%byte, rand))
    as Hnonce.
  { intros rand nonce n Hlen. simpl.
    rewrite GenerateNonce_zeroes by lia.
    by rewrite drop_ge, app_nil_r by lia. }
  split; [exact Hnonce|].
  split.
  { intros rand nonce enforced unenforced key_material Hlen Hset Hmaterial sealed.
    unfold GoogleKeymaster.SerializeKey.
    rewrite Hset, Hmaterial, (Hnonce rand nonce _ Hlen).
    subst sealed.
    destruct (GoogleKeymaster.BuildHiddenAuthorizations soft
                (GoogleKeymaster.authorizations key) [])
      as [hidden_error hidden] eqn:Hhidden.
    assert (hidden_error = KM_ERROR_OK) as ->
      by (unfold GoogleKeymaster.BuildHiddenAuthorizations in Hhidden;
          by injection Hhidden as <- _).
    change (GoogleKeymaster.MasterKey soft)
      with GoogleKeymaster.AndroidSoftKeymaster.master_key_.
    fold zero_nonce. cbn [is_ok negb snd].
    destruct (UnencryptedKeyBlob enforced unenforced hidden key_material
                GoogleKeymaster.AndroidSoftKeymaster.master_key_ zero_nonce)
      as [blob_error blob_bytes].
    cbn [fst snd]. destruct (is_ok blob_error) eqn:Hok; cbn [negb]; [|reflexivity].
    apply is_ok_true in Hok. by subst blob_error. }
  assert (forall (rand : Rand) (nonce : list byte),
     length nonce = GoogleKeymaster.NONCE_LENGTH ->
     GoogleKeymaster.SerializeKey soft UnencryptedKeyBlob key origin now nonce rand =
     GoogleKeymaster.SerializeKey soft
       (fun enforced unenforced hidden key_material master_key _ =>
          UnencryptedKeyBlob enforced unenforced hidden key_material master_key
            zero_nonce)
       key origin now nonce rand) as Hzero.
  { intros rand nonce Hlen. unfold GoogleKeymaster.SerializeKey.
    destruct (GoogleKeymaster.SetAuthorizations _ _ _ _) as [[error enforced] unenforced].
    destruct (negb (is_ok error)); [done|].
    destruct (GoogleKeymaster.BuildHiddenAuthorizations _ _ _) as [hidden_error hidden].
    destruct (negb (is_ok hidden_error)); [done|].
    destruct (GoogleKeymaster.key_material key); [done|].
    by rewrite (Hnonce rand nonce _ Hlen). }
  split; [exact Hzero|].
  intros rand1 rand2 nonce1 nonce2 Hlen1 Hlen2.
  rewrite (Hzero rand1 nonce1 Hlen1), (Hzero rand2 nonce2 Hlen2).
  unfold GoogleKeymaster.SerializeKey.
  destruct (GoogleKeymaster.SetAuthorizations _ _ _ _) as [[error enforced] unenforced].
  destruct (negb (is_ok error)); [done|].
  destruct (GoogleKeymaster.BuildHiddenAuthorizations _ _ _) as [hidden_error hidden].
  destruct (negb (is_ok hidden_error)); [done|].
  destruct (GoogleKeymaster.key_material key); [done|].
  rewrite (Hnonce rand1 nonce1 _ Hlen1), (Hnonce rand2 nonce2 _ Hlen2).
  destruct (UnencryptedKeyBlob _ _ _ _ _ _) as [blob_error blob_bytes].
  by destruct (negb (is_ok blob_error)).
Qed.

Lemma AndroidSoftKeymaster_zero_nonce_witness :
  GoogleKeymaster.SerializeKey (GoogleKeymaster.AndroidSoftKeymaster.impl unit)
    GoogleKeymaster.test_blob
    {| GoogleKeymaster.authorizations :=
         [Authorization KM_TAG_ALGORITHM KM_ALGORITHM_HMAC];
       GoogleKeymaster.key_material := inr ["001"%byte] |}
    KM_ORIGIN_SOFTWARE 5 (replicate 12 "255"%byte) tt =
  ({| GoogleKeymaster.error := KM_ERROR_OK;
      GoogleKeymaster.key_blob := replicate 12 "000"%byte ++ ["001"%byte];
      GoogleKeymaster.enforced := [];
      GoogleKeymaster.unenforced :=
        [Authorization KM_TAG_ALGORITHM KM_ALGORITHM_HMAC;
         Authorization KM_TAG_CREATION_DATETIME 5000;
         Authorization KM_TAG_ORIGIN KM_ORIGIN_SOFTWARE] |}, tt).
Proof.
  exact (proj1 (proj2 (AndroidSoftKeymaster_zero_nonce (Rand := unit)
                         GoogleKeymaster.test_blob
                         {| GoogleKeymaster.authorizations :=
                              [Authorization KM_TAG_ALGORITHM KM_ALGORITHM_HMAC];
                            GoogleKeymaster.key_material := inr ["001"%byte] |}
                         KM_ORIGIN_SOFTWARE 5))
           tt (replicate 12 "255"%byte) []
           [Authorization KM_TAG_ALGORITHM KM_ALGORITHM_HMAC;
            Authorization KM_TAG_CREATION_DATETIME 5000;
            Authorization KM_TAG_ORIGIN KM_ORIGIN_SOFTWARE]
           ["001"%byte] eq_refl eq_refl eq_refl).
Defined.

(** ** The operation table *)

Section OperationTable.

Context {Operation : Type} `{GoogleKeymaster.OperationClass Operation}.
Context {Rand : Type}.
Variable RAND_bytes : Rand -> nat -> option (list byte) * Rand.

Implicit Types self : @GoogleKeymaster.GoogleKeymaster Operation Rand.
Implicit Types entry : @GoogleKeymaster.OpTableEntry Operation.

Lemma FindOperation_zero self : GoogleKeymaster.FindOperation self 0 = None.
Proof. reflexivity. Qed.

Lemma FindOperation_None self (op_handle : Z) :
  GoogleKeymaster.FindOperation self op_handle = None <->
  op_handle = 0 \/
  Forall (fun entry => GoogleKeymaster.handle entry <> op_handle)
    (GoogleKeymaster.operation_table_ self).
Proof.
  unfold GoogleKeymaster.FindOperation.
  destruct (op_handle =? 0) eqn:Hzero.
  - apply Z.eqb_eq in Hzero. tauto.
  - apply Z.eqb_neq in Hzero. rewrite fmap_None, list_find_None. tauto.
Qed.

Lemma FindOperation_Some self (op_handle : Z) (i : nat) :
  GoogleKeymaster.FindOperation self op_handle = Some i ->
  op_handle <> 0 /\
  exists entry,
    GoogleKeymaster.operation_table_ self !! i = Some entry /\
    GoogleKeymaster.handle entry = op_handle.
Proof.
  unfold GoogleKeymaster.FindOperation.
  destruct (op_handle =? 0) eqn:Hzero; [done|].
  apply Z.eqb_neq in Hzero. intros Hfind.
  apply fmap_Some in Hfind as ([j entry] & Hfind & ->).
  apply list_find_Some in Hfind as (Hlookup & Hhandle & _). eauto.
Qed.

(** A handle that [FindOperation] does not find is refused by the three
    calls. *)
Lemma FindOperation_None_refused self (op_handle : Z) :
  GoogleKeymaster.FindOperation self op_handle = None ->
  GoogleKeymaster.refused op_handle self.
Proof.
  intros Hfind.
  unfold GoogleKeymaster.refused, GoogleKeymaster.UpdateOperation,
    GoogleKeymaster.FinishOperation, GoogleKeymaster.AbortOperation.
  by rewrite Hfind.
Qed.

(** Under the invariant the entry [FindOperation] returns has an operation. *)
Lemma FindOperation_occupied self (op_handle : Z) (i : nat) :
  GoogleKeymaster.table_ok self ->
  GoogleKeymaster.FindOperation self op_handle = Some i ->
  exists entry op,
    GoogleKeymaster.operation_table_ self !! i = Some entry /\
    GoogleKeymaster.handle entry = op_handle /\
    GoogleKeymaster.operation entry = Some op.
Proof.
  intros Hok Hfind.
  apply FindOperation_Some in Hfind as (Hnonzero & entry & Hlookup & Hhandle).
  unfold GoogleKeymaster.table_ok in Hok. rewrite list.Forall_forall in Hok.
  assert (GoogleKeymaster.slot_ok entry) as Hslot
    by (apply Hok; by eapply list_elem_of_lookup_2).
  destruct (GoogleKeymaster.operation entry) as [op|] eqn:Hop; [by eauto|].
  destruct Hslot as [Hempty _]. specialize (Hempty Hop). congruence.
Qed.

Lemma slot_ok_empty : GoogleKeymaster.slot_ok (@GoogleKeymaster.OpTableEntry_empty Operation).
Proof. done. Qed.

Lemma table_ok_new (operation_table_size : nat) (rand : Rand) :
  GoogleKeymaster.table_ok
    (@GoogleKeymaster.GoogleKeymaster_new Operation Rand operation_table_size rand).
Proof. apply Forall_replicate, slot_ok_empty. Qed.

Lemma table_ok_DeleteOperation self (i : nat) :
  GoogleKeymaster.table_ok self ->
  GoogleKeymaster.table_ok (GoogleKeymaster.DeleteOperation self i).
Proof. intros Hok. by apply Forall_insert; [|apply slot_ok_empty]. Qed.

Lemma table_ok_AddOperation self (op : Operation) (op_handle : Z) :
  GoogleKeymaster.table_ok self ->
  GoogleKeymaster.table_ok
    (snd (GoogleKeymaster.AddOperation RAND_bytes op op_handle self)).
Proof.
  intros Hok. unfold GoogleKeymaster.AddOperation.
  destruct (RAND_bytes _ _) as [[bytes|] rand]; [|done].
  destruct (GoogleKeymaster.handle_of_bytes bytes =? 0) eqn:Hzero; [done|].
  apply Z.eqb_neq in Hzero. simpl.
  destruct (list_find _ _) as [[i entry]|]; [|done].
  apply Forall_insert; [done|]. unfold GoogleKeymaster.slot_ok. simpl. split; done.
Qed.

(** Storing the operation back after [Update] keeps the handle of the slot. *)
Lemma table_ok_store self (i : nat) (op : Operation) :
  GoogleKeymaster.table_ok self ->
  (exists entry op0,
     GoogleKeymaster.operation_table_ self !! i = Some entry /\
     GoogleKeymaster.operation entry = Some op0) ->
  Forall GoogleKeymaster.slot_ok
    (alter (fun e => {| GoogleKeymaster.handle := GoogleKeymaster.handle e;
                        GoogleKeymaster.operation := Some op |})
       i (GoogleKeymaster.operation_table_ self)).
Proof.
  intros Hok (entry & op0 & Hlookup & Hop).
  apply Forall_alter; [done|]. intros e He Hslot.
  assert (e = entry) as -> by congruence.
  unfold GoogleKeymaster.slot_ok in *. simpl. rewrite Hop in Hslot.
  split; [done|]. intros Hzero. by apply Hslot in Hzero.
Qed.

Lemma table_ok_run_call (c : GoogleKeymaster.call) self (error : keymaster_error_t) self' :
  GoogleKeymaster.table_ok self ->
  GoogleKeymaster.run_call RAND_bytes c self = GoogleKeymaster.Returns (error, self') ->
  GoogleKeymaster.table_ok self'.
Proof.
  intros Hok Hrun. destruct c as [op|h params input|h params signature|h]; simpl in Hrun.
  - pose proof (table_ok_AddOperation self op 0 Hok) as Hadd.
    destruct (GoogleKeymaster.AddOperation _ _ _ _) as [[e h] s]. by simplify_eq.
  - unfold GoogleKeymaster.UpdateOperation in Hrun.
    destruct (GoogleKeymaster.FindOperation self h) as [i|] eqn:Hfind;
      [|by simplify_eq].
    destruct (FindOperation_occupied self h i Hok Hfind)
      as (entry & op & Hlookup & Hhandle & Hop).
    rewrite Hlookup in Hrun. simpl in Hrun. rewrite Hop in Hrun.
    destruct (GoogleKeymaster.op_Update op params input) as [[[e op'] output] consumed].
    pose proof (table_ok_store self i op' Hok) as Hstore.
    destruct (negb (is_ok e)); simplify_eq.
    + apply table_ok_DeleteOperation. apply Hstore; eauto.
    + apply Hstore; eauto.
  - unfold GoogleKeymaster.FinishOperation in Hrun.
    destruct (GoogleKeymaster.FindOperation self h) as [i|]; [|by simplify_eq].
    destruct (_ ≫= _) as [op|]; [|done].
    destruct (GoogleKeymaster.op_Finish op params signature) as [e output].
    simplify_eq. by apply table_ok_DeleteOperation.
  - unfold GoogleKeymaster.AbortOperation in Hrun.
    destruct (GoogleKeymaster.FindOperation self h) as [i|]; [|by simplify_eq].
    destruct (_ ≫= _) as [op|]; [|done].
    destruct (negb (is_ok (GoogleKeymaster.op_Abort op))); simplify_eq;
      by apply table_ok_DeleteOperation.
Qed.

Lemma reachable_table_ok self :
  GoogleKeymaster.reachable RAND_bytes self -> GoogleKeymaster.table_ok self.
Proof.
  induction 1 as [n rand|c self error self' Hreach IH Hrun].
  - apply table_ok_new.
  - by eapply table_ok_run_call.
Qed.

(** Under the invariant no call dereferences an empty slot. *)
Lemma table_ok_no_NullDeref (c : GoogleKeymaster.call) self :
  GoogleKeymaster.table_ok self ->
  GoogleKeymaster.run_call RAND_bytes c self <> GoogleKeymaster.NullDeref.
Proof.
  intros Hok. destruct c as [op|h params input|h params signature|h]; simpl.
  - by destruct (GoogleKeymaster.AddOperation _ _ _ _) as [[e h] s].
  - unfold GoogleKeymaster.UpdateOperation.
    destruct (GoogleKeymaster.FindOperation self h) as [i|] eqn:Hfind; [|done].
    destruct (FindOperation_occupied self h i Hok Hfind)
      as (entry & op & Hlookup & Hhandle & Hop).
    rewrite Hlookup. simpl. rewrite Hop.
    destruct (GoogleKeymaster.op_Update op params input) as [[[e op'] output] consumed].
    by destruct (negb (is_ok e)).
  - unfold GoogleKeymaster.FinishOperation.
    destruct (GoogleKeymaster.FindOperation self h) as [i|] eqn:Hfind; [|done].
    destruct (FindOperation_occupied self h i Hok Hfind)
      as (entry & op & Hlookup & Hhandle & Hop).
    rewrite Hlookup. simpl. rewrite Hop.
    by destruct (GoogleKeymaster.op_Finish op params signature) as [e output].
  - unfold GoogleKeymaster.AbortOperation.
    destruct (GoogleKeymaster.FindOperation self h) as [i|] eqn:Hfind; [|done].
    destruct (FindOperation_occupied self h i Hok Hfind)
      as (entry & op & Hlookup & Hhandle & Hop).
    rewrite Hlookup. simpl. rewrite Hop.
    by destruct (negb (is_ok (GoogleKeymaster.op_Abort op))).
Qed.

End OperationTable.

Lemma handle_of_bytes_range (bytes : list byte) :
  0 <= GoogleKeymaster.handle_of_bytes bytes < 256 ^ Z.of_nat (length bytes).
Proof.
  induction bytes as [|b bytes IH]; simpl GoogleKeymaster.handle_of_bytes.
  - simpl. lia.
  - rewrite length_cons, Nat2Z.inj_succ, Z.pow_succ_r by lia.
    pose proof (Byte.to_N_bounded b). lia.
Qed.

Section OperationTableClaims.

Context {Operation : Type} `{GoogleKeymaster.OperationClass Operation}.
Context {Rand : Type}.
Variable RAND_bytes : Rand -> nat -> option (list byte) * Rand.

Implicit Types self : @GoogleKeymaster.GoogleKeymaster Operation Rand.
Implicit Types entry : @GoogleKeymaster.OpTableEntry Operation.

(** C10.  In every state the service reaches from its construction through
    Begin, Update, Finish and Abort calls, a slot holds an operation exactly
    when its handle is not 0; [FindOperation(0)] is [NULL]; Update, Finish
    and Abort with handle 0 answer [INVALID_OPERATION_HANDLE] and change
    nothing; and no call dereferences the operation pointer of an empty
    slot. *)
Theorem reachable_table_invariant self :
  GoogleKeymaster.reachable RAND_bytes self ->
  (forall i entry,
     GoogleKeymaster.operation_table_ self !! i = Some entry ->
     (is_Some (GoogleKeymaster.operation entry) -> GoogleKeymaster.handle entry <> 0) /\
     (GoogleKeymaster.operation entry = None -> GoogleKeymaster.handle entry = 0)) /\
  GoogleKeymaster.FindOperation self 0 = None /\
  GoogleKeymaster.refused 0 self /\
  (forall c, GoogleKeymaster.run_call RAND_bytes c self <> GoogleKeymaster.NullDeref).
Proof.
  intros Hreach. pose proof (reachable_table_ok RAND_bytes self Hreach) as Hok.
  split; [|split; [|split]].
  - intros i entry Hlookup.
    unfold GoogleKeymaster.table_ok in Hok. rewrite list.Forall_forall in Hok.
    assert (GoogleKeymaster.slot_ok entry) as [Hempty Hzero]
      by (apply Hok; by eapply list_elem_of_lookup_2).
    split; [|done]. intros [op Hop] Hhandle. apply Hzero in Hhandle. congruence.
  - apply FindOperation_zero.
  - apply FindOperation_None_refused, FindOperation_zero.
  - intros c. by apply table_ok_no_NullDeref.
Qed.

(** C6, as the code has it.  [AddOperation] draws eight random bytes once.
    If the draw fails, or the handle read from the bytes is 0, it answers
    [UNKNOWN_ERROR] and leaves the table as it is: there is no second draw.
    Otherwise it stores the operation with the handle in the first slot
    without an operation and answers [OK], or answers [TOO_MANY_OPERATIONS]
    when every slot has one. *)
Theorem AddOperation_one_draw self (op : Operation) (previous : Z) :
  let table := GoogleKeymaster.operation_table_ self in
  let drawn rand :=
    {| GoogleKeymaster.operation_table_ := table; GoogleKeymaster.rand_ := rand |} in
  let add := GoogleKeymaster.AddOperation RAND_bytes op previous self in
  (forall rand,
     RAND_bytes (GoogleKeymaster.rand_ self) 8 = (None, rand) ->
     add = (KM_ERROR_UNKNOWN_ERROR, previous, drawn rand)) /\
  (forall bytes rand,
     RAND_bytes (GoogleKeymaster.rand_ self) 8 = (Some bytes, rand) ->
     let op_handle := GoogleKeymaster.handle_of_bytes bytes in
     (length bytes = 8%nat -> 0 <= op_handle < 2 ^ 64) /\
     (op_handle = 0 -> add = (KM_ERROR_UNKNOWN_ERROR, 0, drawn rand)) /\
     (op_handle <> 0 ->
      forall i entry,
        table !! i = Some entry -> GoogleKeymaster.operation entry = None ->
        (forall j entry', table !! j = Some entry' -> (j < i)%nat ->
                          GoogleKeymaster.operation entry' <> None) ->
        add = (KM_ERROR_OK, op_handle,
               {| GoogleKeymaster.operation_table_ :=
                    <[i := {| GoogleKeymaster.handle := op_handle;
                              GoogleKeymaster.operation := Some op |}]> table;
                  GoogleKeymaster.rand_ := rand |})) /\
     (op_handle <> 0 ->
      Forall (fun entry => GoogleKeymaster.operation entry <> None) table ->
      add = (KM_ERROR_TOO_MANY_OPERATIONS, op_handle, drawn rand))).
Proof.
  intros table drawn add. subst add drawn table.
  unfold GoogleKeymaster.AddOperation. split.
  - intros rand Hrand. by rewrite Hrand.
  - intros bytes rand Hrand. rewrite Hrand.
    split; [|split; [|split]].
    + intros Hlen. pose proof (handle_of_bytes_range bytes) as Hrange.
      rewrite Hlen in Hrange. exact Hrange.
    + intros ->. done.
    + intros Hnonzero i entry Hlookup Hempty Hfirst.
      apply Z.eqb_neq in Hnonzero. rewrite Hnonzero. simpl.
      assert (list_find (fun entry => GoogleKeymaster.operation entry = None)
                (GoogleKeymaster.operation_table_ self)
              = Some (i, entry)) as ->; [|done].
      apply list_find_Some. auto.
    + intros Hnonzero Hfull.
      apply Z.eqb_neq in Hnonzero. rewrite Hnonzero. simpl.
      assert (list_find (fun entry => GoogleKeymaster.operation entry = None)
                (GoogleKeymaster.operation_table_ self)
              = None) as ->; [|done].
      by apply list_find_None.
Qed.

End OperationTableClaims.

Lemma reachable_table_invariant_witness :
  GoogleKeymaster.reachable GoogleKeymaster.pool_RAND_bytes
    (@GoogleKeymaster.GoogleKeymaster_new keymaster_error_t (list byte) 2 []) /\
  GoogleKeymaster.FindOperation
    (@GoogleKeymaster.GoogleKeymaster_new keymaster_error_t (list byte) 2 []) 0 = None.
Proof.
  assert (GoogleKeymaster.reachable GoogleKeymaster.pool_RAND_bytes
            (@GoogleKeymaster.GoogleKeymaster_new keymaster_error_t (list byte) 2 []))
    as Hreach by constructor.
  split; [exact Hreach|].
  exact (proj1 (proj2 (reachable_table_invariant _ _ Hreach))).
Defined.

(** C6, as stated, fails: the generator hands out eight zero bytes and would
    hand out the handle 1 next; [AddOperation] answers [UNKNOWN_ERROR], the
    table stays empty and the second eight bytes are still in the pool. *)
Lemma AddOperation_zero_handle_not_retried :
  GoogleKeymaster.AddOperation GoogleKeymaster.pool_RAND_bytes KM_ERROR_OK 0
    (GoogleKeymaster.GoogleKeymaster_new 2
       (replicate 8 "000"%byte ++ "001"%byte :: replicate 7 "000"%byte))
  = (KM_ERROR_UNKNOWN_ERROR, 0,
     GoogleKeymaster.GoogleKeymaster_new 2 ("001"%byte :: replicate 7 "000"%byte)).
Proof. reflexivity. Qed.

(** ** Releasing an operation handle *)

Section HandleRelease.

Context {Operation : Type} `{GoogleKeymaster.OperationClass Operation}.
Context {Rand : Type}.
Variable RAND_bytes : Rand -> nat -> option (list byte) * Rand.

Implicit Types self : @GoogleKeymaster.GoogleKeymaster Operation Rand.
Implicit Types entry : @GoogleKeymaster.OpTableEntry Operation.

(** No slot stores the handle. *)
Abbreviation absent op_handle table :=
  (Forall (fun entry => GoogleKeymaster.handle entry <> op_handle) table).

Lemma absent_DeleteOperation self (op_handle : Z) (i : nat) :
  op_handle <> 0 ->
  absent op_handle (GoogleKeymaster.operation_table_ self) ->
  absent op_handle
    (GoogleKeymaster.operation_table_ (GoogleKeymaster.DeleteOperation self i)).
Proof. intros Hnonzero Habsent. apply Forall_insert; [done|]. simpl. lia. Qed.

Lemma absent_store (table : list (@GoogleKeymaster.OpTableEntry Operation))
    (op_handle : Z) (i : nat) (op : Operation) :
  absent op_handle table ->
  absent op_handle
    (alter (fun e => {| GoogleKeymaster.handle := GoogleKeymaster.handle e;
                        GoogleKeymaster.operation := Some op |}) i table).
Proof. intros Habsent. apply Forall_alter; [done|]. by intros entry _ Hentry. Qed.

(** Update, Finish and Abort, with whatever handle, do not bring a handle
    into the table. *)
Lemma FindOperation_None_run_call (c : GoogleKeymaster.call) self (op_handle : Z)
    (error : keymaster_error_t) self' :
  GoogleKeymaster.uses_handle c = true ->
  GoogleKeymaster.FindOperation self op_handle = None ->
  GoogleKeymaster.run_call RAND_bytes c self = GoogleKeymaster.Returns (error, self') ->
  GoogleKeymaster.FindOperation self' op_handle = None.
Proof.
  intros Huses Hnone Hrun.
  apply FindOperation_None in Hnone as [->|Habsent]; [apply FindOperation_zero|].
  destruct (decide (op_handle = 0)) as [->|Hnonzero]; [apply FindOperation_zero|].
  apply FindOperation_None. right.
  destruct c as [op|h params input|h params signature|h]; [done|..]; simpl in Hrun.
  - unfold GoogleKeymaster.UpdateOperation in Hrun.
    destruct (GoogleKeymaster.FindOperation self h) as [i|]; [|by simplify_eq].
    destruct (_ ≫= _) as [op|]; [|done].
    destruct (GoogleKeymaster.op_Update op params input) as [[[e op'] output] consumed].
    destruct (negb (is_ok e)); simplify_eq.
    + apply Forall_insert; [by apply absent_store|]. simpl. lia.
    + by apply absent_store.
  - unfold GoogleKeymaster.FinishOperation in Hrun.
    destruct (GoogleKeymaster.FindOperation self h) as [i|]; [|by simplify_eq].
    destruct (_ ≫= _) as [op|]; [|done].
    destruct (GoogleKeymaster.op_Finish op params signature) as [e output].
    simplify_eq. by apply absent_DeleteOperation.
  - unfold GoogleKeymaster.AbortOperation in Hrun.
    destruct (GoogleKeymaster.FindOperation self h) as [i|]; [|by simplify_eq].
    destruct (_ ≫= _) as [op|]; [|done].
    destruct (negb (is_ok (GoogleKeymaster.op_Abort op))); simplify_eq;
      by apply absent_DeleteOperation.
Qed.

(** A Begin that draws another handle does not bring the handle into the
    table either. *)
Lemma FindOperation_None_Begin (op : Operation) self (op_handle : Z)
    (error : keymaster_error_t) self' :
  GoogleKeymaster.drawn_handle RAND_bytes self <> Some op_handle ->
  GoogleKeymaster.FindOperation self op_handle = None ->
  GoogleKeymaster.run_call RAND_bytes (GoogleKeymaster.Call_Begin op) self =
    GoogleKeymaster.Returns (error, self') ->
  GoogleKeymaster.FindOperation self' op_handle = None.
Proof.
  intros Hdrawn Hnone Hrun.
  apply FindOperation_None in Hnone as [->|Habsent]; [apply FindOperation_zero|].
  apply FindOperation_None. right.
  simpl in Hrun. unfold GoogleKeymaster.AddOperation in Hrun.
  unfold GoogleKeymaster.drawn_handle in Hdrawn.
  destruct (RAND_bytes (GoogleKeymaster.rand_ self) 8) as [[bytes|] rand];
    [|by simplify_eq].
  simpl in Hdrawn.
  destruct (GoogleKeymaster.handle_of_bytes bytes =? 0); [by simplify_eq|].
  simpl in Hrun.
  destruct (list_find _ _) as [[i entry]|]; simplify_eq; [|done].
  apply Forall_insert; [done|]. simpl. congruence.
Qed.

Lemma FindOperation_None_released self (op_handle : Z) :
  GoogleKeymaster.FindOperation self op_handle = None ->
  GoogleKeymaster.released RAND_bytes op_handle self.
Proof.
  intros Hnone cs. revert self Hnone.
  induction cs as [|c cs IH]; intros self Hnone self' Hnever Hrun; simpl in *.
  - simplify_eq. by apply FindOperation_None_refused.
  - destruct Hnever as [Hdrawn Hnever].
    destruct (GoogleKeymaster.run_call RAND_bytes c self) as [[error self1]|] eqn:Hcall;
      [|done].
    eapply IH; [|done..].
    destruct (GoogleKeymaster.uses_handle c) eqn:Huses.
    + by eapply FindOperation_None_run_call.
    + destruct c as [op| | |]; try discriminate Huses.
      eapply FindOperation_None_Begin; [by apply Hdrawn|done..].
Qed.

(** Emptying the slot [FindOperation] found removes a handle that no other
    slot stores; [table] is the table before, with or without the operation
    of the slot replaced. *)
Lemma held_once_deleted self (op_handle : Z) (i : nat)
    (table : list (@GoogleKeymaster.OpTableEntry Operation)) :
  GoogleKeymaster.held_once op_handle self ->
  GoogleKeymaster.FindOperation self op_handle = Some i ->
  (forall j, j <> i -> table !! j = GoogleKeymaster.operation_table_ self !! j) ->
  length table = length (GoogleKeymaster.operation_table_ self) ->
  absent op_handle (<[i := GoogleKeymaster.OpTableEntry_empty]> table) /\
  <[i := GoogleKeymaster.OpTableEntry_empty]> table !! i
    = Some GoogleKeymaster.OpTableEntry_empty.
Proof.
  intros Honce Hfind Hsame Hlen.
  apply FindOperation_Some in Hfind as (Hnonzero & entry & Hlookup & Hhandle).
  assert (i < length table)%nat as Hi
    by (rewrite Hlen; by eapply lookup_lt_Some).
  split; [|by apply list_lookup_insert_eq].
  apply Forall_lookup. intros j entry' Hj.
  destruct (decide (i = j)) as [<-|Hne].
  - rewrite list_lookup_insert_eq in Hj by done. simplify_eq. simpl. lia.
  - rewrite list_lookup_insert_ne in Hj by done.
    rewrite Hsame in Hj by done. intros Hhandle'.
    apply Hne. by eapply Honce.
Qed.

(** C5, as the code has it.  Let no other slot store the handle.  After
    FinishOperation or AbortOperation has returned for it, or UpdateOperation
    has returned an error for it, the slot that held it is empty again, and
    Update, Finish and Abort with this handle answer
    [INVALID_OPERATION_HANDLE], also after any further Begin, Update, Finish
    and Abort calls, until a Begin draws this handle again. *)
Theorem operation_handle_released self (op_handle : Z) :
  GoogleKeymaster.held_once op_handle self ->
  let freed self' :=
    GoogleKeymaster.released RAND_bytes op_handle self' /\
    forall i,
      GoogleKeymaster.FindOperation self op_handle = Some i ->
      GoogleKeymaster.operation_table_ self' !! i
        = Some GoogleKeymaster.OpTableEntry_empty in
  (forall additional_params signature response self',
     GoogleKeymaster.FinishOperation op_handle additional_params signature self
       = GoogleKeymaster.Returns (response, self') ->
     freed self') /\
  (forall error self',
     GoogleKeymaster.AbortOperation op_handle self
       = GoogleKeymaster.Returns (error, self') ->
     freed self') /\
  (forall additional_params input response self',
     GoogleKeymaster.UpdateOperation op_handle additional_params input self
       = GoogleKeymaster.Returns (response, self') ->
     GoogleKeymaster.update_error response <> KM_ERROR_OK ->
     freed self').
Proof.
  intros Honce freed.
  assert (forall i table rand,
            GoogleKeymaster.FindOperation self op_handle = Some i ->
            (forall j, j <> i ->
                       table !! j = GoogleKeymaster.operation_table_ self !! j) ->
            length table = length (GoogleKeymaster.operation_table_ self) ->
            freed {| GoogleKeymaster.operation_table_ :=
                       <[i := GoogleKeymaster.OpTableEntry_empty]> table;
                     GoogleKeymaster.rand_ := rand |}) as Hfreed.
  { intros i table rand Hfind Hsame Hlen.
    destruct (held_once_deleted self op_handle i table Honce Hfind Hsame Hlen)
      as [Habsent Hslot].
    split.
    - apply FindOperation_None_released, FindOperation_None. by right.
    - intros i' Hfind'. by simplify_eq. }
  assert (GoogleKeymaster.FindOperation self op_handle = None -> freed self) as Hnone.
  { intros Hfind. split; [by apply FindOperation_None_released|].
    intros i Hi. congruence. }
  split; [|split].
  - intros params signature response self' Hrun.
    unfold GoogleKeymaster.FinishOperation in Hrun.
    destruct (GoogleKeymaster.FindOperation self op_handle) as [i|] eqn:Hfind;
      [|simplify_eq; by apply Hnone].
    destruct (_ ≫= _) as [op|]; [|done].
    destruct (GoogleKeymaster.op_Finish op params signature) as [e output].
    simplify_eq. by apply Hfreed.
  - intros error self' Hrun.
    unfold GoogleKeymaster.AbortOperation in Hrun.
    destruct (GoogleKeymaster.FindOperation self op_handle) as [i|] eqn:Hfind;
      [|simplify_eq; by apply Hnone].
    destruct (_ ≫= _) as [op|]; [|done].
    destruct (negb (is_ok (GoogleKeymaster.op_Abort op))); simplify_eq;
      by apply Hfreed.
  - intros params input response self' Hrun Herror.
    unfold GoogleKeymaster.UpdateOperation in Hrun.
    destruct (GoogleKeymaster.FindOperation self op_handle) as [i|] eqn:Hfind;
      [|simplify_eq; by apply Hnone].
    destruct (_ ≫= _) as [op|]; [|done].
    destruct (GoogleKeymaster.op_Update op params input) as [[[e op'] output] consumed].
    destruct (is_ok e) eqn:Hok; simpl in Hrun; simplify_eq.
    + simpl in Herror. by apply is_ok_true in Hok.
    + apply Hfreed; simpl; [done| |by rewrite length_alter].
      intros j Hj. by apply list_lookup_alter_ne.
Qed.

End HandleRelease.

Lemma operation_handle_released_witness :
  let self :=
    {| GoogleKeymaster.operation_table_ :=
         [ {| GoogleKeymaster.handle := 5;
              GoogleKeymaster.operation := Some KM_ERROR_OK |};
           GoogleKeymaster.OpTableEntry_empty ];
       GoogleKeymaster.rand_ :=
         ["007"%byte; "000"%byte; "000"%byte; "000"%byte;
          "000"%byte; "000"%byte; "000"%byte; "000"%byte] |} in
  let later :=
    [GoogleKeymaster.Call_Begin KM_ERROR_OK; GoogleKeymaster.Call_Abort 5] in
  GoogleKeymaster.held_once 5 self /\
  forall error self',
    GoogleKeymaster.AbortOperation 5 self = GoogleKeymaster.Returns (error, self') ->
    GoogleKeymaster.released GoogleKeymaster.pool_RAND_bytes 5 self' /\
    GoogleKeymaster.never_draws GoogleKeymaster.pool_RAND_bytes 5 later self' /\
    forall self'',
      GoogleKeymaster.run_calls GoogleKeymaster.pool_RAND_bytes later self' =
        GoogleKeymaster.Returns self'' ->
      GoogleKeymaster.refused 5 self''.
Proof.
  intros self later.
  assert (GoogleKeymaster.held_once 5 self) as Honce.
  { intros i j entry_i entry_j Hi Hj Hhi Hhj.
    destruct i as [|[|i]]; destruct j as [|[|j]]; simpl in *; simplify_eq;
      simpl in *; first [reflexivity | discriminate]. }
  split; [exact Honce|].
  intros error self' Habort.
  pose proof (proj1 (proj1 (proj2 (operation_handle_released
                                     GoogleKeymaster.pool_RAND_bytes self 5 Honce))
                       error self' Habort)) as Hreleased.
  assert (GoogleKeymaster.never_draws GoogleKeymaster.pool_RAND_bytes 5 later self')
    as Hnever.
  { injection Habort as _ <-. simpl.
    split; [intros _; discriminate|]. split; [discriminate|]. exact I. }
  split; [exact Hreleased|]. split; [exact Hnever|].
  intros self'' Hrun. exact (Hreleased later self'' Hnever Hrun).
Defined.

(** C5, as stated, fails: the generator hands out the same eight bytes for
    two Begin calls, two slots store the handle 5, and the second Abort with
    that handle answers [OK] instead of [INVALID_OPERATION_HANDLE]. *)
Lemma AbortOperation_twice_with_colliding_handles :
  exists self1 self2 self3 self4,
    GoogleKeymaster.run_call GoogleKeymaster.pool_RAND_bytes
      (GoogleKeymaster.Call_Begin KM_ERROR_OK)
      (GoogleKeymaster.GoogleKeymaster_new 2
         (("005"%byte :: replicate 7 "000"%byte) ++
          ("005"%byte :: replicate 7 "000"%byte)))
      = GoogleKeymaster.Returns (KM_ERROR_OK, self1) /\
    GoogleKeymaster.run_call GoogleKeymaster.pool_RAND_bytes
      (GoogleKeymaster.Call_Begin KM_ERROR_OK) self1
      = GoogleKeymaster.Returns (KM_ERROR_OK, self2) /\
    GoogleKeymaster.AbortOperation 5 self2
      = GoogleKeymaster.Returns (KM_ERROR_OK, self3) /\
    GoogleKeymaster.AbortOperation 5 self3
      = GoogleKeymaster.Returns (KM_ERROR_OK, self4).
Proof. do 4 eexists. repeat split; reflexivity. Qed.

(** ** DSA key generation *)

(** C8.  [DsaKey::GenerateKey], once its two OpenSSL objects are allocated.
    With none of [DSA_GENERATOR], [DSA_P], [DSA_Q] in the description,
    parameters are generated for the requested key size (2048 when absent)
    and g, p, q are appended to the key's authorizations, from where the
    software implementation copies them into the unenforced set.  With all
    three, the key is generated from exactly these parameters and nothing is
    appended.  With one or two of them the call fails with
    [INVALID_DSA_PARAMS]. *)
Theorem DsaKey_GenerateKey_parameters (ssl : DsaKey.OpenSSL)
    (key_description : AuthorizationSet) :
  DsaKey.DSA_new_ok ssl = true -> DsaKey.EVP_PKEY_new_ok ssl = true ->
  let g := GetTagValue KM_TAG_DSA_GENERATOR key_description in
  let p := GetTagValue KM_TAG_DSA_P key_description in
  let q := GetTagValue KM_TAG_DSA_Q key_description in
  let key_size :=
    default DsaKey.DSA_DEFAULT_KEY_SIZE (GetTagValue KM_TAG_KEY_SIZE key_description) in
  let authorizations :=
    match GetTagValue KM_TAG_KEY_SIZE key_description with
    | Some _ => key_description
    | None => key_description ++ [Authorization KM_TAG_KEY_SIZE 2048]
    end in
  (g = None -> p = None -> q = None ->
   forall generated priv pub,
     DsaKey.DSA_generate_parameters_ex ssl key_size = Some generated ->
     DsaKey.DSA_generate_key ssl generated = Some (priv, pub) ->
     DsaKey.new_DsaKey_ok ssl = true ->
     let appended :=
       [Authorization KM_TAG_DSA_GENERATOR
          (DsaKey.convert_bn_to_blob ssl (DsaKey.dsa_g generated));
        Authorization KM_TAG_DSA_P
          (DsaKey.convert_bn_to_blob ssl (DsaKey.dsa_p generated));
        Authorization KM_TAG_DSA_Q
          (DsaKey.convert_bn_to_blob ssl (DsaKey.dsa_q generated))] in
     DsaKey.GenerateKey ssl key_description =
       inr {| DsaKey.dsa_key_ :=
                {| DsaKey.params := generated; DsaKey.priv_key := priv;
                   DsaKey.pub_key := pub |};
              DsaKey.authorizations := authorizations ++ appended |} /\
     forall (Rand : Type) (origin : keymaster_key_origin_t) (now : Z),
       Forall (fun auth => GoogleKeymaster.client_forbidden auth = false /\
                           GoogleKeymaster.unsupported auth = false)
         key_description ->
       snd (GoogleKeymaster.SetAuthorizations
              (GoogleKeymaster.AndroidSoftKeymaster.impl Rand)
              (authorizations ++ appended) origin now)
       = filter (fun auth => GoogleKeymaster.hidden auth = false) authorizations ++
         appended ++
         [Authorization KM_TAG_CREATION_DATETIME (now * 1000);
          Authorization KM_TAG_ORIGIN origin]) /\
  (forall g_data p_data q_data priv pub,
     g = Some g_data -> p = Some p_data -> q = Some q_data ->
     DsaKey.BN_bin2bn_ok ssl g_data = true ->
     DsaKey.BN_bin2bn_ok ssl p_data = true ->
     DsaKey.BN_bin2bn_ok ssl q_data = true ->
     let given :=
       {| DsaKey.dsa_g := DsaKey.be_to_Z g_data;
          DsaKey.dsa_p := DsaKey.be_to_Z p_data;
          DsaKey.dsa_q := DsaKey.be_to_Z q_data |} in
     DsaKey.DSA_generate_key ssl given = Some (priv, pub) ->
     DsaKey.new_DsaKey_ok ssl = true ->
     DsaKey.GenerateKey ssl key_description =
       inr {| DsaKey.dsa_key_ :=
                {| DsaKey.params := given; DsaKey.priv_key := priv;
                   DsaKey.pub_key := pub |};
              DsaKey.authorizations := authorizations |}) /\
  (g = None \/ p = None \/ q = None ->
   g <> None \/ p <> None \/ q <> None ->
   DsaKey.GenerateKey ssl key_description = inl KM_ERROR_INVALID_DSA_PARAMS).
Proof.
  intros Hdsa Hpkey g p q key_size authorizations.
  unfold DsaKey.GenerateKey, DsaKey.GetDsaParamData.
  fold g. fold p. fold q. rewrite Hdsa, Hpkey.
  split; [|split].
  - intros -> -> -> generated priv pub Hparams Hkey Hnew.
    subst key_size authorizations.
    split.
    + destruct (GetTagValue KM_TAG_KEY_SIZE key_description) as [size|];
        simpl in *; rewrite Hparams, Hkey, Hnew;
        unfold DsaKey.SetDsaParamData, push_back; simpl;
        rewrite <- ?app_assoc; reflexivity.
    + intros Rand origin now Hclean.
      rewrite SetAuthorizations_clean.
      * cbn [snd].
        rewrite (list.filter_app (fun auth => GoogleKeymaster.hidden auth = false)).
        rewrite <- app_assoc. reflexivity.
      * apply Forall_app. split; [|by repeat constructor].
        destruct (GetTagValue KM_TAG_KEY_SIZE key_description); [done|].
        apply Forall_app. split; [done|by repeat constructor].
  - intros g_data p_data q_data priv pub -> -> -> Hg Hp Hq Hkey Hnew.
    subst key_size authorizations. unfold DsaKey.BN_bin2bn.
    destruct (GetTagValue KM_TAG_KEY_SIZE key_description) as [size|];
      simpl in *; rewrite Hg, Hp, Hq; simpl; rewrite Hkey, Hnew; reflexivity.
  - intros Hsome Hnot.
    destruct (GetTagValue KM_TAG_KEY_SIZE key_description) as [size|];
      destruct g, p, q; simpl; try reflexivity;
      destruct Hsome as [?|[?|?]]; try discriminate;
      destruct Hnot as [?|[?|?]]; congruence.
Qed.

Lemma DsaKey_GenerateKey_parameters_witness :
  DsaKey.DSA_new_ok DsaKey.ideal = true /\
  DsaKey.EVP_PKEY_new_ok DsaKey.ideal = true /\
  DsaKey.GenerateKey DsaKey.ideal
    [Authorization KM_TAG_ALGORITHM KM_ALGORITHM_DSA;
     Authorization KM_TAG_KEY_SIZE 256;
     Authorization KM_TAG_DSA_P ["023"%byte];
     Authorization KM_TAG_DSA_Q ["011"%byte]]
  = inl KM_ERROR_INVALID_DSA_PARAMS.
Proof.
  split; [reflexivity|]. split; [reflexivity|].
  apply (proj2 (proj2 (DsaKey_GenerateKey_parameters DsaKey.ideal
                         [Authorization KM_TAG_ALGORITHM KM_ALGORITHM_DSA;
                          Authorization KM_TAG_KEY_SIZE 256;
                          Authorization KM_TAG_DSA_P ["023"%byte];
                          Authorization KM_TAG_DSA_Q ["011"%byte]]
                         eq_refl eq_refl))).
  - left. reflexivity.
  - right. left. discriminate.
Defined.

(** ** Scenarios of the unit tests, run on the model *)

(** NewKeyGeneration.EcdsaDefaultSize: the default size is appended, the
    application id is kept out of the returned characteristics. *)
Example NewKeyGeneration_EcdsaDefaultSize :
  fst (GoogleKeymaster.GenerateKey (GoogleKeymaster.AndroidSoftKeymaster.impl unit)
         GoogleKeymaster.test_blob GoogleKeymaster.test_registry
         [Authorization KM_TAG_ALGORITHM KM_ALGORITHM_ECDSA;
          Authorization KM_TAG_PURPOSE KM_PURPOSE_SIGN;
          Authorization KM_TAG_USER_ID 7;
          Authorization KM_TAG_APPLICATION_ID ["a"%byte; "p"%byte; "p"%byte]]
         1400000000 (replicate 12 "255"%byte) tt)
  = {| GoogleKeymaster.error := KM_ERROR_OK;
       GoogleKeymaster.key_blob := replicate 12 "000"%byte ++ ["001"%byte];
       GoogleKeymaster.enforced := [];
       GoogleKeymaster.unenforced :=
         [Authorization KM_TAG_ALGORITHM KM_ALGORITHM_ECDSA;
          Authorization KM_TAG_PURPOSE KM_PURPOSE_SIGN;
          Authorization KM_TAG_USER_ID 7;
          Authorization KM_TAG_KEY_SIZE 224;
          Authorization KM_TAG_CREATION_DATETIME 1400000000000;
          Authorization KM_TAG_ORIGIN KM_ORIGIN_SOFTWARE] |}.
Proof. reflexivity. Qed.

(** NewKeyGeneration.EcdsaInvalidSize *)
Example NewKeyGeneration_EcdsaInvalidSize :
  EcdsaKeyFactory.GenerateKey Ec.ideal
    [Authorization KM_TAG_ALGORITHM KM_ALGORITHM_ECDSA;
     Authorization KM_TAG_KEY_SIZE 190]
  = inl KM_ERROR_UNSUPPORTED_KEY_SIZE.
Proof. reflexivity. Qed.

(** ImportKeyTest.RsaKeySizeMismatch *)
Example ImportKeyTest_RsaKeySizeMismatch :
  RsaKey.ImportKey {| RsaKey.BN_BITS2 := 64; RsaKey.BN_set_word_ok := true |}
    [Authorization KM_TAG_ALGORITHM KM_ALGORITHM_RSA;
     Authorization KM_TAG_KEY_SIZE 2048]
    (RsaKey.EVP_PKEY_of_RSA RsaKey.rsa_1024)
  = inl KM_ERROR_IMPORT_PARAMETER_MISMATCH.
Proof. reflexivity. Qed.

(** ImportKeyTest.RsaPublicExponenMismatch *)
Example ImportKeyTest_RsaPublicExponentMismatch :
  RsaKey.ImportKey {| RsaKey.BN_BITS2 := 64; RsaKey.BN_set_word_ok := true |}
    [Authorization KM_TAG_ALGORITHM KM_ALGORITHM_RSA;
     Authorization KM_TAG_RSA_PUBLIC_EXPONENT 3]
    (RsaKey.EVP_PKEY_of_RSA RsaKey.rsa_1024)
  = inl KM_ERROR_IMPORT_PARAMETER_MISMATCH.
Proof. reflexivity. Qed.

(** SigningOperationsTest.RsaAbort: a second Abort on the handle fails. *)
Example SigningOperationsTest_RsaAbort :
  exists self1 self2,
    GoogleKeymaster.run_call GoogleKeymaster.pool_RAND_bytes
      (GoogleKeymaster.Call_Begin KM_ERROR_OK)
      (GoogleKeymaster.GoogleKeymaster_new 2 ("005"%byte :: replicate 7 "000"%byte))
      = GoogleKeymaster.Returns (KM_ERROR_OK, self1) /\
    GoogleKeymaster.AbortOperation 5 self1
      = GoogleKeymaster.Returns (KM_ERROR_OK, self2) /\
    GoogleKeymaster.AbortOperation 5 self2
      = GoogleKeymaster.Returns (KM_ERROR_INVALID_OPERATION_HANDLE, self2).
Proof. do 2 eexists. repeat split; reflexivity. Qed.

(** A table of one slot takes one operation. *)
Example AddOperation_table_full :
  GoogleKeymaster.run_calls GoogleKeymaster.pool_RAND_bytes
    [GoogleKeymaster.Call_Begin KM_ERROR_OK]
    (GoogleKeymaster.GoogleKeymaster_new 1
       (("005"%byte :: replicate 7 "000"%byte) ++
        ("006"%byte :: replicate 7 "000"%byte)))
  = GoogleKeymaster.Returns
      {| GoogleKeymaster.operation_table_ :=
           [{| GoogleKeymaster.handle := 5;
               GoogleKeymaster.operation := Some KM_ERROR_OK |}];
         GoogleKeymaster.rand_ := "006"%byte :: replicate 7 "000"%byte |} /\
  fst (GoogleKeymaster.AddOperation GoogleKeymaster.pool_RAND_bytes KM_ERROR_OK 0
         {| GoogleKeymaster.operation_table_ :=
              [{| GoogleKeymaster.handle := 5;
                  GoogleKeymaster.operation := Some KM_ERROR_OK |}];
            GoogleKeymaster.rand_ := "006"%byte :: replicate 7 "000"%byte |})
  = (KM_ERROR_TOO_MANY_OPERATIONS, 6).
Proof. split; reflexivity. Qed.

(** HMAC-SHA256 with [MAC_LENGTH] of 256 bits: the signature has 32 bytes. *)
Example SigningOperationsTest_HmacSha256 :
  exists op signature,
    Hmac.BeginOperation Hmac.ideal KM_PURPOSE_SIGN Hmac.hmac_sha256_key
      [Authorization KM_TAG_MAC_LENGTH 256] = inr op /\
    Hmac.Finish Hmac.ideal op [] = (KM_ERROR_OK, signature) /\
    length signature = 32%nat.
Proof. do 2 eexists. repeat split; reflexivity. Qed.

(** An operation error in Update frees the slot. *)
Example UpdateOperation_error_releases :
  exists self1 response self2,
    GoogleKeymaster.run_call GoogleKeymaster.pool_RAND_bytes
      (GoogleKeymaster.Call_Begin KM_ERROR_INVALID_INPUT_LENGTH)
      (GoogleKeymaster.GoogleKeymaster_new 2 ("005"%byte :: replicate 7 "000"%byte))
      = GoogleKeymaster.Returns (KM_ERROR_OK, self1) /\
    GoogleKeymaster.UpdateOperation 5 [] [] self1
      = GoogleKeymaster.Returns (response, self2) /\
    GoogleKeymaster.update_error response = KM_ERROR_INVALID_INPUT_LENGTH /\
    GoogleKeymaster.operation_table_ self2
      = replicate 2 GoogleKeymaster.OpTableEntry_empty.
Proof. do 3 eexists. repeat split; reflexivity. Qed.
(** ** The byte buffer *)

Section BufferProperties.

Variable p : Utils.Platform.

Lemma size_t_wrap_small (z : Z) :
  0 <= z < 2 ^ Utils.size_bits p -> Utils.size_t_wrap p z = z.
Proof. intros Hz. unfold Utils.size_t_wrap. apply Z.mod_small, Hz. Qed.

Lemma available_write_ok (b : Utils.Buffer) :
  Utils.Buffer_ok p b ->
  Utils.available_write p b = Utils.buffer_size_ b - Utils.write_position_ b.
Proof.
  intros (_ & Hrw & Hws & Hsize). unfold Utils.available_write.
  apply size_t_wrap_small. lia.
Qed.

Lemma available_read_ok (b : Utils.Buffer) :
  Utils.Buffer_ok p b ->
  Utils.available_read p b = Utils.write_position_ b - Utils.read_position_ b.
Proof.
  intros (_ & Hrw & Hws & Hsize). unfold Utils.available_read.
  apply size_t_wrap_small. lia.
Qed.

Lemma memcpy_from_Some (src : list byte) (offset n : Z) :
  0 <= offset -> 0 <= n -> offset + n <= Z.of_nat (length src) ->
  Utils.memcpy_from src offset n =
  Some (take (Z.to_nat n) (drop (Z.to_nat offset) src)).
Proof.
  intros Ho Hn Hlen. unfold Utils.memcpy_from.
  destruct (Z.leb_spec 0 offset); [|lia].
  destruct (Z.leb_spec 0 n); [|lia].
  destruct (Z.leb_spec (offset + n) (Z.of_nat (length src))); [|lia].
  reflexivity.
Qed.

Lemma memcpy_to_Some (dest : list byte) (offset : Z) (src : list byte) :
  0 <= offset -> offset + Z.of_nat (length src) <= Z.of_nat (length dest) ->
  Utils.memcpy_to dest offset src =
  Some (take (Z.to_nat offset) dest ++ src ++
        drop (Z.to_nat offset + length src) dest).
Proof.
  intros Ho Hlen. unfold Utils.memcpy_to.
  destruct (Z.leb_spec 0 offset); [|lia].
  destruct (Z.leb_spec (offset + Z.of_nat (length src)) (Z.of_nat (length dest))); [|lia].
  reflexivity.
Qed.

(** The unread bytes after [src] has been copied in at the write cursor. *)
Lemma unread_after_copy (buffer src : list byte) (r w : nat) :
  (r <= w)%nat -> (w + length src <= length buffer)%nat ->
  take (w + length src - r)
    (drop r (take w buffer ++ src ++ drop (w + length src) buffer)) =
  take (w - r) (drop r buffer) ++ src.
Proof.
  intros Hrw Hlen.
  assert (Hw : length (take w buffer) = w) by (rewrite length_take; lia).
  rewrite drop_app_le by lia.
  rewrite app_assoc.
  rewrite take_app_le by (rewrite length_app, length_drop; lia).
  rewrite take_ge by (rewrite length_app, length_drop; lia).
  f_equal. rewrite take_drop_commute. f_equal. f_equal. lia.
Qed.

(** The unread bytes after the read cursor has moved on by [n]. *)
Lemma unread_after_read (buffer : list byte) (r w n : nat) :
  (n <= w - r)%nat ->
  take (w - (r + n)) (drop (r + n) buffer) = drop n (take (w - r) (drop r buffer)).
Proof.
  intros Hn. rewrite <- drop_drop.
  rewrite (take_drop_commute (drop r buffer)).
  f_equal. f_equal. lia.
Qed.

Lemma write_spec (b : Utils.Buffer) (src : list byte) (write_length : Z) :
  Utils.Buffer_ok p b ->
  0 <= write_length <= Z.of_nat (length src) ->
  (write_length <= Utils.available_write p b ->
   exists b',
     Utils.write p b src write_length = Some (true, b') /\
     Utils.Buffer_ok p b' /\
     Utils.unread p b' = Utils.unread p b ++ take (Z.to_nat write_length) src /\
     Utils.available_write p b' = Utils.available_write p b - write_length) /\
  (Utils.available_write p b < write_length ->
   Utils.write p b src write_length = Some (false, b)).
Proof.
  intros Hok Hlen.
  pose proof (available_write_ok b Hok) as Haw.
  pose proof (available_read_ok b Hok) as Har.
  destruct Hok as (Hbuf & Hrw & Hws & Hsize).
  split; intros Hroom; unfold Utils.write;
    destruct (Z.ltb_spec (Utils.available_write p b) write_length); try lia;
    [|reflexivity].
  rewrite memcpy_from_Some by lia. simpl.
  change (drop (Z.to_nat 0) src) with src.
  set (copied := take (Z.to_nat write_length) src).
  assert (Hcopied : length copied = Z.to_nat write_length)
    by (unfold copied; rewrite length_take; lia).
  rewrite memcpy_to_Some by lia. simpl.
  rewrite size_t_wrap_small by lia.
  eexists. split; [reflexivity|].
  assert (Hok' : Utils.Buffer_ok p
            {| Utils.buffer_ :=
                 take (Z.to_nat (Utils.write_position_ b)) (Utils.buffer_ b) ++
                 copied ++
                 drop (Z.to_nat (Utils.write_position_ b) + length copied)
                   (Utils.buffer_ b);
               Utils.buffer_size_ := Utils.buffer_size_ b;
               Utils.read_position_ := Utils.read_position_ b;
               Utils.write_position_ := Utils.write_position_ b + write_length |}).
  { unfold Utils.Buffer_ok. simpl.
    rewrite !length_app, length_take, length_drop. lia. }
  split; [exact Hok'|].
  split.
  - unfold Utils.unread. rewrite (available_read_ok _ Hok'), Har. simpl.
    replace (Z.to_nat (Utils.write_position_ b + write_length - Utils.read_position_ b))
      with (Z.to_nat (Utils.write_position_ b) + length copied -
            Z.to_nat (Utils.read_position_ b))%nat by lia.
    rewrite unread_after_copy by lia.
    f_equal. f_equal. lia.
  - rewrite (available_write_ok _ Hok'), Haw. simpl. lia.
Qed.

Lemma read_spec (b : Utils.Buffer) (read_length : Z) :
  Utils.Buffer_ok p b ->
  0 <= read_length ->
  (read_length <= Utils.available_read p b ->
   exists b',
     Utils.read p b read_length =
       Some (true, take (Z.to_nat read_length) (Utils.unread p b), b') /\
     Utils.Buffer_ok p b' /\
     Utils.unread p b' = drop (Z.to_nat read_length) (Utils.unread p b) /\
     Utils.available_write p b' = Utils.available_write p b) /\
  (Utils.available_read p b < read_length ->
   Utils.read p b read_length = Some (false, [], b)).
Proof.
  intros Hok Hlen.
  pose proof (available_write_ok b Hok) as Haw.
  pose proof (available_read_ok b Hok) as Har.
  destruct Hok as (Hbuf & Hrw & Hws & Hsize).
  split; intros Hroom; unfold Utils.read;
    destruct (Z.ltb_spec (Utils.available_read p b) read_length); try lia;
    [|reflexivity].
  rewrite memcpy_from_Some by lia. simpl.
  rewrite size_t_wrap_small by lia.
  eexists. split.
  - unfold Utils.unread. rewrite take_take.
    replace (Z.to_nat read_length `min` Z.to_nat (Utils.available_read p b))%nat
      with (Z.to_nat read_length) by lia.
    reflexivity.
  - assert (Hok' : Utils.Buffer_ok p
              {| Utils.buffer_ := Utils.buffer_ b;
                 Utils.buffer_size_ := Utils.buffer_size_ b;
                 Utils.read_position_ := Utils.read_position_ b + read_length;
                 Utils.write_position_ := Utils.write_position_ b |}).
    { unfold Utils.Buffer_ok. simpl. lia. }
    split; [exact Hok'|]. split.
    + unfold Utils.unread. rewrite (available_read_ok _ Hok'), Har. simpl.
      replace (Z.to_nat (Utils.write_position_ b - Utils.read_position_ b))
        with (Z.to_nat (Utils.write_position_ b) -
              Z.to_nat (Utils.read_position_ b))%nat by lia.
      rewrite <- unread_after_read by lia.
      f_equal; [lia|]. f_equal. lia.
    + rewrite (available_write_ok _ Hok'), Haw. reflexivity.
Qed.

Lemma reserve_spec (b : Utils.Buffer) (size : Z) :
  Utils.Platform_ok p ->
  Utils.Buffer_ok p b ->
  0 <= size ->
  Utils.write_position_ b + size < 2 ^ Utils.size_bits p ->
  exists ok b',
    Utils.reserve p b size = Some (ok, b') /\
    Utils.Buffer_ok p b' /\
    Utils.unread p b' = Utils.unread p b /\
    (ok = true -> size <= Utils.available_write p b') /\
    (ok = false -> b' = b).
Proof.
  intros (Hbits & Hnew) Hok Hsize Hfit.
  pose proof (available_write_ok b Hok) as Haw.
  pose proof (available_read_ok b Hok) as Har.
  pose proof Hok as (Hbuf & Hrw & Hws & Hmax).
  unfold Utils.reserve.
  destruct (Z.ltb_spec (Utils.available_write p b) size) as [Hgrow|Hroom].
  2: { exists true, b. split; [reflexivity|]. split; [exact Hok|].
       split; [reflexivity|]. split; [intros _; lia | discriminate]. }
  rewrite size_t_wrap_small by lia.
  destruct (Utils.new_array p _) as [new_buffer|] eqn:Hnew_buffer.
  2: { exists false, b. split; [reflexivity|]. split; [exact Hok|].
       split; [reflexivity|]. split; [discriminate | reflexivity]. }
  apply Hnew in Hnew_buffer.
  rewrite memcpy_from_Some by lia. simpl.
  set (kept := take (Z.to_nat (Utils.available_read p b))
                 (drop (Z.to_nat (Utils.read_position_ b)) (Utils.buffer_ b))).
  assert (Hkept : length kept = Z.to_nat (Utils.available_read p b)).
  { unfold kept. rewrite length_take, length_drop. lia. }
  rewrite memcpy_to_Some by lia. simpl.
  rewrite size_t_wrap_small by lia.
  eexists true, _. split; [reflexivity|].
  assert (Hok' : Utils.Buffer_ok p
            {| Utils.buffer_ := kept ++ drop (length kept) new_buffer;
               Utils.buffer_size_ :=
                 Utils.buffer_size_ b + size - Utils.available_write p b;
               Utils.read_position_ := 0;
               Utils.write_position_ :=
                 Utils.write_position_ b - Utils.read_position_ b |}).
  { unfold Utils.Buffer_ok. simpl. rewrite length_app, length_drop. lia. }
  split; [exact Hok'|]. split; [|split; [|discriminate]].
  - unfold Utils.unread at 1. rewrite (available_read_ok _ Hok'). simpl.
    change (Z.to_nat 0) with 0%nat. rewrite drop_0.
    rewrite take_app_le by lia. rewrite take_ge by lia. reflexivity.
  - intros _. rewrite (available_write_ok _ Hok'). simpl. lia.
Qed.

(** X1.  [Buffer::write] on a well-formed buffer: with room for
    [write_length] bytes it returns [true], appends the first
    [write_length] bytes of [src] to the unread bytes and uses up that much
    room; without room it returns [false] and changes nothing. *)
Theorem Buffer_write_appends (b : Utils.Buffer) (src : list byte) (write_length : Z) :
  Utils.Buffer_ok p b ->
  0 <= write_length <= Z.of_nat (length src) ->
  (write_length <= Utils.available_write p b ->
   exists b',
     Utils.write p b src write_length = Some (true, b') /\
     Utils.Buffer_ok p b' /\
     Utils.unread p b' = Utils.unread p b ++ take (Z.to_nat write_length) src /\
     Utils.available_write p b' = Utils.available_write p b - write_length) /\
  (Utils.available_write p b < write_length ->
   Utils.write p b src write_length = Some (false, b)).
Proof. apply write_spec. Qed.

(** X2.  [Buffer::read] on a well-formed buffer: with [read_length] unread
    bytes it returns [true], hands out the oldest [read_length] unread bytes
    and keeps the others; with fewer it returns [false] and changes
    nothing. *)
Theorem Buffer_read_takes (b : Utils.Buffer) (read_length : Z) :
  Utils.Buffer_ok p b ->
  0 <= read_length ->
  (read_length <= Utils.available_read p b ->
   exists b',
     Utils.read p b read_length =
       Some (true, take (Z.to_nat read_length) (Utils.unread p b), b') /\
     Utils.Buffer_ok p b' /\
     Utils.unread p b' = drop (Z.to_nat read_length) (Utils.unread p b) /\
     Utils.available_write p b' = Utils.available_write p b) /\
  (Utils.available_read p b < read_length ->
   Utils.read p b read_length = Some (false, [], b)).
Proof. apply read_spec. Qed.

(** X3.  [Buffer::reserve] on a well-formed buffer, for a size that does not
    overflow [size_t]: the call stays inside its arrays, the buffer stays
    well formed and keeps its unread bytes; when it returns [true] there is
    room for [size] more bytes, when it returns [false] nothing has
    changed. *)
Theorem Buffer_reserve_keeps_unread (b : Utils.Buffer) (size : Z) :
  Utils.Platform_ok p ->
  Utils.Buffer_ok p b ->
  0 <= size ->
  Utils.write_position_ b + size < 2 ^ Utils.size_bits p ->
  exists ok b',
    Utils.reserve p b size = Some (ok, b') /\
    Utils.Buffer_ok p b' /\
    Utils.unread p b' = Utils.unread p b /\
    (ok = true -> size <= Utils.available_write p b') /\
    (ok = false -> b' = b).
Proof. apply reserve_spec. Qed.

Lemma length_unread (b : Utils.Buffer) :
  Utils.Buffer_ok p b ->
  Z.of_nat (length (Utils.unread p b)) = Utils.available_read p b.
Proof.
  intros Hok. pose proof (available_read_ok b Hok) as Har.
  destruct Hok as (Hbuf & Hrw & Hws & Hmax).
  unfold Utils.unread. rewrite length_take, length_drop. lia.
Qed.

(** X4.  Reserve, write, read back: once [reserve(n)] has returned [true],
    [write(src, n)] returns [true], and reading everything that is unread
    then hands out the bytes that were unread before followed by the [n]
    bytes written, and leaves nothing unread. *)
Theorem Buffer_reserve_write_read (b b1 : Utils.Buffer) (src : list byte) (n : Z) :
  Utils.Platform_ok p ->
  Utils.Buffer_ok p b ->
  0 <= n <= Z.of_nat (length src) ->
  Utils.write_position_ b + n < 2 ^ Utils.size_bits p ->
  Utils.reserve p b n = Some (true, b1) ->
  exists b2 b3,
    Utils.write p b1 src n = Some (true, b2) /\
    Utils.read p b2 (Utils.available_read p b2) =
      Some (true, Utils.unread p b ++ take (Z.to_nat n) src, b3) /\
    Utils.available_read p b2 = Utils.available_read p b + n /\
    Utils.available_read p b3 = 0.
Proof.
  intros Hp Hok Hn Hfit Hreserve.
  destruct (reserve_spec b n Hp Hok ltac:(lia) Hfit)
    as (ok & b1' & Hres & Hok1 & Hunread1 & Hroom & _).
  rewrite Hreserve in Hres. injection Hres as <- <-.
  specialize (Hroom eq_refl).
  destruct (write_spec b1 src n Hok1 Hn) as [Hwrite _].
  destruct (Hwrite Hroom) as (b2 & Hw & Hok2 & Hunread2 & _).
  pose proof (length_unread b2 Hok2) as Hlen2.
  pose proof (length_unread b Hok) as Hlen.
  assert (Hall : 0 <= Utils.available_read p b2) by lia.
  destruct (read_spec b2 _ Hok2 Hall) as [Hread _].
  destruct (Hread ltac:(lia)) as (b3 & Hr & Hok3 & Hunread3 & _).
  exists b2, b3. split; [exact Hw|]. split; [|split].
  - rewrite Hr. rewrite take_ge by lia. rewrite Hunread2, Hunread1. reflexivity.
  - rewrite <- Hlen2, Hunread2, Hunread1, length_app, length_take. lia.
  - rewrite <- (length_unread b3 Hok3), Hunread3, length_drop. lia.
Qed.

(** X5.  [Buffer::Reinitialize(data, data_len)]: when the array is
    allocated the buffer is well formed, holds the first [data_len] bytes
    of [data] as its unread bytes and has no room left; when it is not, the
    call returns [false] with [buffer_] gone and the three size members
    as they were. *)
Theorem Buffer_Reinitialize_data (b : Utils.Buffer) (data : list byte) (data_len : Z) :
  Utils.Platform_ok p ->
  0 <= data_len <= Z.of_nat (length data) ->
  data_len < 2 ^ Utils.size_bits p ->
  match Utils.new_array p data_len with
  | Some _ =>
    exists b',
      Utils.Reinitialize_data p b data data_len = Some (true, b') /\
      Utils.Buffer_ok p b' /\
      Utils.unread p b' = take (Z.to_nat data_len) data /\
      Utils.available_write p b' = 0
  | None =>
    exists b',
      Utils.Reinitialize_data p b data data_len = Some (false, b') /\
      Utils.buffer_ b' = [] /\
      Utils.available_read p b' = Utils.available_read p b /\
      Utils.available_write p b' = Utils.available_write p b
  end.
Proof.
  intros (Hbits & Hnew) Hlen Hmax. unfold Utils.Reinitialize_data.
  destruct (Utils.new_array p data_len) as [new_buffer|] eqn:Hnew_buffer.
  2: { eexists. split; [reflexivity|]. repeat split. }
  apply Hnew in Hnew_buffer.
  rewrite memcpy_from_Some by lia. simpl.
  change (drop (Z.to_nat 0) data) with data.
  set (copied := take (Z.to_nat data_len) data).
  assert (Hcopied : length copied = Z.to_nat data_len).
  { unfold copied. rewrite length_take. lia. }
  rewrite memcpy_to_Some by lia. simpl.
  eexists. split; [reflexivity|].
  assert (Hok' : Utils.Buffer_ok p
            {| Utils.buffer_ := copied ++ drop (length copied) new_buffer;
               Utils.buffer_size_ := data_len;
               Utils.read_position_ := 0;
               Utils.write_position_ := data_len |}).
  { unfold Utils.Buffer_ok. simpl. rewrite length_app, length_drop. lia. }
  split; [exact Hok'|]. split.
  - unfold Utils.unread. rewrite (available_read_ok _ Hok'). simpl.
    change (Z.to_nat 0) with 0%nat. rewrite drop_0.
    rewrite take_app_le by lia. rewrite take_ge by lia. reflexivity.
  - rewrite (available_write_ok _ Hok'). simpl. lia.
Qed.

End BufferProperties.

Lemma test_platform_ok : Utils.Platform_ok Utils.test_platform.
Proof.
  split; [reflexivity|]. intros n array. simpl.
  destruct (Z.leb_spec 0 n); [|discriminate].
  intros [= <-]. rewrite length_replicate. lia.
Qed.

Lemma test_buffer_ok : Utils.Buffer_ok Utils.test_platform Utils.test_buffer.
Proof. repeat split; discriminate. Qed.

Lemma Buffer_write_appends_witness :
  Utils.Buffer_ok Utils.test_platform Utils.test_buffer /\
  0 <= 2 <= Z.of_nat (length ["001"%byte; "002"%byte]) /\
  ((2 <= Utils.available_write Utils.test_platform Utils.test_buffer ->
    exists b',
      Utils.write Utils.test_platform Utils.test_buffer ["001"%byte; "002"%byte] 2 =
        Some (true, b') /\
      Utils.Buffer_ok Utils.test_platform b' /\
      Utils.unread Utils.test_platform b' =
        Utils.unread Utils.test_platform Utils.test_buffer ++
        take (Z.to_nat 2) ["001"%byte; "002"%byte] /\
      Utils.available_write Utils.test_platform b' =
        Utils.available_write Utils.test_platform Utils.test_buffer - 2) /\
   (Utils.available_write Utils.test_platform Utils.test_buffer < 2 ->
    Utils.write Utils.test_platform Utils.test_buffer ["001"%byte; "002"%byte] 2 =
      Some (false, Utils.test_buffer))).
Proof.
  split; [exact test_buffer_ok|]. split; [simpl; lia|].
  apply (Buffer_write_appends Utils.test_platform Utils.test_buffer
           ["001"%byte; "002"%byte] 2 test_buffer_ok).
  simpl. lia.
Defined.

Lemma Buffer_read_takes_witness :
  Utils.Buffer_ok Utils.test_platform Utils.test_buffer /\
  0 <= 1 /\
  ((1 <= Utils.available_read Utils.test_platform Utils.test_buffer ->
    exists b',
      Utils.read Utils.test_platform Utils.test_buffer 1 =
        Some (true, take (Z.to_nat 1) (Utils.unread Utils.test_platform Utils.test_buffer),
              b') /\
      Utils.Buffer_ok Utils.test_platform b' /\
      Utils.unread Utils.test_platform b' =
        drop (Z.to_nat 1) (Utils.unread Utils.test_platform Utils.test_buffer) /\
      Utils.available_write Utils.test_platform b' =
        Utils.available_write Utils.test_platform Utils.test_buffer) /\
   (Utils.available_read Utils.test_platform Utils.test_buffer < 1 ->
    Utils.read Utils.test_platform Utils.test_buffer 1 =
      Some (false, [], Utils.test_buffer))).
Proof.
  split; [exact test_buffer_ok|]. split; [lia|].
  apply (Buffer_read_takes Utils.test_platform Utils.test_buffer 1 test_buffer_ok).
  lia.
Defined.

Lemma Buffer_reserve_keeps_unread_witness :
  Utils.Platform_ok Utils.test_platform /\
  Utils.Buffer_ok Utils.test_platform Utils.test_buffer /\
  0 <= 5 /\
  Utils.write_position_ Utils.test_buffer + 5 < 2 ^ Utils.size_bits Utils.test_platform /\
  exists ok b',
    Utils.reserve Utils.test_platform Utils.test_buffer 5 = Some (ok, b') /\
    Utils.Buffer_ok Utils.test_platform b' /\
    Utils.unread Utils.test_platform b' =
      Utils.unread Utils.test_platform Utils.test_buffer /\
    (ok = true -> 5 <= Utils.available_write Utils.test_platform b') /\
    (ok = false -> b' = Utils.test_buffer).
Proof.
  split; [exact test_platform_ok|]. split; [exact test_buffer_ok|].
  split; [lia|]. split; [reflexivity|].
  apply (Buffer_reserve_keeps_unread Utils.test_platform Utils.test_buffer 5
           test_platform_ok test_buffer_ok); [lia | reflexivity].
Defined.

Lemma Buffer_reserve_write_read_witness :
  Utils.Platform_ok Utils.test_platform /\
  Utils.Buffer_ok Utils.test_platform Utils.test_buffer /\
  0 <= 3 <= Z.of_nat (length ["001"%byte; "002"%byte; "003"%byte]) /\
  Utils.write_position_ Utils.test_buffer + 3 < 2 ^ Utils.size_bits Utils.test_platform /\
  Utils.reserve Utils.test_platform Utils.test_buffer 3 =
    Some (true, Utils.test_buffer_grown) /\
  exists b2 b3,
    Utils.write Utils.test_platform Utils.test_buffer_grown
      ["001"%byte; "002"%byte; "003"%byte] 3 = Some (true, b2) /\
    Utils.read Utils.test_platform b2 (Utils.available_read Utils.test_platform b2) =
      Some (true,
            Utils.unread Utils.test_platform Utils.test_buffer ++
            take (Z.to_nat 3) ["001"%byte; "002"%byte; "003"%byte], b3) /\
    Utils.available_read Utils.test_platform b2 =
      Utils.available_read Utils.test_platform Utils.test_buffer + 3 /\
    Utils.available_read Utils.test_platform b3 = 0.
Proof.
  split; [exact test_platform_ok|]. split; [exact test_buffer_ok|].
  split; [simpl; lia|]. split; [reflexivity|]. split; [reflexivity|].
  apply (Buffer_reserve_write_read Utils.test_platform Utils.test_buffer
           Utils.test_buffer_grown ["001"%byte; "002"%byte; "003"%byte] 3
           test_platform_ok test_buffer_ok);
    [simpl; lia | reflexivity | reflexivity].
Defined.

Lemma Buffer_Reinitialize_data_witness :
  Utils.Platform_ok Utils.test_platform /\
  0 <= 2 <= Z.of_nat (length ["001"%byte; "002"%byte; "003"%byte]) /\
  2 < 2 ^ Utils.size_bits Utils.test_platform /\
  exists b',
    Utils.Reinitialize_data Utils.test_platform Utils.test_buffer
      ["001"%byte; "002"%byte; "003"%byte] 2 = Some (true, b') /\
    Utils.Buffer_ok Utils.test_platform b' /\
    Utils.unread Utils.test_platform b' =
      take (Z.to_nat 2) ["001"%byte; "002"%byte; "003"%byte] /\
    Utils.available_write Utils.test_platform b' = 0.
Proof.
  split; [exact test_platform_ok|]. split; [simpl; lia|]. split; [reflexivity|].
  apply (Buffer_Reinitialize_data Utils.test_platform Utils.test_buffer
           ["001"%byte; "002"%byte; "003"%byte] 2 test_platform_ok);
    [simpl; lia | reflexivity].
Defined.

(** ** Comparing bytes in constant time *)

Lemma byte_value_range (b : byte) : 0 <= Utils.byte_value b < 2 ^ 8.
Proof.
  unfold Utils.byte_value. pose proof (Byte.to_N_bounded b).
  change (2 ^ 8) with 256. lia.
Qed.

Lemma byte_value_inj (b1 b2 : byte) :
  Utils.byte_value b1 = Utils.byte_value b2 -> b1 = b2.
Proof.
  unfold Utils.byte_value. intros Heq. apply N2Z.inj in Heq.
  pose proof (Byte.of_to_N b1) as H1. rewrite Heq, Byte.of_to_N in H1.
  congruence.
Qed.

Lemma log2_uint8 (a : Z) : 0 <= a -> (a < 2 ^ 8 <-> Z.log2 a < 8).
Proof.
  intros Ha. destruct (Z.eq_dec a 0) as [->|Hne].
  - split; intros _; reflexivity.
  - apply Z.log2_lt_pow2. lia.
Qed.

(** One step of the accumulator stays a [uint8_t] and is zero only when the
    accumulator was zero and the two bytes are equal. *)
Lemma memcmp_s_step (result : Z) (b1 b2 : byte) :
  0 <= result < 2 ^ 8 ->
  let result' :=
    Z.lor result (Z.lxor (Utils.byte_value b1) (Utils.byte_value b2)) mod 2 ^ 8 in
  0 <= result' < 2 ^ 8 /\ (result' = 0 <-> result = 0 /\ b1 = b2).
Proof.
  intros Hr result'.
  pose proof (byte_value_range b1) as H1. pose proof (byte_value_range b2) as H2.
  assert (Hx : 0 <= Z.lxor (Utils.byte_value b1) (Utils.byte_value b2) < 2 ^ 8).
  { assert (Hnn : 0 <= Z.lxor (Utils.byte_value b1) (Utils.byte_value b2))
      by (apply Z.lxor_nonneg; lia).
    split; [exact Hnn|]. apply log2_uint8; [exact Hnn|].
    pose proof (Z.log2_lxor (Utils.byte_value b1) (Utils.byte_value b2)
                  ltac:(lia) ltac:(lia)).
    pose proof (proj1 (log2_uint8 _ (proj1 H1)) (proj2 H1)).
    pose proof (proj1 (log2_uint8 _ (proj1 H2)) (proj2 H2)). lia. }
  assert (Ho : 0 <= Z.lor result (Z.lxor (Utils.byte_value b1) (Utils.byte_value b2))
               < 2 ^ 8).
  { assert (Hnn : 0 <= Z.lor result
                         (Z.lxor (Utils.byte_value b1) (Utils.byte_value b2)))
      by (apply Z.lor_nonneg; lia).
    split; [exact Hnn|]. apply log2_uint8; [exact Hnn|].
    rewrite Z.log2_lor by lia.
    pose proof (proj1 (log2_uint8 _ (proj1 Hr)) (proj2 Hr)).
    pose proof (proj1 (log2_uint8 _ (proj1 Hx)) (proj2 Hx)). lia. }
  subst result'. rewrite Z.mod_small by exact Ho.
  split; [exact Ho|].
  rewrite Z.lor_eq_0_iff, Z.lxor_eq_0_iff.
  split; intros [Hz Heq]; (split; [exact Hz|]).
  - apply byte_value_inj, Heq.
  - rewrite Heq. reflexivity.
Qed.

Lemma memcmp_s_loop_spec (s1 s2 : list byte) (n : nat) (result : Z) :
  (n <= length s1)%nat -> (n <= length s2)%nat ->
  0 <= result < 2 ^ 8 ->
  exists result',
    Utils.memcmp_s_loop s1 s2 n result = Some result' /\
    (result' = 0 <-> result = 0 /\ take n s1 = take n s2).
Proof.
  revert s1 s2 result.
  induction n as [|n IH]; intros s1 s2 result H1 H2 Hr.
  - exists result. split; [reflexivity|]. rewrite !take_0. tauto.
  - destruct s1 as [|b1 s1]; [simpl in H1; lia|].
    destruct s2 as [|b2 s2]; [simpl in H2; lia|].
    simpl in H1, H2.
    destruct (memcmp_s_step result b1 b2 Hr) as [Hr' Hzero].
    destruct (IH s1 s2 _ ltac:(lia) ltac:(lia) Hr') as (result' & Hloop & Hres).
    exists result'. split; [exact Hloop|].
    rewrite Hres, Hzero. simpl.
    split.
    + intros [[Hz ->] ->]. split; [exact Hz|reflexivity].
    + intros [Hz [= -> ->]]. auto.
Qed.

(** X6.  [memcmp_s] on two arrays of at least [length] bytes returns 0 when
    their first [length] bytes are equal and 1 otherwise. *)
Theorem memcmp_s_zero_iff_equal (p1 p2 : list byte) (n : nat) :
  (n <= length p1)%nat -> (n <= length p2)%nat ->
  Utils.memcmp_s p1 p2 n =
  Some (if bool_decide (take n p1 = take n p2) then 0 else 1).
Proof.
  intros H1 H2. unfold Utils.memcmp_s.
  destruct (memcmp_s_loop_spec p1 p2 n 0 H1 H2 ltac:(lia))
    as (result & -> & Hres).
  simpl. f_equal.
  destruct (Z.eqb_spec result 0) as [Hz|Hnz].
  - rewrite bool_decide_eq_true_2; [reflexivity|]. apply Hres, Hz.
  - rewrite bool_decide_eq_false_2; [reflexivity|].
    intros Heq. apply Hnz, Hres. auto.
Qed.

Lemma memcmp_s_zero_iff_equal_witness :
  (2 <= length ["001"%byte; "002"%byte; "003"%byte])%nat /\
  (2 <= length ["001"%byte; "002"%byte; "004"%byte])%nat /\
  Utils.memcmp_s ["001"%byte; "002"%byte; "003"%byte]
    ["001"%byte; "002"%byte; "004"%byte] 2 =
  Some (if bool_decide (take 2 ["001"%byte; "002"%byte; "003"%byte] =
                        take 2 ["001"%byte; "002"%byte; "004"%byte])
        then 0 else 1).
Proof.
  split; [simpl; lia|]. split; [simpl; lia|].
  apply (memcmp_s_zero_iff_equal ["001"%byte; "002"%byte; "003"%byte]
           ["001"%byte; "002"%byte; "004"%byte] 2); simpl; lia.
Defined.

(** ** RSA key generation *)

Lemma to_int32_small (z : Z) : z < 2 ^ 31 -> to_int32 z = z.
Proof.
  intros Hz. unfold to_int32. by destruct (Z.ltb_spec z (2 ^ 31)); [|lia].
Qed.

Lemma BN_set_word_small (ssl : RsaKey.OpenSSL) (w : Z) :
  0 <= w < 2 ^ RsaKey.BN_BITS2 ssl -> RsaKey.BN_set_word ssl w = w.
Proof. intros Hw. unfold RsaKey.BN_set_word. by apply Z.mod_small. Qed.

(** X7.  A key that [RsaKey::GenerateKey] hands back carries the
    description followed by the defaults for the tags it lacks (public
    exponent 65537, then key size 2048).  It was generated for the key size
    its authorizations name, converted to [int], and for the exponent they
    name, cut down to one [BN_ULONG] by [BN_set_word]; these are the named
    values themselves when the key size is below 2^31 and the exponent fits
    a [BN_ULONG]. *)
Theorem RsaKey_GenerateKey_authorizations (ssl : RsaKey.OpenSSL)
    (lib : RsaGenerate.Library) (key_description : AuthorizationSet)
    (key : RsaKey.RsaKey) :
  RsaGenerate.GenerateKey ssl lib key_description = GoogleKeymaster.Returns (inr key) ->
  let public_exponent :=
    default 65537 (GetTagValue KM_TAG_RSA_PUBLIC_EXPONENT key_description) in
  let key_size := default 2048 (GetTagValue KM_TAG_KEY_SIZE key_description) in
  RsaKey.authorizations key =
    key_description ++
    match GetTagValue KM_TAG_RSA_PUBLIC_EXPONENT key_description with
    | Some _ => []
    | None => [Authorization KM_TAG_RSA_PUBLIC_EXPONENT 65537]
    end ++
    match GetTagValue KM_TAG_KEY_SIZE key_description with
    | Some _ => []
    | None => [Authorization KM_TAG_KEY_SIZE 2048]
    end /\
  GetTagValue KM_TAG_RSA_PUBLIC_EXPONENT (RsaKey.authorizations key) =
    Some public_exponent /\
  GetTagValue KM_TAG_KEY_SIZE (RsaKey.authorizations key) = Some key_size /\
  RsaGenerate.RSA_generate_key_ex lib (to_int32 key_size)
    (RsaKey.BN_set_word ssl public_exponent) = Some (RsaKey.rsa_key_ key) /\
  (key_size < 2 ^ 31 -> 0 <= public_exponent < 2 ^ RsaKey.BN_BITS2 ssl ->
   RsaGenerate.RSA_generate_key_ex lib key_size public_exponent =
   Some (RsaKey.rsa_key_ key)).
Proof.
  intros Hgen. unfold RsaGenerate.GenerateKey in Hgen.
  destruct (GetTagValue KM_TAG_RSA_PUBLIC_EXPONENT key_description)
    as [e|] eqn:Hexp;
    [|rewrite GetTagValue_push_back_other in Hgen by discriminate];
    destruct (GetTagValue KM_TAG_KEY_SIZE key_description) as [s|] eqn:Hsize;
    destruct (negb (RsaGenerate.RSA_new_ok lib) ||
              negb (RsaGenerate.EVP_PKEY_new_ok lib)); try discriminate;
    destruct (negb (RsaGenerate.BN_new_ok lib)); try discriminate;
    destruct (negb (RsaKey.BN_set_word_ok ssl)); try discriminate;
    destruct (RsaGenerate.RSA_generate_key_ex lib _ _) as [rsa_key|] eqn:Hrsa;
    try discriminate;
    destruct (RsaGenerate.new_RsaKey_ok lib); try discriminate;
    injection Hgen as <-; simpl;
    (split; [unfold push_back; rewrite ?app_nil_r, <- ?app_assoc; reflexivity|]);
    (split; [|split; [|split; [exact Hrsa|]]]);
    try (unfold push_back; rewrite ?GetTagValue_app, ?Hexp, ?Hsize; reflexivity);
    intros Hint Hword;
    rewrite to_int32_small in Hrsa by exact Hint;
    rewrite BN_set_word_small in Hrsa by exact Hword; exact Hrsa.
Qed.

(** The exponent of the authorizations and the exponent of the key differ
    when the exponent does not fit a [BN_ULONG]: with 32-bit words the
    exponent 2^32 + 3 generates a key with exponent 3. *)
Example RsaKey_GenerateKey_exponent_cut_down :
  RsaGenerate.GenerateKey {| RsaKey.BN_BITS2 := 32; RsaKey.BN_set_word_ok := true |}
    RsaGenerate.ideal
    [Authorization KM_TAG_RSA_PUBLIC_EXPONENT 4294967299;
     Authorization KM_TAG_KEY_SIZE 256] =
  GoogleKeymaster.Returns
    (inr {| RsaKey.rsa_key_ := {| RsaKey.rsa_n := 2 ^ 255 + 1; RsaKey.rsa_e := 3 |};
            RsaKey.authorizations :=
              [Authorization KM_TAG_RSA_PUBLIC_EXPONENT 4294967299;
               Authorization KM_TAG_KEY_SIZE 256] |}).
Proof. reflexivity. Qed.

Lemma RsaKey_GenerateKey_authorizations_witness :
  RsaGenerate.GenerateKey RsaGenerate.ssl64 RsaGenerate.ideal
    [Authorization KM_TAG_ALGORITHM KM_ALGORITHM_RSA;
     Authorization KM_TAG_KEY_SIZE 256] =
  GoogleKeymaster.Returns
    (inr {| RsaKey.rsa_key_ := {| RsaKey.rsa_n := 2 ^ 255 + 1; RsaKey.rsa_e := 65537 |};
            RsaKey.authorizations :=
              [Authorization KM_TAG_ALGORITHM KM_ALGORITHM_RSA;
               Authorization KM_TAG_KEY_SIZE 256;
               Authorization KM_TAG_RSA_PUBLIC_EXPONENT 65537] |}) /\
  GetTagValue KM_TAG_RSA_PUBLIC_EXPONENT
    [Authorization KM_TAG_ALGORITHM KM_ALGORITHM_RSA;
     Authorization KM_TAG_KEY_SIZE 256;
     Authorization KM_TAG_RSA_PUBLIC_EXPONENT 65537] = Some 65537.
Proof.
  split; [reflexivity|].
  exact (proj1 (proj2 (RsaKey_GenerateKey_authorizations RsaGenerate.ssl64
                         RsaGenerate.ideal
                         [Authorization KM_TAG_ALGORITHM KM_ALGORITHM_RSA;
                          Authorization KM_TAG_KEY_SIZE 256] _ eq_refl))).
Defined.

(** ** ECDSA import *)

Lemma EcdsaKeyFactory_group_size_tables (ssl : Ec.OpenSSL) (size : Z)
    (group : Ec.EC_GROUP) :
  (EcdsaKeyFactory.choose_group ssl size = Some group ->
   EcdsaKeyFactory.get_group_size group = inr size) /\
  (EcdsaKeyFactory.get_group_size group = inr size ->
   Ec.EC_GROUP_new_ok ssl (Ec.curve_name group) = true ->
   EcdsaKeyFactory.choose_group ssl size = Some group).
Proof.
  unfold EcdsaKeyFactory.choose_group, EcdsaKeyFactory.get_group_size,
    Ec.EC_GROUP_new_by_curve_name.
  split.
  - destruct (Z.eqb_spec size 224) as [->|_];
      [|destruct (Z.eqb_spec size 256) as [->|_];
        [|destruct (Z.eqb_spec size 384) as [->|_];
          [|destruct (Z.eqb_spec size 521) as [->|_]; [|discriminate]]]];
      (destruct (Ec.EC_GROUP_new_ok ssl _); [|discriminate]);
      intros [= <-]; reflexivity.
  - destruct group as [[]]; simpl; intros [= <-] ->; reflexivity.
Qed.

(** X8.  The two curve tables of [EcdsaKeyFactory] agree: a group that
    [choose_group] hands out for a key size has that size according to
    [get_group_size], and [choose_group] hands out every group that has a
    size, as long as the library can allocate it. *)
Theorem EcdsaKeyFactory_group_size_round_trip (ssl : Ec.OpenSSL) (size : Z)
    (group : Ec.EC_GROUP) :
  (EcdsaKeyFactory.choose_group ssl size = Some group ->
   EcdsaKeyFactory.get_group_size group = inr size) /\
  (EcdsaKeyFactory.get_group_size group = inr size ->
   Ec.EC_GROUP_new_ok ssl (Ec.curve_name group) = true ->
   EcdsaKeyFactory.choose_group ssl size = Some group).
Proof. apply EcdsaKeyFactory_group_size_tables. Qed.

Lemma EcdsaKeyFactory_group_size_round_trip_witness :
  EcdsaKeyFactory.choose_group Ec.ideal 384 = Some {| Ec.curve_name := Ec.NID_secp384r1 |} /\
  EcdsaKeyFactory.get_group_size {| Ec.curve_name := Ec.NID_secp384r1 |} = inr 384.
Proof.
  split; [reflexivity|].
  exact (proj1 (EcdsaKeyFactory_group_size_round_trip Ec.ideal 384
                  {| Ec.curve_name := Ec.NID_secp384r1 |}) eq_refl).
Defined.

(** X9.  A key that [EcdsaKeyFactory::ImportKey] hands back is the parsed
    key, and its authorizations are the description followed by the tags it
    lacks; they name the size of the key's curve and the ECDSA algorithm. *)
Theorem EcdsaKeyFactory_ImportKey_consistent
    (ExtractEvpKey : Z -> list byte -> result (option Ec.EC_KEY))
    (key_description : AuthorizationSet) (key_format : Z) (key_data : list byte)
    (key : Ec.EcdsaKey) :
  EcdsaKeyFactory.ImportKey ExtractEvpKey key_description key_format key_data = inr key ->
  exists size,
    ExtractEvpKey key_format key_data = inr (Some (Ec.ecdsa_key_ key)) /\
    EcdsaKeyFactory.get_group_size (Ec.ec_group (Ec.ecdsa_key_ key)) = inr size /\
    GetTagValue KM_TAG_KEY_SIZE (Ec.authorizations key) = Some size /\
    GetTagValue KM_TAG_ALGORITHM (Ec.authorizations key) = Some KM_ALGORITHM_ECDSA /\
    Ec.authorizations key =
      key_description ++
      match GetTagValue KM_TAG_KEY_SIZE key_description with
      | Some _ => []
      | None => [Authorization KM_TAG_KEY_SIZE size]
      end ++
      match GetTagValue KM_TAG_ALGORITHM key_description with
      | Some _ => []
      | None => [Authorization KM_TAG_ALGORITHM KM_ALGORITHM_ECDSA]
      end.
Proof.
  intros Himport. unfold EcdsaKeyFactory.ImportKey in Himport.
  destruct (ExtractEvpKey key_format key_data) as [|[ecdsa_key|]] eqn:Hextract;
    try discriminate.
  destruct (EcdsaKeyFactory.get_group_size (Ec.ec_group ecdsa_key))
    as [|size] eqn:Hgroup; [discriminate|].
  exists size.
  destruct (GetTagValue KM_TAG_KEY_SIZE key_description) as [s|] eqn:Hsize;
    [destruct (Z.eqb_spec s size) as [->|]; [|discriminate]|];
    simpl in Himport;
    [|rewrite GetTagValue_push_back_other in Himport by discriminate];
    destruct (GetTagValue KM_TAG_ALGORITHM key_description) as [a|] eqn:Halg;
    try (destruct (decide (a = KM_ALGORITHM_ECDSA)) as [->|Hne];
         [|rewrite bool_decide_eq_false_2 in Himport by exact Hne; discriminate]);
    simpl in Himport; injection Himport as <-; simpl;
    (split; [reflexivity|]); (split; [exact Hgroup|]);
    unfold push_back; rewrite ?GetTagValue_app, ?Hsize, ?Halg, ?app_nil_r;
    rewrite <- ?app_assoc; repeat split; reflexivity.
Qed.

Lemma EcdsaKeyFactory_ImportKey_consistent_witness :
  EcdsaKeyFactory.ImportKey
    (fun _ _ =>
       inr (Some {| Ec.ec_group := {| Ec.curve_name := Ec.NID_X9_62_prime256v1 |};
                    Ec.ec_priv_key := 7 |}))
    [Authorization KM_TAG_KEY_SIZE 256] 1 [] =
  inr {| Ec.ecdsa_key_ :=
           {| Ec.ec_group := {| Ec.curve_name := Ec.NID_X9_62_prime256v1 |};
              Ec.ec_priv_key := 7 |};
         Ec.authorizations :=
           [Authorization KM_TAG_KEY_SIZE 256;
            Authorization KM_TAG_ALGORITHM KM_ALGORITHM_ECDSA] |} /\
  exists size,
    EcdsaKeyFactory.get_group_size {| Ec.curve_name := Ec.NID_X9_62_prime256v1 |} =
      inr size /\
    GetTagValue KM_TAG_KEY_SIZE
      [Authorization KM_TAG_KEY_SIZE 256;
       Authorization KM_TAG_ALGORITHM KM_ALGORITHM_ECDSA] = Some size.
Proof.
  split; [reflexivity|].
  destruct (EcdsaKeyFactory_ImportKey_consistent
              (fun _ _ =>
                 inr (Some {| Ec.ec_group :=
                                {| Ec.curve_name := Ec.NID_X9_62_prime256v1 |};
                              Ec.ec_priv_key := 7 |}))
              [Authorization KM_TAG_KEY_SIZE 256] 1 [] _ eq_refl)
    as (size & _ & Hgroup & Hsize & _).
  exists size. split; [exact Hgroup | exact Hsize].
Defined.

(** What a successful [EcdsaKeyFactory::GenerateKey] has done. *)
Lemma EcdsaKeyFactory_GenerateKey_inv (ssl : Ec.OpenSSL)
    (key_description : AuthorizationSet) (key : Ec.EcdsaKey) :
  EcdsaKeyFactory.GenerateKey ssl key_description = inr key ->
  let size := default 224 (GetTagValue KM_TAG_KEY_SIZE key_description) in
  EcdsaKeyFactory.choose_group ssl size = Some (Ec.ec_group (Ec.ecdsa_key_ key)) /\
  GetTagValue KM_TAG_KEY_SIZE (Ec.authorizations key) = Some size /\
  Ec.authorizations key =
    key_description ++
    match GetTagValue KM_TAG_KEY_SIZE key_description with
    | Some _ => []
    | None => [Authorization KM_TAG_KEY_SIZE 224]
    end.
Proof.
  intros Hgen. unfold EcdsaKeyFactory.GenerateKey in Hgen.
  destruct (GetTagValue KM_TAG_KEY_SIZE key_description) as [s|] eqn:Hsize;
    destruct (negb (Ec.EC_KEY_new_ok ssl) || negb (Ec.EVP_PKEY_new_ok ssl));
    try discriminate;
    destruct (EcdsaKeyFactory.choose_group ssl _) as [group|] eqn:Hgroup;
    try discriminate;
    destruct (Ec.EC_KEY_generate_key ssl group) as [generated priv_key];
    destruct (_ || _); try discriminate;
    destruct (Ec.new_EcdsaKey_ok ssl); try discriminate;
    injection Hgen as <-; simpl;
    (split; [exact Hgroup|]); split;
    rewrite ?app_nil_r; try done.
  exact (GetTagValue_push_back_absent KM_TAG_KEY_SIZE 224 _ Hsize).
Qed.

(** X10.  Generate, then import: a key from [EcdsaKeyFactory::GenerateKey]
    whose description names no other algorithm than ECDSA is accepted by
    [ImportKey] with the authorizations it was generated with, whenever the
    parser hands back its key; the imported key has the same authorizations,
    followed by the algorithm if the description lacked it. *)
Theorem EcdsaKeyFactory_generate_then_import (ssl : Ec.OpenSSL)
    (ExtractEvpKey : Z -> list byte -> result (option Ec.EC_KEY))
    (key_description : AuthorizationSet) (key_format : Z) (key_data : list byte)
    (key : Ec.EcdsaKey) :
  EcdsaKeyFactory.GenerateKey ssl key_description = inr key ->
  ExtractEvpKey key_format key_data = inr (Some (Ec.ecdsa_key_ key)) ->
  (forall algorithm,
     GetTagValue KM_TAG_ALGORITHM key_description = Some algorithm ->
     algorithm = KM_ALGORITHM_ECDSA) ->
  EcdsaKeyFactory.ImportKey ExtractEvpKey (Ec.authorizations key) key_format key_data =
  inr {| Ec.ecdsa_key_ := Ec.ecdsa_key_ key;
         Ec.authorizations :=
           Ec.authorizations key ++
           match GetTagValue KM_TAG_ALGORITHM key_description with
           | Some _ => []
           | None => [Authorization KM_TAG_ALGORITHM KM_ALGORITHM_ECDSA]
           end |}.
Proof.
  intros Hgen Hextract Halg.
  destruct (EcdsaKeyFactory_GenerateKey_inv ssl key_description key Hgen)
    as (Hgroup & Hsize & Hauths).
  apply (proj1 (EcdsaKeyFactory_group_size_tables ssl _ _)) in Hgroup.
  unfold EcdsaKeyFactory.ImportKey. rewrite Hextract, Hgroup, Hsize.
  rewrite Z.eqb_refl. simpl.
  assert (Hlookup : GetTagValue KM_TAG_ALGORITHM (Ec.authorizations key) =
                    GetTagValue KM_TAG_ALGORITHM key_description).
  { rewrite Hauths, GetTagValue_app.
    destruct (GetTagValue KM_TAG_ALGORITHM key_description); [reflexivity|].
    destruct (GetTagValue KM_TAG_KEY_SIZE key_description); reflexivity. }
  rewrite Hlookup.
  destruct (GetTagValue KM_TAG_ALGORITHM key_description) as [algorithm|].
  - rewrite (Halg algorithm eq_refl).
    rewrite bool_decide_eq_true_2 by reflexivity. simpl.
    rewrite app_nil_r. reflexivity.
  - reflexivity.
Qed.

Lemma EcdsaKeyFactory_generate_then_import_witness :
  EcdsaKeyFactory.GenerateKey Ec.ideal [Authorization KM_TAG_KEY_SIZE 256] =
  inr {| Ec.ecdsa_key_ :=
           {| Ec.ec_group := {| Ec.curve_name := Ec.NID_X9_62_prime256v1 |};
              Ec.ec_priv_key := 7 |};
         Ec.authorizations := [Authorization KM_TAG_KEY_SIZE 256] |} /\
  EcdsaKeyFactory.ImportKey
    (fun _ _ =>
       inr (Some {| Ec.ec_group := {| Ec.curve_name := Ec.NID_X9_62_prime256v1 |};
                    Ec.ec_priv_key := 7 |}))
    [Authorization KM_TAG_KEY_SIZE 256] 1 [] =
  inr {| Ec.ecdsa_key_ :=
           {| Ec.ec_group := {| Ec.curve_name := Ec.NID_X9_62_prime256v1 |};
              Ec.ec_priv_key := 7 |};
         Ec.authorizations :=
           [Authorization KM_TAG_KEY_SIZE 256;
            Authorization KM_TAG_ALGORITHM KM_ALGORITHM_ECDSA] |}.
Proof.
  split; [reflexivity|].
  apply (EcdsaKeyFactory_generate_then_import Ec.ideal
           (fun _ _ =>
              inr (Some {| Ec.ec_group :=
                             {| Ec.curve_name := Ec.NID_X9_62_prime256v1 |};
                           Ec.ec_priv_key := 7 |}))
           [Authorization KM_TAG_KEY_SIZE 256] 1 []
           {| Ec.ecdsa_key_ :=
                {| Ec.ec_group := {| Ec.curve_name := Ec.NID_X9_62_prime256v1 |};
                   Ec.ec_priv_key := 7 |};
              Ec.authorizations := [Authorization KM_TAG_KEY_SIZE 256] |}
           eq_refl eq_refl).
  intros algorithm. discriminate.
Defined.

(** ** HMAC: digests, verification, signing and verifying *)

Lemma supported_digests_md (digest : keymaster_digest_t) :
  digest ∈ HmacOperationFactory.supported_digests <-> Hmac.digest_md digest <> None.
Proof.
  unfold HmacOperationFactory.supported_digests.
  rewrite !elem_of_cons, elem_of_nil.
  destruct digest; simpl; split; try congruence; try tauto;
    intros H; repeat (destruct H as [H|H]; try discriminate); done.
Qed.

(** X11.  The digests [SupportedDigests] advertises are the ones an HMAC
    operation can begin with: for a MAC length that is a multiple of 8 and
    with memory for the operation, [CreateOperation] followed by [Begin]
    succeeds when the key's [DIGEST] is in the list, and fails with
    [UNSUPPORTED_DIGEST] when it is not or the key has none. *)
Theorem Hmac_supported_digests_begin (ssl : Hmac.OpenSSL)
    (purpose : keymaster_purpose_t) (key : Hmac.SymmetricKey)
    (begin_params : AuthorizationSet) :
  Hmac.new_HmacOperation_ok ssl = true ->
  default 0 (GetTagValue KM_TAG_MAC_LENGTH begin_params) mod 8 = 0 ->
  let digest :=
    default KM_DIGEST_NONE (GetTagValue KM_TAG_DIGEST (Hmac.authorizations key)) in
  (digest ∈ HmacOperationFactory.supported_digests ->
   exists md,
     Hmac.digest_md digest = Some md /\
     Hmac.BeginOperation ssl purpose key begin_params =
     inr {| Hmac.purpose := purpose; Hmac.error_ := KM_ERROR_OK;
            Hmac.tag_length_ :=
              default 0 (GetTagValue KM_TAG_MAC_LENGTH begin_params) / 8;
            Hmac.ctx_ := Some {| Hmac.ctx_md := md;
                                 Hmac.ctx_key := Hmac.key_data key;
                                 Hmac.ctx_data := [] |} |}) /\
  (digest ∉ HmacOperationFactory.supported_digests ->
   Hmac.BeginOperation ssl purpose key begin_params = inl KM_ERROR_UNSUPPORTED_DIGEST).
Proof.
  intros Hnew Hlen digest.
  unfold Hmac.BeginOperation, Hmac.CreateOperation, Hmac.HmacOperation_new, Hmac.Begin.
  rewrite Hlen, Hnew. simpl. fold digest.
  rewrite (supported_digests_md digest).
  destruct (Hmac.digest_md digest) as [md|]; simpl.
  - split; [|intros Hn; exfalso; apply Hn; discriminate].
    intros _. exists md. split; reflexivity.
  - split; [intros Hn; exfalso; apply Hn; reflexivity|]. reflexivity.
Qed.

Lemma Hmac_supported_digests_begin_witness :
  Hmac.new_HmacOperation_ok Hmac.ideal = true /\
  default 0 (GetTagValue KM_TAG_MAC_LENGTH [Authorization KM_TAG_MAC_LENGTH 160]) mod 8 = 0 /\
  Hmac.BeginOperation Hmac.ideal KM_PURPOSE_SIGN
    {| Hmac.authorizations := [Authorization KM_TAG_DIGEST KM_DIGEST_MD5];
       Hmac.key_data := [] |}
    [Authorization KM_TAG_MAC_LENGTH 160] = inl KM_ERROR_UNSUPPORTED_DIGEST.
Proof.
  split; [reflexivity|]. split; [reflexivity|].
  apply (proj2 (Hmac_supported_digests_begin Hmac.ideal KM_PURPOSE_SIGN
                  {| Hmac.authorizations := [Authorization KM_TAG_DIGEST KM_DIGEST_MD5];
                     Hmac.key_data := [] |}
                  [Authorization KM_TAG_MAC_LENGTH 160] eq_refl eq_refl)).
  simpl. unfold HmacOperationFactory.supported_digests.
  rewrite !elem_of_cons, elem_of_nil.
  intros H. repeat (destruct H as [H|H]; try discriminate). exact H.
Defined.

Lemma Hmac_Finish_verify_spec (ssl : Hmac.OpenSSL) (op : Hmac.HmacOperation)
    (ctx : Hmac.HMAC_CTX) (mac signature : list byte) :
  Hmac.purpose op = KM_PURPOSE_VERIFY ->
  Hmac.ctx_ op = Some ctx ->
  Hmac.HMAC_Final ssl ctx = Some mac ->
  Hmac.Finish ssl op signature =
  (if bool_decide (length mac < length signature)%nat then KM_ERROR_INVALID_INPUT_LENGTH
   else if bool_decide (signature `prefix_of` mac) then KM_ERROR_OK
   else KM_ERROR_VERIFICATION_FAILED, []).
Proof.
  intros Hpurpose Hctx Hmac. unfold Hmac.Finish, Hmac.CRYPTO_memcmp.
  rewrite Hctx. simpl. rewrite Hmac, Hpurpose.
  destruct (Z.gtb_spec (Z.of_nat (length signature)) (Z.of_nat (length mac)))
    as [Hlong|Hshort].
  - rewrite (bool_decide_eq_true_2 (length mac < length signature)%nat) by lia.
    reflexivity.
  - rewrite (bool_decide_eq_false_2 (length mac < length signature)%nat) by lia.
    rewrite firstn_all.
    destruct (decide (signature = take (length signature) mac)) as [Heq|Hne].
    + rewrite (bool_decide_eq_true_2 (signature = _)) by exact Heq. simpl.
      rewrite (bool_decide_eq_true_2 (signature `prefix_of` mac)); [reflexivity|].
      rewrite Heq. apply prefix_take.
    + rewrite (bool_decide_eq_false_2 (signature = _)) by exact Hne. simpl.
      rewrite (bool_decide_eq_false_2 (signature `prefix_of` mac)); [reflexivity|].
      intros [rest ->]. apply Hne.
      rewrite take_app_length. reflexivity.
Qed.

(** X12.  [HmacOperation::Finish] of a verifying operation whose MAC is
    [mac] accepts exactly the prefixes of [mac], the empty signature among
    them and whatever [MAC_LENGTH] the operation was begun with: a longer
    signature gives [INVALID_INPUT_LENGTH], another one of at most that
    length [VERIFICATION_FAILED]. *)
Theorem Hmac_Finish_verify_prefix (ssl : Hmac.OpenSSL) (op : Hmac.HmacOperation)
    (ctx : Hmac.HMAC_CTX) (mac signature : list byte) :
  Hmac.purpose op = KM_PURPOSE_VERIFY ->
  Hmac.ctx_ op = Some ctx ->
  Hmac.HMAC_Final ssl ctx = Some mac ->
  Hmac.Finish ssl op signature =
  (if bool_decide (length mac < length signature)%nat then KM_ERROR_INVALID_INPUT_LENGTH
   else if bool_decide (signature `prefix_of` mac) then KM_ERROR_OK
   else KM_ERROR_VERIFICATION_FAILED, []).
Proof. apply Hmac_Finish_verify_spec. Qed.

Lemma Hmac_Finish_verify_prefix_witness :
  Hmac.Finish Hmac.ideal
    {| Hmac.purpose := KM_PURPOSE_VERIFY; Hmac.error_ := KM_ERROR_OK;
       Hmac.tag_length_ := 32;
       Hmac.ctx_ := Some {| Hmac.ctx_md := Hmac.EVP_sha256; Hmac.ctx_key := [];
                            Hmac.ctx_data := [] |} |} [] =
  (KM_ERROR_OK, []).
Proof.
  exact (Hmac_Finish_verify_prefix Hmac.ideal
           {| Hmac.purpose := KM_PURPOSE_VERIFY; Hmac.error_ := KM_ERROR_OK;
              Hmac.tag_length_ := 32;
              Hmac.ctx_ := Some {| Hmac.ctx_md := Hmac.EVP_sha256; Hmac.ctx_key := [];
                                   Hmac.ctx_data := [] |} |}
           _ _ [] eq_refl eq_refl eq_refl).
Defined.

(** What the updates that succeed leave of an operation; a failed update
    never reports [KM_ERROR_OK] (openssl_err.cpp has no such case). *)
Lemma Update_all_ctx (ssl : Hmac.OpenSSL) (chunks : list (list byte))
    (op op' : Hmac.HmacOperation) (ctx : Hmac.HMAC_CTX) :
  Hmac.TranslateLastOpenSslError ssl <> KM_ERROR_OK ->
  Hmac.ctx_ op = Some ctx ->
  HmacOperationFactory.Update_all ssl op chunks = (KM_ERROR_OK, op') ->
  Hmac.purpose op' = Hmac.purpose op /\
  Hmac.tag_length_ op' = Hmac.tag_length_ op /\
  Hmac.ctx_ op' =
    Some {| Hmac.ctx_md := Hmac.ctx_md ctx; Hmac.ctx_key := Hmac.ctx_key ctx;
            Hmac.ctx_data := Hmac.ctx_data ctx ++ concat chunks |}.
Proof.
  intros Herr. revert op ctx.
  induction chunks as [|input chunks IH]; intros op ctx Hctx Hall.
  - injection Hall as <-. simpl. rewrite app_nil_r, Hctx. by destruct ctx.
  - simpl in Hall. unfold Hmac.Update in Hall. rewrite Hctx in Hall.
    destruct (negb (Hmac.HMAC_Update_ok ssl ctx input)).
    + destruct (is_ok (Hmac.TranslateLastOpenSslError ssl)) eqn:Hok; simpl in Hall.
      * apply is_ok_true in Hok. contradiction.
      * injection Hall as Hall _. contradiction.
    + simpl in Hall.
      edestruct IH as (Hp & Ht & Hc); [|exact Hall|]; [reflexivity|].
      simpl in Hp, Ht, Hc.
      rewrite Hp, Ht, Hc, <- app_assoc. done.
Qed.

(** X13.  Signing and verifying agree: two operations created from one key,
    one to sign and one to verify, that have been fed the same message (cut
    into chunks in whatever way), where every update succeeded: the bytes
    the signing [Finish] puts out are accepted by the verifying [Finish]. *)
Theorem Hmac_sign_then_verify (ssl : Hmac.OpenSSL) (key : Hmac.SymmetricKey)
    (sign_params verify_params : AuthorizationSet)
    (sign_op verify_op sign_op' verify_op' : Hmac.HmacOperation)
    (sign_chunks verify_chunks : list (list byte)) (unused tag : list byte) :
  Hmac.TranslateLastOpenSslError ssl <> KM_ERROR_OK ->
  Hmac.CreateOperation ssl KM_PURPOSE_SIGN key sign_params = inr sign_op ->
  Hmac.CreateOperation ssl KM_PURPOSE_VERIFY key verify_params = inr verify_op ->
  HmacOperationFactory.Update_all ssl sign_op sign_chunks = (KM_ERROR_OK, sign_op') ->
  HmacOperationFactory.Update_all ssl verify_op verify_chunks = (KM_ERROR_OK, verify_op') ->
  concat sign_chunks = concat verify_chunks ->
  Hmac.Finish ssl sign_op' unused = (KM_ERROR_OK, tag) ->
  Hmac.Finish ssl verify_op' tag = (KM_ERROR_OK, []).
Proof.
  intros Herr Hsign Hverify Hsign_all Hverify_all Hmessage Hfinish.
  unfold Hmac.CreateOperation, Hmac.HmacOperation_new in Hsign, Hverify.
  destruct (negb (_ =? 0)) in Hsign; [discriminate|].
  destruct (negb (_ =? 0)) in Hverify; [discriminate|].
  destruct (Hmac.digest_md _) as [md|]; simpl in Hsign, Hverify.
  2: { destruct (Hmac.new_HmacOperation_ok ssl); discriminate. }
  destruct (Hmac.new_HmacOperation_ok ssl); [|discriminate].
  simpl in Hsign, Hverify.
  injection Hsign as <-. injection Hverify as <-.
  edestruct (Update_all_ctx ssl sign_chunks) as (Hsp & _ & Hsc);
    [exact Herr| |exact Hsign_all|]; [reflexivity|].
  edestruct (Update_all_ctx ssl verify_chunks) as (Hvp & _ & Hvc);
    [exact Herr| |exact Hverify_all|]; [reflexivity|].
  simpl in Hsp, Hsc, Hvp, Hvc. rewrite Hmessage in Hsc.
  unfold Hmac.Finish in Hfinish. rewrite Hsc, Hsp in Hfinish. simpl in Hfinish.
  destruct (Hmac.HMAC_Final ssl _) as [mac|] eqn:Hmac.
  2: { injection Hfinish as Hfinish _. contradiction. }
  destruct (Hmac.tag_length_ sign_op' >? Z.of_nat (length mac)); [discriminate|].
  destruct (negb (Hmac.reserve_ok ssl)); [discriminate|].
  injection Hfinish as <-.
  rewrite (Hmac_Finish_verify_spec ssl verify_op' _ mac _ Hvp Hvc Hmac).
  rewrite (bool_decide_eq_false_2 (length mac < _)%nat)
    by (rewrite length_take; lia).
  rewrite (bool_decide_eq_true_2 (_ `prefix_of` mac)) by apply prefix_take.
  reflexivity.
Qed.

Lemma Hmac_sign_then_verify_witness :
  Hmac.Finish Hmac.ideal
    {| Hmac.purpose := KM_PURPOSE_VERIFY; Hmac.error_ := KM_ERROR_OK;
       Hmac.tag_length_ := 0;
       Hmac.ctx_ :=
         Some {| Hmac.ctx_md := Hmac.EVP_sha256;
                 Hmac.ctx_key := Hmac.key_data Hmac.hmac_sha256_key;
                 Hmac.ctx_data := ["001"%byte; "002"%byte; "003"%byte] |} |}
    (replicate 20 "000"%byte) =
  (KM_ERROR_OK, []).
Proof.
  apply (Hmac_sign_then_verify Hmac.ideal Hmac.hmac_sha256_key
           [Authorization KM_TAG_MAC_LENGTH 160] []
           {| Hmac.purpose := KM_PURPOSE_SIGN; Hmac.error_ := KM_ERROR_OK;
              Hmac.tag_length_ := 20;
              Hmac.ctx_ :=
                Some {| Hmac.ctx_md := Hmac.EVP_sha256;
                        Hmac.ctx_key := Hmac.key_data Hmac.hmac_sha256_key;
                        Hmac.ctx_data := [] |} |}
           {| Hmac.purpose := KM_PURPOSE_VERIFY; Hmac.error_ := KM_ERROR_OK;
              Hmac.tag_length_ := 0;
              Hmac.ctx_ :=
                Some {| Hmac.ctx_md := Hmac.EVP_sha256;
                        Hmac.ctx_key := Hmac.key_data Hmac.hmac_sha256_key;
                        Hmac.ctx_data := [] |} |}
           {| Hmac.purpose := KM_PURPOSE_SIGN; Hmac.error_ := KM_ERROR_OK;
              Hmac.tag_length_ := 20;
              Hmac.ctx_ :=
                Some {| Hmac.ctx_md := Hmac.EVP_sha256;
                        Hmac.ctx_key := Hmac.key_data Hmac.hmac_sha256_key;
                        Hmac.ctx_data := ["001"%byte; "002"%byte; "003"%byte] |} |}
           _
           [["001"%byte]; ["002"%byte; "003"%byte]]
           [["001"%byte; "002"%byte]; ["003"%byte]] []);
    [discriminate | reflexivity | reflexivity | reflexivity | reflexivity
    | reflexivity | reflexivity].
Defined.

(** ** Authorizations of a new key, for any implementation *)

Section AnyImplementation.

Context {Rand : Type}.
Variable self : GoogleKeymaster.Implementation Rand.

Abbreviation shown := (fun auth => GoogleKeymaster.hidden auth = false).
Abbreviation to_enforced :=
  (fun auth => GoogleKeymaster.is_enforced self (tag auth) = true).
Abbreviation to_unenforced :=
  (fun auth => GoogleKeymaster.is_enforced self (tag auth) = false).
Abbreviation stamps origin now :=
  [Authorization KM_TAG_CREATION_DATETIME (now * 1000);
   Authorization KM_TAG_ORIGIN origin].

Lemma AddAuthorization_filter (auth : keymaster_key_param_t)
    (enforced unenforced : AuthorizationSet) :
  GoogleKeymaster.AddAuthorization self auth enforced unenforced =
  (enforced ++ filter to_enforced [auth], unenforced ++ filter to_unenforced [auth]).
Proof.
  unfold GoogleKeymaster.AddAuthorization, push_back.
  destruct (GoogleKeymaster.is_enforced self (tag auth)) eqn:Henf.
  - rewrite (filter_cons_True to_enforced) by exact Henf.
    rewrite (filter_cons_False to_unenforced) by (simpl; congruence).
    by rewrite !filter_nil, app_nil_r.
  - rewrite (filter_cons_False to_enforced) by (simpl; congruence).
    rewrite (filter_cons_True to_unenforced) by exact Henf.
    by rewrite !filter_nil, app_nil_r.
Qed.

(** One turn of the loop, by the case of the [switch] the tag falls in. *)
Lemma SetAuthorizations_loop_step (auth : keymaster_key_param_t)
    (rest enforced unenforced : AuthorizationSet) :
  GoogleKeymaster.SetAuthorizations_loop self (auth :: rest) enforced unenforced =
  if GoogleKeymaster.client_forbidden auth
  then (KM_ERROR_INVALID_TAG, enforced, unenforced)
  else if GoogleKeymaster.unsupported auth
  then (KM_ERROR_UNSUPPORTED_TAG, enforced, unenforced)
  else
    GoogleKeymaster.SetAuthorizations_loop self rest
      (enforced ++ filter to_enforced (filter shown [auth]))
      (unenforced ++ filter to_unenforced (filter shown [auth])).
Proof.
  destruct auth as [t v].
  destruct t; simpl; rewrite ?app_nil_r; try reflexivity;
    rewrite AddAuthorization_filter; reflexivity.
Qed.

(** The loop copies the authorizations that come before the first refused
    one, the hidden ones apart, each to the set [is_enforced] names. *)
Lemma SetAuthorizations_loop_partition (key_description enforced unenforced : AuthorizationSet) :
  exists error pre post,
    key_description = pre ++ post /\
    GoogleKeymaster.SetAuthorizations_loop self key_description enforced unenforced =
    (error, enforced ++ filter to_enforced (filter shown pre),
     unenforced ++ filter to_unenforced (filter shown pre)) /\
    Forall (fun auth => GoogleKeymaster.client_forbidden auth = false /\
                        GoogleKeymaster.unsupported auth = false) pre /\
    (error = KM_ERROR_OK -> post = []) /\
    (error = KM_ERROR_OK \/ error = KM_ERROR_INVALID_TAG \/
     error = KM_ERROR_UNSUPPORTED_TAG).
Proof.
  revert enforced unenforced.
  induction key_description as [|auth rest IH]; intros enforced unenforced.
  - exists KM_ERROR_OK, [], []. simpl. rewrite !app_nil_r.
    split; [reflexivity|]. split; [reflexivity|]. split; [constructor|].
    split; [reflexivity|]. left. reflexivity.
  - rewrite SetAuthorizations_loop_step.
    destruct (GoogleKeymaster.client_forbidden auth) eqn:Hforbidden.
    { exists KM_ERROR_INVALID_TAG, [], (auth :: rest). simpl. rewrite !app_nil_r.
      split; [reflexivity|]. split; [reflexivity|]. split; [constructor|].
      split; [discriminate|]. right. left. reflexivity. }
    destruct (GoogleKeymaster.unsupported auth) eqn:Hunsupported.
    { exists KM_ERROR_UNSUPPORTED_TAG, [], (auth :: rest). simpl. rewrite !app_nil_r.
      split; [reflexivity|]. split; [reflexivity|]. split; [constructor|].
      split; [discriminate|]. right. right. reflexivity. }
    destruct (IH (enforced ++ filter to_enforced (filter shown [auth]))
                 (unenforced ++ filter to_unenforced (filter shown [auth])))
      as (error & pre & post & -> & Hloop & Hpre & Hok & Herror).
    exists error, (auth :: pre), post. split; [reflexivity|].
    split; [|split; [by constructor|by split]].
    rewrite Hloop, <- !app_assoc.
    rewrite <- !(list.filter_app _ (filter shown [auth]) (filter shown pre)).
    rewrite <- !(list.filter_app shown [auth] pre). reflexivity.
Qed.

Lemma SetAuthorizations_spec (key_description : AuthorizationSet)
    (origin : keymaster_key_origin_t) (now : Z) :
  exists error pre post,
    key_description = pre ++ post /\
    Forall (fun auth => GoogleKeymaster.client_forbidden auth = false /\
                        GoogleKeymaster.unsupported auth = false) pre /\
    (error = KM_ERROR_OK /\ post = [] /\
     GoogleKeymaster.SetAuthorizations self key_description origin now =
     (KM_ERROR_OK,
      filter to_enforced (filter shown pre ++ stamps origin now),
      filter to_unenforced (filter shown pre ++ stamps origin now))
     \/
     error <> KM_ERROR_OK /\
     GoogleKeymaster.SetAuthorizations self key_description origin now =
     (error, filter to_enforced (filter shown pre),
      filter to_unenforced (filter shown pre))).
Proof.
  destruct (SetAuthorizations_loop_partition key_description [] [])
    as (error & pre & post & Hsplit & Hloop & Hpre & Hok & Herror).
  exists error, pre, post. split; [exact Hsplit|]. split; [exact Hpre|].
  unfold GoogleKeymaster.SetAuthorizations. rewrite Hloop. simpl.
  destruct (decide (error = KM_ERROR_OK)) as [->|Hne].
  - left. split; [reflexivity|]. split; [auto|]. simpl.
    rewrite !AddAuthorization_filter. simpl.
    unfold GoogleKeymaster.java_time.
    rewrite <- !app_assoc.
    rewrite !(list.filter_app _ (filter shown pre)).
    rewrite <- (list.filter_app to_enforced [_] [_]).
    rewrite <- (list.filter_app to_unenforced [_] [_]). reflexivity.
  - right. split; [exact Hne|].
    destruct error; try contradiction; reflexivity.
Qed.

(** X14.  When [SetAuthorizations] succeeds, the two sets it fills are the
    authorizations of the description other than [APPLICATION_ID] and
    [APPLICATION_DATA], followed by the creation time and the origin, split
    by [is_enforced] with the order kept: each of them is in exactly one of
    the two sets. *)
Theorem SetAuthorizations_partition (key_description : AuthorizationSet)
    (origin : keymaster_key_origin_t) (now : Z) (enforced unenforced : AuthorizationSet) :
  GoogleKeymaster.SetAuthorizations self key_description origin now =
    (KM_ERROR_OK, enforced, unenforced) ->
  enforced =
    filter to_enforced (filter shown key_description ++ stamps origin now) /\
  unenforced =
    filter to_unenforced (filter shown key_description ++ stamps origin now).
Proof.
  intros Hset.
  destruct (SetAuthorizations_spec key_description origin now)
    as (error & pre & post & -> & _ & [(_ & -> & Heq)|(Hne & Heq)]);
    rewrite Heq in Hset.
  - rewrite app_nil_r. injection Hset as <- <-. split; reflexivity.
  - injection Hset as -> _ _. contradiction.
Qed.

(** X15.  Whatever [SetAuthorizations] returns, the two sets it has filled
    hold no [APPLICATION_ID], [APPLICATION_DATA], [ROOT_OF_TRUST] or
    [ROLLBACK_RESISTANT] entry, and no [ORIGIN] other than the one the
    service stamps; every entry comes from the description or is one of the
    two stamps. *)
Theorem SetAuthorizations_never_hidden (key_description : AuthorizationSet)
    (origin : keymaster_key_origin_t) (now : Z) (error : keymaster_error_t)
    (enforced unenforced : AuthorizationSet) (auth : keymaster_key_param_t) :
  GoogleKeymaster.SetAuthorizations self key_description origin now =
    (error, enforced, unenforced) ->
  auth ∈ enforced ++ unenforced ->
  tag auth <> KM_TAG_APPLICATION_ID /\
  tag auth <> KM_TAG_APPLICATION_DATA /\
  tag auth <> KM_TAG_ROOT_OF_TRUST /\
  tag auth <> KM_TAG_ROLLBACK_RESISTANT /\
  (tag auth = KM_TAG_ORIGIN -> auth = Authorization KM_TAG_ORIGIN origin) /\
  (auth ∈ key_description \/ auth ∈ stamps origin now).
Proof.
  intros Hset Hin.
  assert (Hcopied : forall pre post,
            key_description = pre ++ post ->
            Forall (fun auth => GoogleKeymaster.client_forbidden auth = false /\
                                GoogleKeymaster.unsupported auth = false) pre ->
            auth ∈ filter shown pre ->
            tag auth <> KM_TAG_APPLICATION_ID /\
            tag auth <> KM_TAG_APPLICATION_DATA /\
            tag auth <> KM_TAG_ROOT_OF_TRUST /\
            tag auth <> KM_TAG_ROLLBACK_RESISTANT /\
            (tag auth = KM_TAG_ORIGIN -> auth = Authorization KM_TAG_ORIGIN origin) /\
            (auth ∈ key_description \/ auth ∈ stamps origin now)).
  { intros pre post -> Hpre Hauth.
    apply list_elem_of_filter in Hauth as [Hshown Hauth].
    rewrite list.Forall_forall in Hpre.
    destruct (Hpre auth Hauth) as [Hforbidden Hunsupported].
    unfold GoogleKeymaster.hidden in Hshown.
    unfold GoogleKeymaster.client_forbidden in Hforbidden.
    unfold GoogleKeymaster.unsupported in Hunsupported.
    repeat split; try (intros Htag; rewrite Htag in *; discriminate).
    left. apply elem_of_app. left. exact Hauth. }
  assert (Hstamp : auth ∈ stamps origin now ->
            tag auth <> KM_TAG_APPLICATION_ID /\
            tag auth <> KM_TAG_APPLICATION_DATA /\
            tag auth <> KM_TAG_ROOT_OF_TRUST /\
            tag auth <> KM_TAG_ROLLBACK_RESISTANT /\
            (tag auth = KM_TAG_ORIGIN -> auth = Authorization KM_TAG_ORIGIN origin) /\
            (auth ∈ key_description \/ auth ∈ stamps origin now)).
  { intros Hauth. pose proof Hauth as Hauth'.
    rewrite !elem_of_cons, elem_of_nil in Hauth'.
    destruct Hauth' as [->|[->|[]]]; simpl;
      repeat split; try discriminate; auto. }
  destruct (SetAuthorizations_spec key_description origin now)
    as (error' & pre & post & Hsplit & Hpre & [(_ & _ & Heq)|(_ & Heq)]);
    rewrite Heq in Hset; injection Hset as _ <- <-;
    apply elem_of_app in Hin as [Hin|Hin];
    apply list_elem_of_filter in Hin as [_ Hin];
    try (apply elem_of_app in Hin as [Hin|Hin]);
    eauto.
Qed.

(** Lookups in a set filtered by a property of the tag. *)
Lemma GetTagValue_filter_in (P : keymaster_key_param_t -> Prop)
    `{forall auth, Decision (P auth)} (t : keymaster_tag_t) (set : AuthorizationSet) :
  (forall auth, tag auth = t -> P auth) ->
  GetTagValue t (filter P set) = GetTagValue t set.
Proof.
  intros HP. induction set as [|auth set IH]; [reflexivity|].
  destruct (decide (tag auth = t)) as [Heq|Hne].
  - rewrite (filter_cons_True P) by auto. simpl.
    destruct (decide (tag auth = t)); [reflexivity|contradiction].
  - rewrite (GetTagValue_cons_ne t auth set Hne).
    destruct (decide (P auth)).
    + rewrite (filter_cons_True P) by assumption.
      rewrite GetTagValue_cons_ne by exact Hne. exact IH.
    + rewrite (filter_cons_False P) by assumption. exact IH.
Qed.

Lemma GetTagValue_filter_out (P : keymaster_key_param_t -> Prop)
    `{forall auth, Decision (P auth)} (t : keymaster_tag_t) (set : AuthorizationSet) :
  (forall auth, tag auth = t -> ~ P auth) ->
  GetTagValue t (filter P set) = None.
Proof.
  intros HP. apply GetTagValue_None, list.Forall_forall.
  intros auth Hin Htag. apply list_elem_of_filter in Hin as [HPa _].
  exact (HP auth Htag HPa).
Qed.

(** X16.  A key rebuilt by [Key::Key] from a blob that holds the two sets
    [SetAuthorizations] filled answers every lookup as the description
    followed by the creation time and the origin does, whichever set each
    tag went to; [APPLICATION_ID] and [APPLICATION_DATA] are not found. *)
Theorem Key_new_lookup (key_description : AuthorizationSet)
    (origin : keymaster_key_origin_t) (now : Z)
    (blob : KeymasterCalls.UnencryptedKeyBlob) (t : keymaster_tag_t) :
  GoogleKeymaster.SetAuthorizations self key_description origin now =
    (KM_ERROR_OK, KeymasterCalls.blob_enforced blob,
     KeymasterCalls.blob_unenforced blob) ->
  GetTagValue t (KeymasterCalls.Key_new blob) =
  if bool_decide (t = KM_TAG_APPLICATION_ID \/ t = KM_TAG_APPLICATION_DATA)
  then None
  else GetTagValue t (key_description ++ stamps origin now).
Proof.
  intros Hset.
  assert (KeymasterCalls.blob_enforced blob =
            filter to_enforced (filter shown key_description ++ stamps origin now) /\
          KeymasterCalls.blob_unenforced blob =
            filter to_unenforced (filter shown key_description ++ stamps origin now))
    as [Henforced Hunenforced].
  { destruct (SetAuthorizations_spec key_description origin now)
      as (error & pre & post & -> & _ & [(_ & -> & Heq)|(Hne & Heq)]);
      rewrite Heq in Hset.
    - rewrite app_nil_r. injection Hset as <- <-. split; reflexivity.
    - injection Hset as -> _ _. contradiction. }
  unfold KeymasterCalls.Key_new, KeymasterCalls.push_back_set. simpl.
  rewrite Henforced, Hunenforced, GetTagValue_app.
  set (all := filter shown key_description ++ stamps origin now).
  assert (Hall : GetTagValue t all =
                 if bool_decide (t = KM_TAG_APPLICATION_ID \/
                                 t = KM_TAG_APPLICATION_DATA)
                 then None
                 else GetTagValue t (key_description ++ stamps origin now)).
  { unfold all. rewrite !GetTagValue_app.
    destruct (bool_decide_reflect (t = KM_TAG_APPLICATION_ID \/
                                   t = KM_TAG_APPLICATION_DATA)) as [Hhidden|Hshown].
    - rewrite GetTagValue_filter_out.
      + destruct Hhidden as [-> | ->]; reflexivity.
      + intros auth Htag. unfold GoogleKeymaster.hidden. rewrite Htag.
        destruct Hhidden as [-> | ->]; discriminate.
    - rewrite GetTagValue_filter_in; [reflexivity|].
      intros auth Htag. unfold GoogleKeymaster.hidden. rewrite Htag.
      destruct t; try reflexivity; exfalso; apply Hshown; auto. }
  rewrite <- Hall.
  destruct (GoogleKeymaster.is_enforced self t) eqn:Henf.
  - rewrite (GetTagValue_filter_out to_unenforced)
      by (intros auth ->; simpl; congruence).
    apply GetTagValue_filter_in. intros auth ->. exact Henf.
  - rewrite (GetTagValue_filter_in to_unenforced)
      by (intros auth ->; exact Henf).
    destruct (GetTagValue t all); [reflexivity|].
    apply GetTagValue_filter_out. intros auth ->. simpl. congruence.
Qed.

(** The hidden set built from an input set, by what the input set holds. *)
Lemma BuildHiddenAuthorizations_shape (input_set : AuthorizationSet) :
  snd (GoogleKeymaster.BuildHiddenAuthorizations self input_set []) =
  match GetTagValue KM_TAG_APPLICATION_ID input_set with
  | Some entry => [Authorization KM_TAG_APPLICATION_ID entry]
  | None => []
  end ++
  match GetTagValue KM_TAG_APPLICATION_DATA input_set with
  | Some entry => [Authorization KM_TAG_APPLICATION_DATA entry]
  | None => []
  end ++
  [GoogleKeymaster.RootOfTrustTag self].
Proof.
  unfold GoogleKeymaster.BuildHiddenAuthorizations, push_back. simpl.
  destruct (GetTagValue KM_TAG_APPLICATION_ID input_set);
    destruct (GetTagValue KM_TAG_APPLICATION_DATA input_set); reflexivity.
Qed.

Lemma Authorization_inj (t : keymaster_tag_t) (v w : value_t t) :
  Authorization t v = Authorization t w -> v = w.
Proof.
  intros Heq.
  assert (Hlookup : GetTagValue t [Authorization t v] = GetTagValue t [Authorization t w])
    by (rewrite Heq; reflexivity).
  rewrite !GetTagValue_cons_eq in Hlookup. congruence.
Qed.

Lemma cons_eq_inv {A : Type} (a b : A) (l k : list A) :
  a :: l = b :: k -> a = b /\ l = k.
Proof.
  intros Heq. split.
  - exact (f_equal (fun x => match x with c :: _ => c | [] => a end) Heq).
  - exact (f_equal (fun x => match x with _ :: t => t | [] => l end) Heq).
Qed.

(** X17.  The hidden set depends on the input set through its first
    [APPLICATION_ID] and its first [APPLICATION_DATA] only: two input sets
    give the same hidden set exactly when they agree on both, and then
    [LoadKeyBlob] treats a blob alike with either as client parameters. *)
Theorem BuildHiddenAuthorizations_binds (input_set other_set : AuthorizationSet) :
  (snd (GoogleKeymaster.BuildHiddenAuthorizations self input_set []) =
   snd (GoogleKeymaster.BuildHiddenAuthorizations self other_set []) <->
   GetTagValue KM_TAG_APPLICATION_ID input_set =
     GetTagValue KM_TAG_APPLICATION_ID other_set /\
   GetTagValue KM_TAG_APPLICATION_DATA input_set =
     GetTagValue KM_TAG_APPLICATION_DATA other_set) /\
  (GetTagValue KM_TAG_APPLICATION_ID input_set =
     GetTagValue KM_TAG_APPLICATION_ID other_set ->
   GetTagValue KM_TAG_APPLICATION_DATA input_set =
     GetTagValue KM_TAG_APPLICATION_DATA other_set ->
   forall UnencryptedKeyBlob_load key,
     KeymasterCalls.LoadKeyBlob self UnencryptedKeyBlob_load key input_set =
     KeymasterCalls.LoadKeyBlob self UnencryptedKeyBlob_load key other_set).
Proof.
  split.
  - rewrite !BuildHiddenAuthorizations_shape. split.
    + destruct (GetTagValue KM_TAG_APPLICATION_ID input_set) as [id|];
        destruct (GetTagValue KM_TAG_APPLICATION_ID other_set) as [id'|];
        destruct (GetTagValue KM_TAG_APPLICATION_DATA input_set) as [data|];
        destruct (GetTagValue KM_TAG_APPLICATION_DATA other_set) as [data'|];
        simpl; intros Heq;
        repeat match goal with
               | H : _ :: _ = _ :: _ |- _ => apply cons_eq_inv in H as [? H]
               | H : Authorization ?t _ = Authorization ?t _ |- _ =>
                 apply Authorization_inj in H; subst
               end;
        try discriminate; try (split; reflexivity);
        try match goal with
            | H : Authorization _ _ = GoogleKeymaster.RootOfTrustTag self,
              H' : GoogleKeymaster.RootOfTrustTag self = Authorization _ _ |- _ =>
              rewrite <- H in H'; discriminate
            | H : GoogleKeymaster.RootOfTrustTag self = Authorization _ _,
              H' : Authorization _ _ = GoogleKeymaster.RootOfTrustTag self |- _ =>
              rewrite H in H'; discriminate
            end.
    + intros [-> ->]. reflexivity.
  - intros Hid Hdata UnencryptedKeyBlob_load key. unfold KeymasterCalls.LoadKeyBlob.
    pose proof (BuildHiddenAuthorizations_shape input_set) as Hshape.
    pose proof (BuildHiddenAuthorizations_shape other_set) as Hshape'.
    rewrite <- Hid, <- Hdata, <- Hshape in Hshape'.
    destruct (GoogleKeymaster.BuildHiddenAuthorizations self input_set []) as [e hidden].
    destruct (GoogleKeymaster.BuildHiddenAuthorizations self other_set []) as [e' hidden'].
    simpl in Hshape'. subst hidden'. reflexivity.
Qed.

End AnyImplementation.

Lemma SetAuthorizations_partition_witness :
  GoogleKeymaster.SetAuthorizations (KeymasterCalls.enforcing_keymaster unit)
    [Authorization KM_TAG_ALGORITHM KM_ALGORITHM_RSA;
     Authorization KM_TAG_APPLICATION_ID ["001"%byte];
     Authorization KM_TAG_DIGEST KM_DIGEST_NONE]
    KM_ORIGIN_HARDWARE 5 =
  (KM_ERROR_OK,
   [Authorization KM_TAG_ALGORITHM KM_ALGORITHM_RSA],
   [Authorization KM_TAG_DIGEST KM_DIGEST_NONE;
    Authorization KM_TAG_CREATION_DATETIME 5000;
    Authorization KM_TAG_ORIGIN KM_ORIGIN_HARDWARE]) /\
  [Authorization KM_TAG_ALGORITHM KM_ALGORITHM_RSA] =
    filter
      (fun auth =>
         GoogleKeymaster.is_enforced (KeymasterCalls.enforcing_keymaster unit) (tag auth) =
         true)
      (filter (fun auth => GoogleKeymaster.hidden auth = false)
         [Authorization KM_TAG_ALGORITHM KM_ALGORITHM_RSA;
          Authorization KM_TAG_APPLICATION_ID ["001"%byte];
          Authorization KM_TAG_DIGEST KM_DIGEST_NONE] ++
       [Authorization KM_TAG_CREATION_DATETIME (5 * 1000);
        Authorization KM_TAG_ORIGIN KM_ORIGIN_HARDWARE]).
Proof.
  split; [reflexivity|].
  exact (proj1 (SetAuthorizations_partition (KeymasterCalls.enforcing_keymaster unit)
                  [Authorization KM_TAG_ALGORITHM KM_ALGORITHM_RSA;
                   Authorization KM_TAG_APPLICATION_ID ["001"%byte];
                   Authorization KM_TAG_DIGEST KM_DIGEST_NONE]
                  KM_ORIGIN_HARDWARE 5 _ _ eq_refl)).
Defined.

Lemma SetAuthorizations_never_hidden_witness :
  GoogleKeymaster.SetAuthorizations (KeymasterCalls.enforcing_keymaster unit)
    [Authorization KM_TAG_ALGORITHM KM_ALGORITHM_RSA;
     Authorization KM_TAG_APPLICATION_ID ["001"%byte];
     Authorization KM_TAG_ROLLBACK_RESISTANT true;
     Authorization KM_TAG_DIGEST KM_DIGEST_NONE]
    KM_ORIGIN_HARDWARE 5 =
  (KM_ERROR_UNSUPPORTED_TAG, [Authorization KM_TAG_ALGORITHM KM_ALGORITHM_RSA], []) /\
  Authorization KM_TAG_ALGORITHM KM_ALGORITHM_RSA ∈
    [Authorization KM_TAG_ALGORITHM KM_ALGORITHM_RSA] ++ [] /\
  tag (Authorization KM_TAG_ALGORITHM KM_ALGORITHM_RSA) <> KM_TAG_APPLICATION_ID.
Proof.
  split; [reflexivity|]. split; [apply list_elem_of_here|].
  exact (proj1 (SetAuthorizations_never_hidden (KeymasterCalls.enforcing_keymaster unit)
                  [Authorization KM_TAG_ALGORITHM KM_ALGORITHM_RSA;
                   Authorization KM_TAG_APPLICATION_ID ["001"%byte];
                   Authorization KM_TAG_ROLLBACK_RESISTANT true;
                   Authorization KM_TAG_DIGEST KM_DIGEST_NONE]
                  KM_ORIGIN_HARDWARE 5 _ _ _
                  (Authorization KM_TAG_ALGORITHM KM_ALGORITHM_RSA)
                  eq_refl (list_elem_of_here _ _))).
Defined.

Lemma Key_new_lookup_witness :
  GoogleKeymaster.SetAuthorizations (KeymasterCalls.enforcing_keymaster unit)
    [Authorization KM_TAG_DIGEST KM_DIGEST_NONE;
     Authorization KM_TAG_APPLICATION_ID ["001"%byte];
     Authorization KM_TAG_ALGORITHM KM_ALGORITHM_RSA]
    KM_ORIGIN_HARDWARE 5 =
  (KM_ERROR_OK,
   [Authorization KM_TAG_ALGORITHM KM_ALGORITHM_RSA],
   [Authorization KM_TAG_DIGEST KM_DIGEST_NONE;
    Authorization KM_TAG_CREATION_DATETIME 5000;
    Authorization KM_TAG_ORIGIN KM_ORIGIN_HARDWARE]) /\
  GetTagValue KM_TAG_ALGORITHM
    (KeymasterCalls.Key_new
       {| KeymasterCalls.blob_error := KM_ERROR_OK;
          KeymasterCalls.blob_algorithm := KM_ALGORITHM_RSA;
          KeymasterCalls.blob_enforced :=
            [Authorization KM_TAG_ALGORITHM KM_ALGORITHM_RSA];
          KeymasterCalls.blob_unenforced :=
            [Authorization KM_TAG_DIGEST KM_DIGEST_NONE;
             Authorization KM_TAG_CREATION_DATETIME 5000;
             Authorization KM_TAG_ORIGIN KM_ORIGIN_HARDWARE];
          KeymasterCalls.blob_key_material := [] |}) =
  Some KM_ALGORITHM_RSA.
Proof.
  split; [reflexivity|].
  exact (Key_new_lookup (KeymasterCalls.enforcing_keymaster unit)
           [Authorization KM_TAG_DIGEST KM_DIGEST_NONE;
            Authorization KM_TAG_APPLICATION_ID ["001"%byte];
            Authorization KM_TAG_ALGORITHM KM_ALGORITHM_RSA]
           KM_ORIGIN_HARDWARE 5
           {| KeymasterCalls.blob_error := KM_ERROR_OK;
              KeymasterCalls.blob_algorithm := KM_ALGORITHM_RSA;
              KeymasterCalls.blob_enforced :=
                [Authorization KM_TAG_ALGORITHM KM_ALGORITHM_RSA];
              KeymasterCalls.blob_unenforced :=
                [Authorization KM_TAG_DIGEST KM_DIGEST_NONE;
                 Authorization KM_TAG_CREATION_DATETIME 5000;
                 Authorization KM_TAG_ORIGIN KM_ORIGIN_HARDWARE];
              KeymasterCalls.blob_key_material := [] |}
           KM_TAG_ALGORITHM eq_refl).
Defined.

(** ** Beginning an operation, and the slot it takes *)

Section BeginningOperations.

Context {Operation : Type} `{GoogleKeymaster.OperationClass Operation}.
Context {Rand : Type}.
Variable RAND_bytes : Rand -> nat -> option (list byte) * Rand.

Implicit Types self : @GoogleKeymaster.GoogleKeymaster Operation Rand.
Implicit Types entry : @GoogleKeymaster.OpTableEntry Operation.

Abbreviation free := (fun entry => GoogleKeymaster.operation entry = None).

(** What [AddOperation] does to the table. *)
Lemma AddOperation_spec self (op : Operation) (previous : Z)
    (error : keymaster_error_t) (op_handle : Z) self' :
  GoogleKeymaster.AddOperation RAND_bytes op previous self = (error, op_handle, self') ->
  GoogleKeymaster.operation_table_ self' = GoogleKeymaster.operation_table_ self /\
  error <> KM_ERROR_OK /\
  (op_handle = previous \/ op_handle = 0 \/ error = KM_ERROR_TOO_MANY_OPERATIONS)
  \/
  error = KM_ERROR_OK /\ op_handle <> 0 /\
  GoogleKeymaster.drawn_handle RAND_bytes self = Some op_handle /\
  exists i entry,
    list_find free (GoogleKeymaster.operation_table_ self) = Some (i, entry) /\
    GoogleKeymaster.operation_table_ self' =
      <[i := {| GoogleKeymaster.handle := op_handle;
                GoogleKeymaster.operation := Some op |}]>
        (GoogleKeymaster.operation_table_ self).
Proof.
  unfold GoogleKeymaster.AddOperation, GoogleKeymaster.drawn_handle.
  destruct (RAND_bytes _ _) as [[bytes|] rand].
  2: { intros [= <- <- <-]. left. split; [reflexivity|].
       split; [discriminate|]. left. reflexivity. }
  destruct (Z.eqb_spec (GoogleKeymaster.handle_of_bytes bytes) 0) as [Hzero|Hnonzero].
  { intros [= <- <- <-]. left. split; [reflexivity|].
    split; [discriminate|]. right. left. exact Hzero. }
  simpl.
  destruct (list_find _ _) as [[i entry]|] eqn:Hfind.
  - intros [= <- <- <-]. right. split; [reflexivity|]. split; [exact Hnonzero|].
    split; [reflexivity|]. exists i, entry. split; reflexivity.
  - intros [= <- <- <-]. left. split; [reflexivity|].
    split; [discriminate|]. right. right. reflexivity.
Qed.

(** A handle no slot holds is found, after it has been stored in slot [i],
    in slot [i]. *)
Lemma FindOperation_stored self self' (op_handle : Z) (i : nat) (op : Operation) :
  op_handle <> 0 ->
  GoogleKeymaster.FindOperation self op_handle = None ->
  (i < length (GoogleKeymaster.operation_table_ self))%nat ->
  GoogleKeymaster.operation_table_ self' =
    <[i := {| GoogleKeymaster.handle := op_handle;
              GoogleKeymaster.operation := Some op |}]>
      (GoogleKeymaster.operation_table_ self) ->
  GoogleKeymaster.FindOperation self' op_handle = Some i.
Proof.
  intros Hnonzero Hnone Hi Htable.
  apply (FindOperation_None self) in Hnone as [Hzero|Habsent]; [contradiction|].
  rewrite list.Forall_forall in Habsent.
  unfold GoogleKeymaster.FindOperation.
  destruct (Z.eqb_spec op_handle 0) as [|_]; [contradiction|].
  rewrite Htable.
  assert (Hfind : list_find (fun entry => GoogleKeymaster.handle entry = op_handle)
                    (<[i := {| GoogleKeymaster.handle := op_handle;
                               GoogleKeymaster.operation := Some op |}]>
                       (GoogleKeymaster.operation_table_ self)) =
                  Some (i, {| GoogleKeymaster.handle := op_handle;
                              GoogleKeymaster.operation := Some op |})).
  { apply list_find_Some. split; [by apply list_lookup_insert_eq|].
    split; [reflexivity|]. intros j entry Hlookup Hlt.
    rewrite list_lookup_insert_ne in Hlookup by lia.
    apply Habsent. by eapply list_elem_of_lookup_2. }
  rewrite Hfind. reflexivity.
Qed.

Context (keymaster_impl : GoogleKeymaster.Implementation Rand).
Variable UnencryptedKeyBlob_load :
  list byte -> AuthorizationSet -> list byte -> option KeymasterCalls.UnencryptedKeyBlob.
Context {K : Type}.
Variable KeyFactory_LoadKey :
  keymaster_algorithm_t ->
  option (KeymasterCalls.UnencryptedKeyBlob -> keymaster_error_t * option K).
Variable OperationFactoryRegistry_Get :
  keymaster_algorithm_t -> keymaster_purpose_t ->
  option (K -> keymaster_error_t -> keymaster_error_t * option Operation).
Variable op_Begin :
  Operation -> AuthorizationSet -> keymaster_error_t * Operation * AuthorizationSet.

Abbreviation BeginOperation :=
  (KeymasterCalls.BeginOperation keymaster_impl UnencryptedKeyBlob_load
     KeyFactory_LoadKey RAND_bytes OperationFactoryRegistry_Get op_Begin).

Lemma BeginOperation_spec (key_blob : list byte) (purpose : keymaster_purpose_t)
    (additional_params : AuthorizationSet)
    (response response' : KeymasterCalls.BeginOperationResponse) self self' :
  BeginOperation key_blob purpose additional_params response self = (response', self') ->
  GoogleKeymaster.operation_table_ self' = GoogleKeymaster.operation_table_ self /\
  (KeymasterCalls.op_handle response' = 0 \/
   KeymasterCalls.begin_error response' = KM_ERROR_TOO_MANY_OPERATIONS)
  \/
  KeymasterCalls.begin_error response' = KM_ERROR_OK /\
  KeymasterCalls.op_handle response' <> 0 /\
  exists error key algorithm factory_CreateOperation error' created begun i entry,
    KeymasterCalls.LoadKey keymaster_impl UnencryptedKeyBlob_load KeyFactory_LoadKey
      key_blob additional_params = (error, Some (key, algorithm)) /\
    OperationFactoryRegistry_Get algorithm purpose = Some factory_CreateOperation /\
    factory_CreateOperation key error = (error', Some created) /\
    op_Begin created additional_params =
      (KM_ERROR_OK, begun, KeymasterCalls.output_params response') /\
    GoogleKeymaster.drawn_handle RAND_bytes self =
      Some (KeymasterCalls.op_handle response') /\
    list_find free (GoogleKeymaster.operation_table_ self) = Some (i, entry) /\
    GoogleKeymaster.operation_table_ self' =
      <[i := {| GoogleKeymaster.handle := KeymasterCalls.op_handle response';
                GoogleKeymaster.operation := Some begun |}]>
        (GoogleKeymaster.operation_table_ self).
Proof.
  unfold KeymasterCalls.BeginOperation.
  destruct (KeymasterCalls.LoadKey _ _ _ _ _) as [error [[key algorithm]|]] eqn:Hload.
  2: { intros [= <- <-]. left. split; [reflexivity|]. left. reflexivity. }
  simpl.
  destruct (OperationFactoryRegistry_Get algorithm purpose) as [factory|] eqn:Hfactory.
  2: { intros [= <- <-]. left. split; [reflexivity|]. left. reflexivity. }
  destruct (factory key error) as [error' [operation|]] eqn:Hcreate.
  2: { intros [= <- <-]. left. split; [reflexivity|]. left. reflexivity. }
  destruct (op_Begin operation additional_params) as [[begin_error begun] output]
    eqn:Hbegun.
  destruct (is_ok begin_error) eqn:Hok; simpl.
  2: { intros [= <- <-]. left. split; [reflexivity|]. left. reflexivity. }
  apply is_ok_true in Hok. subst begin_error.
  destruct (GoogleKeymaster.AddOperation RAND_bytes begun 0 self)
    as [[add_error op_handle] added] eqn:Hadd.
  intros [= <- <-]. simpl.
  apply AddOperation_spec in Hadd
    as [(Htable & _ & Hhandle)
       |(-> & Hnonzero & Hdrawn & i & entry & Hfind & Htable)].
  - left. split; [exact Htable|]. tauto.
  - right. split; [reflexivity|]. split; [exact Hnonzero|].
    exists error, key, algorithm, factory, error', operation, begun, i, entry.
    repeat (split; [first [assumption | reflexivity]|]). exact Htable.
Qed.


(** X19.  Begin, then finish or abort: when the table is well formed and
    [BeginOperation] hands out a handle that is not 0 and that no slot held
    before, the handle names the operation just stored: [FinishOperation]
    answers with what that operation's [Finish] returns, [AbortOperation]
    with what its [Abort] returns, and either call leaves the table as it
    was before [BeginOperation]. *)
Theorem BeginOperation_then_Finish (key_blob : list byte) (purpose : keymaster_purpose_t)
    (additional_params : AuthorizationSet)
    (response response' : KeymasterCalls.BeginOperationResponse) self self' :
  GoogleKeymaster.table_ok self ->
  BeginOperation key_blob purpose additional_params response self = (response', self') ->
  KeymasterCalls.begin_error response' = KM_ERROR_OK ->
  KeymasterCalls.op_handle response' <> 0 ->
  GoogleKeymaster.FindOperation self (KeymasterCalls.op_handle response') = None ->
  exists i op,
    GoogleKeymaster.operation_table_ self' !! i =
      Some {| GoogleKeymaster.handle := KeymasterCalls.op_handle response';
              GoogleKeymaster.operation := Some op |} /\
    (forall finish_params signature,
       GoogleKeymaster.FinishOperation (KeymasterCalls.op_handle response')
         finish_params signature self' =
       GoogleKeymaster.Returns
         ({| GoogleKeymaster.finish_error :=
               fst (GoogleKeymaster.op_Finish op finish_params signature);
             GoogleKeymaster.finish_output :=
               snd (GoogleKeymaster.op_Finish op finish_params signature) |},
          {| GoogleKeymaster.operation_table_ := GoogleKeymaster.operation_table_ self;
             GoogleKeymaster.rand_ := GoogleKeymaster.rand_ self' |})) /\
    GoogleKeymaster.AbortOperation (KeymasterCalls.op_handle response') self' =
    GoogleKeymaster.Returns
      (GoogleKeymaster.op_Abort op,
       {| GoogleKeymaster.operation_table_ := GoogleKeymaster.operation_table_ self;
          GoogleKeymaster.rand_ := GoogleKeymaster.rand_ self' |}).
Proof.
  intros Hok Hbegin Herror Hnonzero Hfresh.
  destruct (BeginOperation_spec _ _ _ _ _ _ _ Hbegin)
    as [(_ & [Hzero|Hfull])
       |(_ & _ & load_error & key & algorithm & factory & create_error & created
           & op & i & entry & _ & _ & _ & _ & _ & Hfind & Htable)].
  { contradiction. }
  { congruence. }
  apply list_find_Some in Hfind as (Hlookup & Hfree & _).
  assert (Hi : (i < length (GoogleKeymaster.operation_table_ self))%nat)
    by (eapply lookup_lt_Some; exact Hlookup).
  assert (Hentry : entry = GoogleKeymaster.OpTableEntry_empty).
  { unfold GoogleKeymaster.table_ok in Hok. rewrite list.Forall_forall in Hok.
    assert (Hslot : GoogleKeymaster.slot_ok entry)
      by (apply Hok; by eapply list_elem_of_lookup_2).
    destruct entry as [h o]. simpl in Hfree. subst o.
    destruct Hslot as [Hzero _]. simpl in Hzero. rewrite (Hzero eq_refl).
    reflexivity. }
  subst entry.
  pose proof (FindOperation_stored self self' _ i op Hnonzero Hfresh Hi Htable)
    as Hfound.
  assert (Hstored : GoogleKeymaster.operation_table_ self' !! i =
                    Some {| GoogleKeymaster.handle := KeymasterCalls.op_handle response';
                            GoogleKeymaster.operation := Some op |})
    by (rewrite Htable; by apply list_lookup_insert_eq).
  assert (Hrestored : <[i := GoogleKeymaster.OpTableEntry_empty]>
                        (GoogleKeymaster.operation_table_ self') =
                      GoogleKeymaster.operation_table_ self).
  { rewrite Htable, list_insert_insert_eq. by apply list_insert_id. }
  exists i, op. split; [exact Hstored|]. split.
  - intros finish_params signature. unfold GoogleKeymaster.FinishOperation.
    rewrite Hfound, Hstored. simpl.
    destruct (GoogleKeymaster.op_Finish op finish_params signature) as [error output].
    unfold GoogleKeymaster.DeleteOperation. rewrite Hrestored. reflexivity.
  - unfold GoogleKeymaster.AbortOperation. rewrite Hfound, Hstored. simpl.
    unfold GoogleKeymaster.DeleteOperation. rewrite Hrestored.
    destruct (GoogleKeymaster.op_Abort op); reflexivity.
Qed.

(** The slots other than [i] and the generator are untouched. *)
Abbreviation only_slot i self self' :=
  (GoogleKeymaster.rand_ self' = GoogleKeymaster.rand_ self /\
   length (GoogleKeymaster.operation_table_ self') =
     length (GoogleKeymaster.operation_table_ self) /\
   forall j, j <> i ->
     GoogleKeymaster.operation_table_ self' !! j =
     GoogleKeymaster.operation_table_ self !! j).




(** X21.  Finishing or aborting makes room: after [FinishOperation] or
    [AbortOperation] has returned for a handle that [FindOperation] finds,
    an [AddOperation] whose random draw succeeds with a handle that is not
    0 answers [KM_ERROR_OK], however full the table was. *)
Theorem finished_slot_is_reused self self' (op_handle : Z) (i : nat)
    (c : GoogleKeymaster.call) (error : keymaster_error_t)
    (op : Operation) (previous : Z) (bytes : list byte) (rand : Rand) :
  GoogleKeymaster.FindOperation self op_handle = Some i ->
  (c = GoogleKeymaster.Call_Abort op_handle \/
   exists additional_params signature,
     c = GoogleKeymaster.Call_Finish op_handle additional_params signature) ->
  GoogleKeymaster.run_call RAND_bytes c self = GoogleKeymaster.Returns (error, self') ->
  RAND_bytes (GoogleKeymaster.rand_ self') 8 = (Some bytes, rand) ->
  GoogleKeymaster.handle_of_bytes bytes <> 0 ->
  exists self'',
    GoogleKeymaster.AddOperation RAND_bytes op previous self' =
    (KM_ERROR_OK, GoogleKeymaster.handle_of_bytes bytes, self'').
Proof.
  intros Hfind Hcall Hrun Hdraw Hnonzero.
  assert (Hdeleted : self' = GoogleKeymaster.DeleteOperation self i).
  { destruct Hcall as [->|(additional_params & signature & ->)]; simpl in Hrun.
    - unfold GoogleKeymaster.AbortOperation in Hrun. rewrite Hfind in Hrun.
      destruct (_ ≫= _) as [op'|]; [|discriminate].
      destruct (negb (is_ok (GoogleKeymaster.op_Abort op'))); by injection Hrun as _ <-.
    - unfold GoogleKeymaster.FinishOperation in Hrun. rewrite Hfind in Hrun.
      destruct (_ ≫= _) as [op'|]; [|discriminate].
      destruct (GoogleKeymaster.op_Finish op' additional_params signature)
        as [e output].
      by injection Hrun as _ <-. }
  apply (FindOperation_Some self) in Hfind as (_ & entry & Hlookup & _).
  assert (Hi : (i < length (GoogleKeymaster.operation_table_ self))%nat)
    by (eapply lookup_lt_Some; exact Hlookup).
  unfold GoogleKeymaster.AddOperation. rewrite Hdraw.
  destruct (Z.eqb_spec (GoogleKeymaster.handle_of_bytes bytes) 0) as [|_];
    [contradiction|].
  simpl.
  destruct (list_find free (GoogleKeymaster.operation_table_ self'))
    as [[j free_entry]|] eqn:Hfree; [eauto|].
  exfalso. apply list_find_None in Hfree. rewrite list.Forall_forall in Hfree.
  apply (Hfree GoogleKeymaster.OpTableEntry_empty); [|reflexivity].
  rewrite Hdeleted. simpl.
  apply (list_elem_of_lookup_2 _ i). by apply list_lookup_insert_eq.
Qed.

End BeginningOperations.


Lemma BeginOperation_then_Finish_witness :
  KeymasterCalls.BeginOperation
    (GoogleKeymaster.AndroidSoftKeymaster.impl (list byte))
    KeymasterCalls.test_UnencryptedKeyBlob_load KeymasterCalls.test_KeyFactory_LoadKey
    GoogleKeymaster.pool_RAND_bytes KeymasterCalls.test_OperationFactoryRegistry_Get
    KeymasterCalls.test_Begin [] KM_PURPOSE_SIGN [] KeymasterCalls.test_response
    KeymasterCalls.test_keymaster =
  ({| KeymasterCalls.begin_error := KM_ERROR_OK; KeymasterCalls.op_handle := 1;
      KeymasterCalls.output_params := [] |},
   KeymasterCalls.test_keymaster_begun) /\
  GoogleKeymaster.table_ok KeymasterCalls.test_keymaster /\
  GoogleKeymaster.FindOperation KeymasterCalls.test_keymaster 1 = None /\
  exists i op,
    GoogleKeymaster.operation_table_ KeymasterCalls.test_keymaster_begun !! i =
      Some {| GoogleKeymaster.handle := 1; GoogleKeymaster.operation := Some op |} /\
    (forall finish_params signature,
       GoogleKeymaster.FinishOperation 1 finish_params signature
         KeymasterCalls.test_keymaster_begun =
       GoogleKeymaster.Returns
         ({| GoogleKeymaster.finish_error :=
               fst (GoogleKeymaster.op_Finish op finish_params signature);
             GoogleKeymaster.finish_output :=
               snd (GoogleKeymaster.op_Finish op finish_params signature) |},
          {| GoogleKeymaster.operation_table_ :=
               GoogleKeymaster.operation_table_ KeymasterCalls.test_keymaster;
             GoogleKeymaster.rand_ := [] |})) /\
    GoogleKeymaster.AbortOperation 1 KeymasterCalls.test_keymaster_begun =
    GoogleKeymaster.Returns
      (GoogleKeymaster.op_Abort op,
       {| GoogleKeymaster.operation_table_ :=
            GoogleKeymaster.operation_table_ KeymasterCalls.test_keymaster;
          GoogleKeymaster.rand_ := [] |}).
Proof.
  split; [reflexivity|]. split; [apply table_ok_new|]. split; [reflexivity|].
  apply (BeginOperation_then_Finish GoogleKeymaster.pool_RAND_bytes
           (GoogleKeymaster.AndroidSoftKeymaster.impl (list byte))
           KeymasterCalls.test_UnencryptedKeyBlob_load
           KeymasterCalls.test_KeyFactory_LoadKey
           KeymasterCalls.test_OperationFactoryRegistry_Get
           KeymasterCalls.test_Begin [] KM_PURPOSE_SIGN [] KeymasterCalls.test_response
           {| KeymasterCalls.begin_error := KM_ERROR_OK; KeymasterCalls.op_handle := 1;
              KeymasterCalls.output_params := [] |}
           KeymasterCalls.test_keymaster KeymasterCalls.test_keymaster_begun);
    [apply table_ok_new | reflexivity | reflexivity | discriminate | reflexivity].
Defined.


Lemma finished_slot_is_reused_witness :
  GoogleKeymaster.FindOperation KeymasterCalls.test_keymaster_begun 1 = Some 0%nat /\
  GoogleKeymaster.run_call GoogleKeymaster.pool_RAND_bytes (GoogleKeymaster.Call_Abort 1)
    {| GoogleKeymaster.operation_table_ :=
         GoogleKeymaster.operation_table_ KeymasterCalls.test_keymaster_begun;
       GoogleKeymaster.rand_ := GoogleKeymaster.rand_ KeymasterCalls.test_keymaster |} =
  GoogleKeymaster.Returns (KM_ERROR_OK, KeymasterCalls.test_keymaster) /\
  exists self'',
    GoogleKeymaster.AddOperation GoogleKeymaster.pool_RAND_bytes KM_ERROR_OK 0
      KeymasterCalls.test_keymaster =
    (KM_ERROR_OK,
     GoogleKeymaster.handle_of_bytes
       ["001"%byte; "000"%byte; "000"%byte; "000"%byte;
        "000"%byte; "000"%byte; "000"%byte; "000"%byte], self'').
Proof.
  split; [reflexivity|]. split; [reflexivity|].
  apply (finished_slot_is_reused GoogleKeymaster.pool_RAND_bytes
           {| GoogleKeymaster.operation_table_ :=
                GoogleKeymaster.operation_table_ KeymasterCalls.test_keymaster_begun;
              GoogleKeymaster.rand_ := GoogleKeymaster.rand_ KeymasterCalls.test_keymaster |}
           KeymasterCalls.test_keymaster 1 0 (GoogleKeymaster.Call_Abort 1) KM_ERROR_OK
           KM_ERROR_OK 0 _ []);
    [reflexivity | left; reflexivity | reflexivity | reflexivity | discriminate].
Defined.

(** ** The origin of a new key *)

Section NewKeyOrigin.

Context {Rand : Type}.
Variable self : GoogleKeymaster.Implementation Rand.
Variable UnencryptedKeyBlob :
  AuthorizationSet -> AuthorizationSet -> AuthorizationSet ->
  list byte -> list byte -> list byte -> keymaster_error_t * list byte.
Variable KeyFactoryRegistry_Get : keymaster_algorithm_t -> option GoogleKeymaster.KeyFactory.

(** The response names the origin [origin], once. *)
Abbreviation stamped origin response :=
  (Authorization KM_TAG_ORIGIN origin ∈
     GoogleKeymaster.enforced response ++ GoogleKeymaster.unenforced response /\
   forall auth,
     auth ∈ GoogleKeymaster.enforced response ++ GoogleKeymaster.unenforced response ->
     tag auth = KM_TAG_ORIGIN -> auth = Authorization KM_TAG_ORIGIN origin).

(** A successful [SerializeKey] hands back the sets [SetAuthorizations]
    filled. *)
Lemma SerializeKey_sets (key : GoogleKeymaster.Key) (origin : keymaster_key_origin_t)
    (now : Z) (nonce : list byte) (rand rand' : Rand)
    (response : GoogleKeymaster.GenerateKeyResponse) :
  GoogleKeymaster.SerializeKey self UnencryptedKeyBlob key origin now nonce rand =
    (response, rand') ->
  GoogleKeymaster.error response = KM_ERROR_OK ->
  GoogleKeymaster.SetAuthorizations self (GoogleKeymaster.authorizations key) origin now =
  (KM_ERROR_OK, GoogleKeymaster.enforced response, GoogleKeymaster.unenforced response).
Proof.
  unfold GoogleKeymaster.SerializeKey.
  destruct (GoogleKeymaster.SetAuthorizations self
              (GoogleKeymaster.authorizations key) origin now)
    as [[error enforced] unenforced].
  destruct (is_ok error) eqn:Herror; simpl.
  2: { intros [= <- <-]. simpl. intros ->. discriminate. }
  apply is_ok_true in Herror. subst error.
  destruct (GoogleKeymaster.key_material key) as [material_error|key_material].
  { intros [= <- <-]. simpl. intros _. reflexivity. }
  destruct (GoogleKeymaster.GenerateNonce self rand nonce GoogleKeymaster.NONCE_LENGTH)
    as [nonce' rand''].
  match goal with
  | |- context [UnencryptedKeyBlob ?e ?u ?h ?k ?m ?n] =>
    destruct (UnencryptedKeyBlob e u h k m n) as [blob_error blob_bytes]
  end.
  destruct (negb (is_ok blob_error)); intros [= <- <-]; reflexivity.
Qed.

Lemma SetAuthorizations_stamped (key_description : AuthorizationSet)
    (origin : keymaster_key_origin_t) (now : Z) (enforced unenforced : AuthorizationSet) :
  GoogleKeymaster.SetAuthorizations self key_description origin now =
    (KM_ERROR_OK, enforced, unenforced) ->
  Authorization KM_TAG_ORIGIN origin ∈ enforced ++ unenforced /\
  forall auth,
    auth ∈ enforced ++ unenforced ->
    tag auth = KM_TAG_ORIGIN -> auth = Authorization KM_TAG_ORIGIN origin.
Proof.
  intros Hset.
  destruct (SetAuthorizations_spec self key_description origin now)
    as (error & pre & post & Hsplit & Hpre & [(_ & _ & Heq)|(Hne & Heq)]);
    rewrite Heq in Hset.
  2: { injection Hset as -> _ _. contradiction. }
  injection Hset as <- <-. split.
  - apply elem_of_app.
    destruct (GoogleKeymaster.is_enforced self KM_TAG_ORIGIN) eqn:Henf; [left|right];
      apply list_elem_of_filter; (split; [exact Henf|]);
      apply elem_of_app; right; apply list_elem_of_further, list_elem_of_here.
  - intros auth Hin Htag.
    apply elem_of_app in Hin as [Hin|Hin];
      apply list_elem_of_filter in Hin as [_ Hin];
      apply elem_of_app in Hin as [Hin|Hin].
    1, 3: apply list_elem_of_filter in Hin as [_ Hin];
      rewrite list.Forall_forall in Hpre;
      destruct (Hpre auth Hin) as [Hforbidden _];
      unfold GoogleKeymaster.client_forbidden in Hforbidden;
      rewrite Htag in Hforbidden; discriminate.
    all: rewrite !elem_of_cons, elem_of_nil in Hin;
      destruct Hin as [->|[->|[]]]; [discriminate Htag|reflexivity].
Qed.

(** X22.  The origin of a new key is the service's: when [GenerateKey]
    succeeds, the characteristics it returns name the implementation's
    [origin()] as [ORIGIN], and when [ImportKey] succeeds they name
    [KM_ORIGIN_IMPORTED]; in both cases this is the only [ORIGIN] entry of
    the two sets, whatever the key factory put into the authorizations.
    The factory is one that reports an error when it hands back no key. *)
Theorem new_key_origin (key_description : AuthorizationSet) (key_format : Z)
    (key_data : list byte) (now : Z) (nonce : list byte) (rand : Rand) :
  (forall factory,
     GetTagValue KM_TAG_ALGORITHM key_description ≫= KeyFactoryRegistry_Get =
       Some factory ->
     GoogleKeymaster.factory_GenerateKey factory key_description <> inl KM_ERROR_OK /\
     GoogleKeymaster.factory_ImportKey factory key_description key_format key_data <>
       inl KM_ERROR_OK) ->
  (forall response rand',
     GoogleKeymaster.GenerateKey self UnencryptedKeyBlob KeyFactoryRegistry_Get
       key_description now nonce rand = (response, rand') ->
     GoogleKeymaster.error response = KM_ERROR_OK ->
     stamped (GoogleKeymaster.origin self) response) /\
  (forall response rand',
     GoogleKeymaster.ImportKey self UnencryptedKeyBlob KeyFactoryRegistry_Get
       key_description key_format key_data now nonce rand = (response, rand') ->
     GoogleKeymaster.error response = KM_ERROR_OK ->
     stamped KM_ORIGIN_IMPORTED response).
Proof.
  intros Hfactory.
  split; intros response rand';
    [unfold GoogleKeymaster.GenerateKey|unfold GoogleKeymaster.ImportKey];
    (destruct (_ ≫= _) as [factory|];
     [|intros [= <- <-]; simpl; discriminate]);
    destruct (Hfactory factory eq_refl) as [Hgenerate Himport].
  - destruct (GoogleKeymaster.factory_GenerateKey factory key_description)
      as [error|key]; [intros [= <- <-]; simpl; intros ->; contradiction|].
    intros Hserialize Hok.
    exact (SetAuthorizations_stamped _ _ _ _ _
             (SerializeKey_sets _ _ _ _ _ _ _ Hserialize Hok)).
  - destruct (GoogleKeymaster.factory_ImportKey factory key_description key_format
                key_data)
      as [error|key]; [intros [= <- <-]; simpl; intros ->; contradiction|].
    intros Hserialize Hok.
    exact (SetAuthorizations_stamped _ _ _ _ _
             (SerializeKey_sets _ _ _ _ _ _ _ Hserialize Hok)).
Qed.

End NewKeyOrigin.

Lemma new_key_origin_witness :
  GoogleKeymaster.error
    (fst (GoogleKeymaster.GenerateKey (KeymasterCalls.enforcing_keymaster unit)
            GoogleKeymaster.test_blob GoogleKeymaster.test_registry
            [Authorization KM_TAG_ALGORITHM KM_ALGORITHM_ECDSA;
             Authorization KM_TAG_KEY_SIZE 256] 5 (replicate 12 "255"%byte) tt)) =
    KM_ERROR_OK /\
  Authorization KM_TAG_ORIGIN KM_ORIGIN_HARDWARE ∈
    GoogleKeymaster.enforced
      (fst (GoogleKeymaster.GenerateKey (KeymasterCalls.enforcing_keymaster unit)
              GoogleKeymaster.test_blob GoogleKeymaster.test_registry
              [Authorization KM_TAG_ALGORITHM KM_ALGORITHM_ECDSA;
               Authorization KM_TAG_KEY_SIZE 256] 5 (replicate 12 "255"%byte) tt)) ++
    GoogleKeymaster.unenforced
      (fst (GoogleKeymaster.GenerateKey (KeymasterCalls.enforcing_keymaster unit)
              GoogleKeymaster.test_blob GoogleKeymaster.test_registry
              [Authorization KM_TAG_ALGORITHM KM_ALGORITHM_ECDSA;
               Authorization KM_TAG_KEY_SIZE 256] 5 (replicate 12 "255"%byte) tt)).
Proof.
  split; [reflexivity|].
  refine (proj1 (proj1 (new_key_origin (KeymasterCalls.enforcing_keymaster unit)
                          GoogleKeymaster.test_blob GoogleKeymaster.test_registry
                          [Authorization KM_TAG_ALGORITHM KM_ALGORITHM_ECDSA;
                           Authorization KM_TAG_KEY_SIZE 256] 1 [] 5
                          (replicate 12 "255"%byte) tt _)
                   (fst (GoogleKeymaster.GenerateKey
                           (KeymasterCalls.enforcing_keymaster unit)
                           GoogleKeymaster.test_blob GoogleKeymaster.test_registry
                           [Authorization KM_TAG_ALGORITHM KM_ALGORITHM_ECDSA;
                            Authorization KM_TAG_KEY_SIZE 256] 5
                           (replicate 12 "255"%byte) tt))
                   tt _ _)).
  - intros factory [= <-]. split; discriminate.
  - reflexivity.
  - reflexivity.
Defined.
